(* ===== verification/_CoqProject ===== *)
-Q . S2P
Prelude.v
JsNumber.v
Exactness.v
Clock.v
Ledger.v
Grouping.v
Persistence.v
App.v
Wellformed.v
Refinement.v
Display.v
NumberString.v
NumberInput.v
Render.v
Firestore.v
