(* ===== verification/Prelude.v ===== *)
(** * A verification development for the donation tracker

    The repository is a single React component, [src/app/src/App.js], and the
    Firebase set-up it imports, [src/app/src/firebase.js].  The component keeps
    six pieces of React state (the donation list, the settled amount, the last
    settlement time, the two form inputs and the expanded month).  It computes
    the total, the remaining amount and the month grouping while it renders.
    It hydrates once from the Firestore document [donationsData/main].  After
    the ref [initialLoadDone] is set, it writes the whole document back
    whenever one of the three persisted state slots changes.

    ** Parts of the program and how they interact

    - JavaScript numbers and strings, that is, the language semantics the code
      relies on.  [JsNumber.v] models [number] as IEEE-754 binary64 through
      the Standard Library's executable [SpecFloat] specification.  It covers
      [+] and [-] with round-to-nearest-even, the relational operators ([>=]
      and [<], false on NaN), truthiness, [Object.is], and the two conversions
      the add handler calls on the amount text: [Number(s)], behind
      [isNaN(amount)] at App.js line 59, and [parseFloat(amount)] at line 69.
      Both follow the StringNumericLiteral and StrDecimalLiteral grammars of
      ECMAScript and round the decimal value correctly.  JS strings are Rocq
      [string]s whose characters stand for UTF-16 code units below 256.  The
      whitespace set is restricted to these code units (TAB, LF, VT, FF, CR,
      SP, NBSP).
    - The clock and the locale formatter ([Clock.v]).  [new Date()] is an
      event parameter, a [date] record.  [toLocaleString] is the class
      [LocaleFormat].  Its en-US instance prints "November 2026" and
      "11/9/2026, 1:53:00 AM".
    - The ledger ([Ledger.v]): the donation record, [totalAmount] (the
      [reduce] at line 79, a left fold of float additions from +0),
      [remaining] (line 80), and the handlers [handleAddDonation] (lines
      58-77) and [handleSettle] (lines 82-89).  A handler is modelled as the
      list of React state updates it enqueues, in order, exactly as it calls
      the setters.
    - The month grouping ([Grouping.v]): the [reduce] at lines 91-95 into a
      plain JS object.  The object is an association list in property-creation
      order.  Reads fall back to the properties of [Object.prototype], and
      [Object.entries] lists integer-like keys first.  This file also holds
      the reversed per-month display of lines 164-175.
    - Persistence ([Persistence.v]): the Firestore document of §6 of the spec,
      the payload of [setDoc] (lines 46-50), and the field-wise defaulting of
      [fetchData] (lines 25-28, with JS [||]).  The store is the class
      [DocumentStore], with its full-replace law and a one-slot instance.
    - The component ([App.v]): a world holding the React state, the
      [initialLoadDone] ref, whether the mount-time read is still pending, and
      the remote store.  Events are the user's inputs and clicks, completion
      of the read, and writes of other sessions.  [dispatch] runs a handler,
      applies its batched updates, re-renders when a slot changed under
      [Object.is], and then runs the save effect of lines 41-56.  It follows
      React 18 automatic batching.  A write outcome (success or rejected
      promise) is an argument of [dispatch].  [reachable] is the inductive
      closure of [dispatch] from the mount state.
    - Firebase ([Firestore.v]): the configuration, [initializeApp] and
      [getFirestore] of firebase.js, and [doc], [getDoc] and [setDoc] of
      App.js over a database that is stdpp's [gmap] from document paths to
      documents.  Its [DocumentStore] instance addresses
      [donationsData/main] for both the read and the write.
    - The summary panel ([Display.v]): [remaining.toFixed(2)] (line 118) as
      ECMAScript's [Number.prototype.toFixed], rounding half up on the exact
      binary value and padding with zeros, and the "Settled on" paragraph
      of lines 120-124.
    - [Number::toString] ([NumberString.v]), which prints each amount of
      the member list (line 170): ECMAScript's search for the fewest
      significant digits that convert back, the nearest such digits (even
      on a tie), then the format by position (plain, fraction, or
      exponent).  It is the executable instance of the parameter that
      [toFixed] and the render take for the values they do not print
      directly.
    - The amount input ([NumberInput.v]): the [type="number"] attribute of
      lines 108-112.  The browser's value sanitisation is [sanitize_number],
      over the HTML grammar of a valid floating-point number.
    - The render ([Render.v]): the JSX tree of lines 96-182 as a [view]
      record.  It holds the inputs' values, the summary panel of
      [Display.v], and the member list: one [month_section] per key of
      [Object.entries(groupedDonations)], whose button colour and arrow
      follow [expandedMonth === month] and whose donations are listed newest
      first, each amount printed with [Number::toString] ([number_text]:
      the exact digits of an integral value below [2^53], the parameter
      for every other value).
      [render] throws when the reduce does, as the component does.

    Two files hold no code of the program but the arguments over it.
    [Exactness.v] characterises binary64 on integers below [2^53].
    [Refinement.v] states the spec as an exact-integer ledger, [IntLedger],
    with the spec's operations as user intents, each performed by its UI
    events.  It relates the component to that ledger.  [Wellformed.v] holds
    the well-formedness invariant of reachable worlds.

    ** What the theorems show

    - Numbers: the conversions agree with the JS engine on concrete inputs
      ("3000", "abc", " ", "0x10", "1e400", 0.1 + 0.2).  [parseFloat] and
      [Number] agree on the strings the guard accepts, except blank or
      radix-prefixed ones.  The accumulation
      [totalAmount (l ++ [d])] is one float addition more than
      [totalAmount l].  Adding non-negative numbers stays non-negative.
    - Bounds: on integers of absolute value below [2^53], float [+], [-],
      [<] and [>=] are exact, and [2^53 + 1] shows the bound is tight.  An
      amount typed as decimal digits is read as exactly its value.  An
      enabled [handleSettle] from the float of [6000 * j] leaves exactly the
      float of [6000 * (j + 1)] while that is below [2^53].
    - Ledger: the functional behaviour of both handlers on every branch.  An
      invalid input enqueues nothing.  A valid one appends exactly one record
      and resets the form.  Settlement adds [6000] once or does nothing.
    - Refinement: while amounts are typed as digits and the total stays
      below [2^53], the total, the remaining amount and the settle button
      compute the exact integer values.  Both handlers step the integer
      ledger.  From the first render, every sequence of additions,
      settlements and month toggles made through its UI events while the
      read is pending keeps the component mounted and refines the integer
      ledger.  Liveness: [remaining / 6000] settle clicks settle 6000 each,
      and then the button is disabled.
    - Grouping: the object-based reduce equals a reference grouping by
      filtering.  It throws a TypeError exactly when some label names a
      property of [Object.prototype] (such as "constructor"), and whenever
      it completes its object partitions the list.  [Object.entries] of it
      lists the months in first-insertion order when no month label is an
      array index.  In en-US two valid dates share a month label exactly
      when they share year and month.  So in the object the reduce builds,
      two donations of one calendar month share a key, and a later month
      opens a new key at the end.
    - Display: on an integer remaining amount below [2^53] the label is its
      decimal digits followed by ".00".  The "Settled on" note is shown in
      every reachable world exactly when a settlement time is stored.
    - [Number::toString]: on every integer below [2^52] the reference
      algorithm prints the plain decimal digits, the direct printing the
      render and [toFixed] use; it agrees with the JS engine on sample
      values of each format.
    - Render: when the locale's month labels never name a property of
      [Object.prototype] and no document read or written by another session
      brings such a label in, the component is never unmounted and renders
      in every reachable world.  When no month label is special, the render is the
      reference view built from the reference grouping.  In every render
      the month buttons are distinct, at most one month is open, and the
      open one is the green button with the up arrow.  A month click keeps
      the component mounted and changes only the member list, opening
      the clicked month unless it was open.  A typed safe integer is
      stored exactly and printed back as the same digits.  The digit
      printer of [toFixed] terminates with the decimal representation.
    - Amount input: on a sanitised value the guard's [Number] and the stored
      [parseFloat] agree and never give NaN, so the add handler rejects
      exactly the invalid entries.  The grammar bounds no exponent: "1e400"
      is accepted as +Infinity, after which every settle click is accepted
      and the settled amount grows without bound.
      With every amount input sanitised and documents free of NaN, no
      reachable state holds a NaN donation amount.
    - Persistence: decoding an encoded ledger gives it back exactly when its
      settled amount is not NaN or -0 and its settlement time is not "".
      After a session writes to the Firestore database, a new session
      mounted on it restores exactly the persisted slots of the state the
      first session wrote.
    - Component: while the mount-time read is pending the session has
      written nothing, whatever the user did.  A hydrating read replaces the
      three persisted slots by the document's.  A read that finds no
      document keeps the local state and writes nothing.  After a read that
      fails, the ref is set all the same, and the next valid addition
      writes a document built from the local state only, replacing the
      stored one unread.  Toggling and typing never write.  The settled
      amount stays a float sum of 6000s over all reachable states.  Every
      reachable state is persistable, and each write is read back as the
      state after the event that made it.  Concrete traces show the lost-update and clobbering
      behaviours listed as findings, and two sessions on one database.

    ** Bounds and fuel

    One definition uses fuel: the digit printer [digits_fuel] of
    [toFixed] and [Number::toString] divides by 10 at each step.  The fuel
    [log2 n + 1] suffices: [n < 10^(log2 n + 1)], and every larger fuel
    gives the same digits ([integer_digits_terminates]).  Every other
    recursion is structural.  The decimal
    conversion computes with exact integers.  It only short-cuts exponents
    beyond [400] in absolute value, where the result is +-Infinity or +-0
    for every mantissa (10^401 exceeds the largest double, and 10^-400 is
    below half the smallest subnormal).  The exactness results need
    [|n| < 2^53], the safe integers of JS.  The refinement theorems carry
    "the exact total stays below [2^53]" as a hypothesis: beyond it, a
    donation of 1 can be lost ([safe_bound_tight]).

    ** Plan for the next sittings

    - The Firestore database with several documents and paths, and the
      snapshot listeners a multi-session version would need.
    - That [Number::toString] always finds at most 17 digits that
      convert back, and that its output parses back to the number.  This
      is a numerical argument about binary64 rounding that the development
      does not yet make.

    ** Not modelled

    The network protocol of Firestore, the SDK's local cache and offline
    persistence, and security rules are not modelled: the sources only call
    them.  React's development StrictMode, which runs effects twice, is not
    modelled: the production build runs them once.  Markup, CSS, the inline
    styles other than the month button's background colour, and literal
    texts are not modelled.  Neither are the characters outside Latin-1
    (the rupee sign, the emoji); the two arrows are constructors of
    [arrow].  The texts the render computes are modelled.  Neither is the [console.error] logging: a caught
    error leaves the state unchanged.

    ** Files

    [Prelude] (this file: notations, tactics, hint database, shared lemmas),
    then [JsNumber], [Exactness], [Clock], [Ledger], [Grouping],
    [Persistence], [App], [Wellformed], [Refinement], [Display],
    [NumberString], [NumberInput], [Render] and [Firestore]. *)

From Stdlib Require Export String Ascii List ZArith Bool Lia.
Export ListNotations.

Declare Scope tracker_scope.
Delimit Scope tracker_scope with tracker.

(** JS strict equality on strings. *)
Notation "a === b" := (String.eqb a b) (at level 70, no associativity) : tracker_scope.
Open Scope tracker_scope.

(** ** Results of JS code that may throw *)

Inductive js_error :=
| TypeError (msg : string).

Inductive result (A : Type) : Type :=
| Ok (a : A)
| Throw (e : js_error).
Arguments Ok {A} a.
Arguments Throw {A} e.

Notation "'let!' x ':=' c 'in' k" :=
  (match c with Ok x => k | Throw e => Throw e end)
  (at level 10, x name, c at level 100, k at level 200) : tracker_scope.

(** ** Shared automation *)

Create HintDb tracker discriminated.
Create Rewrite HintDb tracker_rw.

(** Turn the boolean tests the code makes into propositions. *)
Ltac bool_facts :=
  repeat match goal with
  | H : (_ && _)%bool = true |- _ => apply andb_prop in H as [? ?]
  | H : (_ || _)%bool = false |- _ => apply orb_false_elim in H as [? ?]
  | H : negb _ = true |- _ => apply negb_true_iff in H
  | H : negb _ = false |- _ => apply negb_false_iff in H
  | H : String.eqb _ _ = true |- _ => apply String.eqb_eq in H; subst
  | H : String.eqb _ _ = false |- _ => apply String.eqb_neq in H
  end.

(** Case analysis on the first [if] of the goal, keeping the test. *)
Ltac case_if :=
  match goal with
  | |- context [if ?b then _ else _] => let E := fresh "E" in destruct b eqn:E
  end.

(** ** Shared lemmas on lists and strings *)

Lemma fold_left_snoc {A B} (f : A -> B -> A) (l : list B) (x : B) (a : A) :
  fold_left f (l ++ [x]) a = f (fold_left f l a) x.
Proof. rewrite fold_left_app. reflexivity. Qed.

Lemma string_eqb_sym (a b : string) : (a === b) = (b === a).
Proof.
  destruct (String.eqb_spec a b); destruct (String.eqb_spec b a); congruence.
Qed.

(** Boolean membership of a string in a list. *)
Definition mem_string (s : string) (l : list string) : bool :=
  existsb (String.eqb s) l.

Lemma mem_string_In s l : mem_string s l = true <-> In s l.
Proof.
  unfold mem_string. rewrite existsb_exists. split.
  - intros [x [Hx E]]. apply String.eqb_eq in E. now subst.
  - intros H. exists s. split; [exact H | apply String.eqb_refl].
Qed.

Lemma filter_snoc {A} (p : A -> bool) (l : list A) (x : A) :
  filter p (l ++ [x]) = filter p l ++ (if p x then [x] else []).
Proof. rewrite filter_app. simpl. now destruct (p x). Qed.

Lemma forallb_rev {A} (f : A -> bool) l : forallb f (rev l) = forallb f l.
Proof.
  induction l as [|x l IH]; [reflexivity|]. cbn [rev forallb].
  rewrite forallb_app, IH. cbn. now rewrite andb_true_r, andb_comm.
Qed.

Lemma string_length_app (a b : string) :
  String.length (a ++ b) = (String.length a + String.length b)%nat.
Proof. induction a as [|c a IH]; cbn; congruence. Qed.

Lemma string_app_assoc (a b c : string) : ((a ++ b) ++ c)%string = (a ++ (b ++ c))%string.
Proof. induction a as [|x a IH]; cbn; congruence. Qed.

Lemma string_app_empty_r (a : string) : (a ++ "")%string = a.
Proof. induction a as [|x a IH]; cbn; congruence. Qed.

Lemma string_list_app (a b : string) :
  list_ascii_of_string (a ++ b) = (list_ascii_of_string a ++ list_ascii_of_string b)%list.
Proof. induction a as [|x a IH]; cbn; congruence. Qed.

(** ** Spaces in strings *)

Fixpoint has_space (s : string) : bool :=
  match s with
  | EmptyString => false
  | String c s' => Ascii.eqb c " "%char || has_space s'
  end.

Lemma has_space_app a b : has_space (a ++ b) = has_space a || has_space b.
Proof. induction a as [|c a IH]; cbn; [reflexivity|]. rewrite IH, orb_assoc. reflexivity. Qed.

(** The parts before and after the first space. *)
Fixpoint split_space (s : string) : option (string * string) :=
  match s with
  | EmptyString => None
  | String c s' =>
      if Ascii.eqb c " "%char then Some (EmptyString, s')
      else option_map (fun p => (String c (fst p), snd p)) (split_space s')
  end.

Lemma split_space_app a b :
  has_space a = false -> split_space (a ++ String " "%char b) = Some (a, b).
Proof.
  induction a as [|c a IH]; intros H; [reflexivity|]. cbn in H |- *.
  apply orb_false_elim in H as [Hc Ha]. rewrite Hc, IH by exact Ha. reflexivity.
Qed.

#[export] Hint Resolve String.eqb_refl : tracker.
#[export] Hint Rewrite @fold_left_snoc @filter_snoc @length_app : tracker_rw.

Lemma filter_all_true {A} (p : A -> bool) (l : list A) :
  (forall x, In x l -> p x = true) -> filter p l = l.
Proof.
  induction l as [|x l IH]; intros H; simpl; [reflexivity|].
  rewrite (H x (or_introl eq_refl)), IH; auto with datatypes.
Qed.

Lemma filter_all_false {A} (p : A -> bool) (l : list A) :
  (forall x, In x l -> p x = false) -> filter p l = [].
Proof.
  induction l as [|x l IH]; intros H; simpl; [reflexivity|].
  rewrite (H x (or_introl eq_refl)), IH; auto with datatypes.
Qed.
