(* ===== verification/JsNumber.v ===== *)
(** * JavaScript numbers and the string-to-number conversions

    The [number] type of JS is IEEE-754 binary64.  It is modelled by the
    Standard Library's executable [SpecFloat] at precision 53 and maximal
    exponent 1024.  The file holds the operators the component applies to
    numbers ([+], [-], [>=], [<], truthiness, [Object.is]).  It also holds the
    two conversions of the amount text in [handleAddDonation]: [Number(s)],
    which [isNaN(amount)] applies (App.js line 59), and [parseFloat(amount)]
    (line 69).  Both follow ECMAScript: StringToNumber with the
    StringNumericLiteral grammar, and parseFloat with the longest
    StrDecimalLiteral prefix.  The decimal value is rounded to nearest-even. *)

From S2P Require Import Prelude.
From Stdlib Require Import SpecFloat.

Open Scope Z_scope.

(** ** Binary64 *)

Definition prec : Z := 53.
Definition emax : Z := 1024.

Abbreviation number := spec_float.

Definition NaN : number := S754_nan.

(** The value of an integer literal such as [0] or [6000]. *)
Definition of_Z (z : Z) : number := binary_normalize prec emax z 0 false.

(** [x + y] and [x - y] on numbers. *)
Definition js_add (x y : number) : number := SFadd prec emax x y.
Definition js_sub (x y : number) : number := SFsub prec emax x y.

(** [x < y]: IsLessThan, where an undefined comparison (a NaN) is false. *)
Definition js_lt (x y : number) : bool := SFltb x y.

(** [x >= y]: false when IsLessThan is true or undefined. *)
Definition js_ge (x y : number) : bool :=
  match SFcompare x y with
  | Some Gt | Some Eq => true
  | _ => false
  end.

Definition is_nan (x : number) : bool :=
  match x with S754_nan => true | _ => false end.

(** ToBoolean on a number: false exactly on +0, -0 and NaN. *)
Definition num_truthy (x : number) : bool :=
  match x with
  | S754_nan | S754_zero _ => false
  | _ => true
  end.

(** [Object.is] (SameValue): NaN is itself, +0 and -0 differ.  On the
    canonical representations that rounding produces this is structural
    equality. *)
Definition object_is (x y : number) : bool :=
  match x, y with
  | S754_nan, S754_nan => true
  | S754_zero s1, S754_zero s2 => Bool.eqb s1 s2
  | S754_infinity s1, S754_infinity s2 => Bool.eqb s1 s2
  | S754_finite s1 m1 e1, S754_finite s2 m2 e2 =>
      Bool.eqb s1 s2 && Pos.eqb m1 m2 && Z.eqb e1 e2
  | _, _ => false
  end.

(** A number that is +0, a positive finite value or +Infinity. *)
Definition nonneg (x : number) : bool :=
  match x with
  | S754_zero false | S754_finite false _ _ | S754_infinity false => true
  | _ => false
  end.

(** ** Correctly rounded decimal values *)

(** The number nearest to [(-1)^neg * m * 10^e], ties to even, for [m >= 0].
    When [m * 10^e >= 10^401] the result is Infinity.  When
    [m * 10^e < 2^-1076] it is a zero, and [2^-1076] is below half the
    smallest subnormal.  Both short-cuts only avoid computing huge powers of
    ten ([m < 2^(log2 m + 1)] and [10^e < 2^(3e)] for [e < 0]). *)
Definition round_decimal (neg : bool) (m e : Z) : number :=
  if m =? 0 then S754_zero neg
  else if 400 <? e then S754_infinity neg
  else if 0 <=? e then binary_normalize prec emax (cond_Zopp neg (m * 10 ^ e)) 0 neg
  else if Z.log2 m + 1 + 3 * e <=? -1076 then S754_zero neg
  else
    let '(mz, ez, lz) := SFdiv_core_binary prec emax m 0 (10 ^ (- e)) 0 in
    binary_round_aux prec emax neg mz ez lz.

(** ** Scanning the numeric grammars *)

(** StrWhiteSpaceChar: WhiteSpace and LineTerminator, below code unit 256. *)
Definition is_js_space (c : ascii) : bool :=
  match nat_of_ascii c with
  | 9 | 10 | 11 | 12 | 13 | 32 | 160 => true
  | _ => false
  end%nat.

Fixpoint trim_start (s : string) : string :=
  match s with
  | String c s' => if is_js_space c then trim_start s' else s
  | EmptyString => EmptyString
  end.

Definition string_rev (s : string) : string :=
  string_of_list_ascii (rev (list_ascii_of_string s)).

(** TrimString with both ends. *)
Definition trim (s : string) : string :=
  string_rev (trim_start (string_rev (trim_start s))).

(** The value of a digit in radix [r] (at most 16), letters in either case. *)
Definition radix_digit (r : Z) (c : ascii) : option Z :=
  let n := Z.of_nat (nat_of_ascii c) in
  let v :=
    if (48 <=? n) && (n <=? 57) then n - 48
    else if (97 <=? n) && (n <=? 102) then n - 87
    else if (65 <=? n) && (n <=? 70) then n - 55
    else 16 in
  if v <? r then Some v else None.

(** The longest run of digits: its value added to [acc * r^count], its
    length, and the rest of the string. *)
Fixpoint scan_digits (r : Z) (s : string) (acc : Z) (n : nat) : Z * nat * string :=
  match s with
  | String c s' =>
      match radix_digit r c with
      | Some d => scan_digits r s' (acc * r + d) (S n)
      | None => (acc, n, s)
      end
  | EmptyString => (acc, n, EmptyString)
  end.

(** ExponentPart, [e] or [E] then a SignedInteger.  When it is not well
    formed nothing is consumed and the exponent is 0. *)
Definition scan_exponent (s : string) : Z * string :=
  match s with
  | String c s1 =>
      if Ascii.eqb c "e"%char || Ascii.eqb c "E"%char then
        let '(neg, s2) :=
          match s1 with
          | String "+"%char s' => (false, s')
          | String "-"%char s' => (true, s')
          | _ => (false, s1)
          end in
        let '(v, n, s3) := scan_digits 10 s2 0 0 in
        if (n =? 0)%nat then (0, s) else (if neg then - v else v, s3)
      else (0, s)
  | EmptyString => (0, s)
  end.

(** StrUnsignedDecimalLiteral: [Infinity], or a decimal mantissa [m] with a
    power of ten [e]. *)
Inductive unsigned_literal :=
| ULInfinity
| ULDecimal (m e : Z).

Definition infinity_word : string := "Infinity".

Definition after_dot (s : string) : option string :=
  match s with
  | String "."%char s' => Some s'
  | _ => None
  end.

(** The longest prefix of [s] in StrUnsignedDecimalLiteral, if any. *)
Definition scan_unsigned (s : string) : option (unsigned_literal * string) :=
  if String.prefix infinity_word s then
    Some (ULInfinity, substring 8 (String.length s - 8) s)
  else
    let '(iv, ni, s1) := scan_digits 10 s 0 0 in
    match after_dot s1 with
    | Some s1' =>
        let '(m, nf, s2) := scan_digits 10 s1' iv 0 in
        if (ni + nf =? 0)%nat then None
        else let '(e, s3) := scan_exponent s2 in Some (ULDecimal m (e - Z.of_nat nf), s3)
    | None =>
        if (ni =? 0)%nat then None
        else let '(e, s2) := scan_exponent s1 in Some (ULDecimal iv e, s2)
    end.

(** The longest prefix in StrDecimalLiteral: an optional sign first. *)
Definition scan_decimal (s : string) : option (bool * unsigned_literal * string) :=
  let '(neg, body) :=
    match s with
    | String "+"%char s' => (false, s')
    | String "-"%char s' => (true, s')
    | _ => (false, s)
    end in
  match scan_unsigned body with
  | Some (u, rest) => Some (neg, u, rest)
  | None => None
  end.

Definition literal_value (neg : bool) (u : unsigned_literal) : number :=
  match u with
  | ULInfinity => S754_infinity neg
  | ULDecimal m e => round_decimal neg m e
  end.

(** NonDecimalIntegerLiteral ([0x], [0o], [0b] in either case) when it is the
    whole string. *)
Definition non_decimal_value (s : string) : option number :=
  match s with
  | String "0"%char (String c rest) =>
      let r := if Ascii.eqb c "x"%char || Ascii.eqb c "X"%char then 16
               else if Ascii.eqb c "o"%char || Ascii.eqb c "O"%char then 8
               else if Ascii.eqb c "b"%char || Ascii.eqb c "B"%char then 2
               else 0 in
      if r =? 0 then None
      else match scan_digits r rest 0 0 with
           | (v, S _, EmptyString) => Some (of_Z v)
           | _ => None
           end
  | _ => None
  end.

(** StringToNumber, the conversion [Number(s)] and [isNaN(s)] apply. *)
Definition StringToNumber (s : string) : number :=
  match trim s with
  | EmptyString => of_Z 0
  | t =>
      match non_decimal_value t with
      | Some v => v
      | None =>
          match scan_decimal t with
          | Some (neg, u, EmptyString) => literal_value neg u
          | _ => NaN
          end
      end
  end.

(** [isNaN(s)] on a string argument. *)
Definition isNaN (s : string) : bool := is_nan (StringToNumber s).

(** [parseFloat(s)]: the longest StrDecimalLiteral prefix after leading
    whitespace, NaN when there is none. *)
Definition parseFloat (s : string) : number :=
  match scan_decimal (trim_start s) with
  | Some (neg, u, _) => literal_value neg u
  | None => NaN
  end.

(** ** Sign of rounded results *)

Section Rounding.

Let nonneg_m (r : shr_record) : Prop := 0 <= shr_m r.

Lemma shr_1_nonneg r : nonneg_m r -> nonneg_m (shr_1 r).
Proof.
  unfold nonneg_m. destruct r as [[|[p|p|]|p] rb sb]; simpl; lia.
Qed.

Lemma iter_shr_1_nonneg p : forall r, nonneg_m r -> nonneg_m (iter_pos shr_1 p r).
Proof.
  induction p as [p IH|p IH|]; intros r Hr; simpl;
    auto using shr_1_nonneg.
Qed.

Lemma shr_fexp_nonneg m e l :
  0 <= m -> 0 <= shr_m (fst (shr_fexp prec emax m e l)).
Proof.
  intros Hm. unfold shr_fexp, shr.
  destruct (fexp prec emax (Zdigits2 m + e) - e) as [|p|p]; simpl;
    try (destruct l as [|[]]; exact Hm).
  apply iter_shr_1_nonneg. destruct l as [|[]]; exact Hm.
Qed.

Lemma round_nearest_even_nonneg mx lx : 0 <= mx -> 0 <= round_nearest_even mx lx.
Proof.
  intros H. destruct lx as [|[]]; simpl; try lia.
  destruct (Z.even mx); lia.
Qed.

(** Rounding a non-negative mantissa never gives NaN and keeps the sign. *)
Lemma binary_round_aux_sign sx mx ex lx :
  0 <= mx ->
  match binary_round_aux prec emax sx mx ex lx with
  | S754_zero s | S754_infinity s | S754_finite s _ _ => s = sx
  | S754_nan => False
  end.
Proof.
  intros Hm. unfold binary_round_aux.
  pose proof (shr_fexp_nonneg mx ex lx Hm) as H1.
  destruct (shr_fexp prec emax mx ex lx) as [mrs' e'] eqn:E1. simpl in H1.
  pose proof (shr_fexp_nonneg (round_nearest_even (shr_m mrs') (loc_of_shr_record mrs')) e'
                loc_Exact (round_nearest_even_nonneg _ _ H1)) as H2.
  destruct (shr_fexp prec emax _ e' loc_Exact) as [mrs'' e''] eqn:E2. simpl in H2.
  destruct (shr_m mrs'') as [|m|m]; [reflexivity| |lia].
  destruct (e'' <=? emax - prec); reflexivity.
Qed.

End Rounding.

Lemma binary_round_sign sx m e :
  match binary_round prec emax sx m e with
  | S754_zero s | S754_infinity s | S754_finite s _ _ => s = sx
  | S754_nan => False
  end.
Proof.
  unfold binary_round.
  destruct (shl_align m e _) as [mz ez].
  apply binary_round_aux_sign. lia.
Qed.

(** The sum of two non-negative numbers is non-negative: never NaN, never
    negative. *)
Lemma js_add_nonneg x y :
  nonneg x = true -> nonneg y = true -> nonneg (js_add x y) = true.
Proof.
  destruct x as [[]|[]| |[] mx ex]; destruct y as [[]|[]| |[] my ey];
    simpl; try discriminate; intros _ _; try reflexivity.
  unfold js_add, SFadd, binary_normalize. simpl.
  match goal with |- context [binary_round prec emax false ?m ?e] =>
    pose proof (binary_round_sign false m e) as H;
    destruct (binary_round prec emax false m e) as [s|s| |s m' e'];
    subst; easy end.
Qed.

#[export] Hint Resolve js_add_nonneg : tracker.

(** A non-negative number is falsy only when it is +0. *)
Lemma nonneg_falsy x :
  nonneg x = true -> num_truthy x = false -> x = of_Z 0.
Proof. destruct x as [[]|[]| |[] m e]; easy. Qed.

Lemma object_is_eq x y : object_is x y = true <-> x = y.
Proof.
  split.
  - destruct x as [s1|s1| |s1 m1 e1]; destruct y as [s2|s2| |s2 m2 e2];
      simpl; try discriminate; intros H; bool_facts;
      repeat match goal with
      | H : Bool.eqb _ _ = true |- _ => apply eqb_prop in H
      | H : Pos.eqb _ _ = true |- _ => apply Pos.eqb_eq in H
      | H : Z.eqb _ _ = true |- _ => apply Z.eqb_eq in H
      end; subst; reflexivity.
  - intros <-. destruct x as [s|s| |s m e]; simpl;
      rewrite ?eqb_reflx, ?Pos.eqb_refl, ?Z.eqb_refl; reflexivity.
Qed.

Lemma js_ge_lt_nan x y :
  js_ge x y = false -> js_lt x y = false -> is_nan x || is_nan y = true.
Proof.
  unfold js_ge, js_lt, SFltb. intros H1 H2.
  destruct (SFcompare x y) as [[]|] eqn:E; try discriminate.
  destruct x as [s1|s1| |s1 m1 e1]; destruct y as [s2|s2| |s2 m2 e2];
    simpl in E; try discriminate; reflexivity.
Qed.

(** ** Agreement of [isNaN] and [parseFloat] *)

Lemma length_string_of_list_ascii l :
  String.length (string_of_list_ascii l) = List.length l.
Proof. induction l; simpl; congruence. Qed.

Lemma length_list_ascii_of_string s :
  List.length (list_ascii_of_string s) = String.length s.
Proof. induction s; simpl; congruence. Qed.

Lemma length_string_rev s : String.length (string_rev s) = String.length s.
Proof.
  unfold string_rev.
  now rewrite length_string_of_list_ascii, length_rev, length_list_ascii_of_string.
Qed.

Lemma trim_start_length s : (String.length (trim_start s) <= String.length s)%nat.
Proof. induction s; simpl; [lia|]. destruct (is_js_space a); simpl; lia. Qed.

Lemma trim_start_shrinks s :
  trim_start s <> s -> (String.length (trim_start s) < String.length s)%nat.
Proof.
  destruct s as [|c s]; simpl; [congruence|].
  destruct (is_js_space c); [|congruence].
  pose proof (trim_start_length s). lia.
Qed.

(** A string that [trim] leaves alone has no leading whitespace. *)
Lemma trim_fixed_start s : trim s = s -> trim_start s = s.
Proof.
  intros H. destruct (string_dec (trim_start s) s) as [E|E]; [exact E|].
  apply trim_start_shrinks in E.
  apply (f_equal String.length) in H. unfold trim in H.
  rewrite length_string_rev in H.
  pose proof (trim_start_length (string_rev (trim_start s))) as L.
  rewrite length_string_rev in L. lia.
Qed.

(** C16: [parseFloat] returns what [Number] returns on every string that is not
    empty, has no surrounding whitespace and no radix prefix, and that
    [isNaN] accepts.  So on such a string the parsed amount is never NaN. *)
Theorem parseFloat_agrees_with_Number s :
  s <> EmptyString -> trim s = s -> non_decimal_value s = None ->
  isNaN s = false -> parseFloat s = StringToNumber s.
Proof.
  intros Hne Ht Hnd Hn. unfold isNaN, StringToNumber, parseFloat in *.
  rewrite (trim_fixed_start s Ht). rewrite Ht in *.
  destruct s as [|c s']; [congruence|]. rewrite Hnd in *.
  destruct (scan_decimal (String c s')) as [[[neg u] [|c' r]]|];
    simpl in Hn; try discriminate; reflexivity.
Qed.

Lemma parseFloat_agrees_with_Number_witness :
  parseFloat "3000" = StringToNumber "3000" /\ parseFloat "3000" = of_Z 3000.
Proof.
  split; [apply parseFloat_agrees_with_Number; vm_compute; congruence|].
  vm_compute. reflexivity.
Defined.

(** The conversions on sample inputs, as a JS engine evaluates them:
    [Number("3000") = 3000], [isNaN("abc")], [Number("1e400") = Infinity],
    [parseFloat("12abc") = 12], [Number("") = 0], and
    [0.1 + 0.2 <> 0.3]. *)
Lemma conversion_samples :
  StringToNumber "3000" = of_Z 3000 /\ isNaN "abc" = true /\
  StringToNumber "1e400" = S754_infinity false /\ parseFloat "12abc" = of_Z 12 /\
  StringToNumber "" = of_Z 0 /\
  js_add (parseFloat "0.1") (parseFloat "0.2") <> parseFloat "0.3".
Proof. vm_compute. repeat split. discriminate. Qed.

(** Outside that domain the check and the parse disagree: a blank amount
    passes [isNaN] and parses to NaN, and a hexadecimal one passes and
    parses to 0. *)
Lemma isNaN_parseFloat_disagree :
  isNaN " " = false /\ is_nan (parseFloat " ") = true /\
  isNaN "0x10" = false /\ parseFloat "0x10" = of_Z 0 /\ StringToNumber "0x10" = of_Z 16.
Proof. vm_compute. repeat split. Qed.
