(* ===== verification/Exactness.v ===== *)
(** * Exact integer arithmetic in binary64

    The ledger adds and subtracts JS numbers (App.js lines 79, 80 and 84)
    and compares them with [6000] (lines 83 and 129).  This file shows
    that on safe integers, those of absolute value below [2^53]
    ([Number.MAX_SAFE_INTEGER] is [2^53 - 1]), these float operations are
    exact: [of_Z] commutes with [+], [-], [<] and [>=] as long as the
    operands and the result are safe.  It also shows that an amount typed as
    plain decimal digits ("3000") is read by [parseFloat] and [Number] as
    exactly its integer value.

    The proofs follow [SpecFloat]'s rounding step by step: a safe integer
    [n] with [d] significant bits is the float with mantissa [n * 2^(53-d)]
    and exponent [d - 53] ([int_repr]); alignment on a smaller exponent
    shifts left without loss; and the rounding of an aligned sum only
    shifts out zero bits. *)

From S2P Require Import Prelude JsNumber.
From Stdlib Require Import SpecFloat.

Open Scope Z_scope.

(** [2^53]: an integer [n] is safe when [Z.abs n < SAFE]. *)
Definition SAFE : Z := 2 ^ prec.

(** ** Significant bits *)

Lemma digits2_pos_log2 p : Zpos (digits2_pos p) = Z.log2 (Zpos p) + 1.
Proof.
  induction p as [p IH|p IH|]; [| |reflexivity]; cbn [digits2_pos];
    rewrite Pos2Z.inj_succ, IH.
  - change (Zpos p~1) with (2 * Zpos p + 1). rewrite Z.log2_succ_double; lia.
  - change (Zpos p~0) with (2 * Zpos p). rewrite Z.log2_double; lia.
Qed.

Lemma Zdigits2_log2 n : 0 < n -> Zdigits2 n = Z.log2 n + 1.
Proof. destruct n as [|p|p]; intros H; [lia| |lia]. apply digits2_pos_log2. Qed.

Lemma Zdigits2_bounds n : 0 < n -> 2 ^ (Zdigits2 n - 1) <= n < 2 ^ Zdigits2 n.
Proof.
  intros H. rewrite Zdigits2_log2 by exact H.
  replace (Z.log2 n + 1 - 1) with (Z.log2 n) by lia.
  pose proof (Z.log2_spec n H) as [A B]. rewrite Z.add_1_r. exact (conj A B).
Qed.

Lemma Zdigits2_pos n : 0 < n -> 1 <= Zdigits2 n.
Proof. intros H. rewrite Zdigits2_log2 by exact H. pose proof (Z.log2_nonneg n). lia. Qed.

Lemma Zdigits2_mul_pow2 n i : 0 < n -> 0 <= i -> Zdigits2 (n * 2 ^ i) = Zdigits2 n + i.
Proof.
  intros Hn Hi. assert (0 < 2 ^ i) by (apply Z.pow_pos_nonneg; lia).
  rewrite !Zdigits2_log2, Z.log2_mul_pow2 by nia. lia.
Qed.

Lemma Zdigits2_le_prec n : 0 < n < SAFE -> Zdigits2 n <= prec.
Proof.
  intros [H1 H2]. rewrite Zdigits2_log2 by exact H1.
  assert (Z.log2 n < prec) by (apply Z.log2_lt_pow2; [lia|exact H2]). lia.
Qed.

(** ** Shifts *)

Lemma pos_iter_xO m d : Zpos (Pos.iter xO m d) = Zpos m * 2 ^ Zpos d.
Proof.
  induction d as [|d IH] using Pos.peano_ind; [cbn; lia|].
  rewrite Pos.iter_succ, Pos2Z.inj_succ, Z.pow_succ_r by lia.
  change (Zpos (Pos.iter xO m d)~0) with (2 * Zpos (Pos.iter xO m d)). rewrite IH. lia.
Qed.

Lemma pow2_double p : 2 ^ Zpos p~0 = 2 ^ Zpos p * 2 ^ Zpos p.
Proof. rewrite <- Z.pow_add_r by lia. f_equal. lia. Qed.

Lemma pow2_double_succ p : 2 ^ Zpos p~1 = 2 ^ Zpos p * 2 ^ Zpos p * 2.
Proof.
  replace (Zpos p~1) with (Zpos p + Zpos p + 1) by lia.
  rewrite !Z.pow_add_r by lia. reflexivity.
Qed.

Definition exact_shr (m : Z) : shr_record := {| shr_m := m; shr_r := false; shr_s := false |}.

Lemma shr_1_double y : 0 <= y -> shr_1 (exact_shr (y * 2)) = exact_shr y.
Proof. rewrite Z.mul_comm. destruct y as [|p|p]; intros H; [reflexivity|reflexivity|lia]. Qed.

Lemma iter_shr_1_exact p : forall y, 0 <= y ->
  iter_pos shr_1 p (exact_shr (y * 2 ^ Zpos p)) = exact_shr y.
Proof.
  induction p as [p IH|p IH|]; intros y Hy; cbn [iter_pos].
  - assert (0 < 2 ^ Zpos p) by lia.
    rewrite pow2_double_succ, !Z.mul_assoc.
    rewrite shr_1_double, IH, IH by nia. reflexivity.
  - assert (0 < 2 ^ Zpos p) by lia.
    rewrite pow2_double, Z.mul_assoc, IH, IH by nia. reflexivity.
  - apply shr_1_double, Hy.
Qed.

(** ** Rounding an exactly representable value *)

Lemma fexp_normal e : emin prec emax <= e -> fexp prec emax (prec + e) = e.
Proof. unfold fexp, emin, prec, emax. lia. Qed.

Lemma round_aux_exact s X e i :
  0 < X -> Zdigits2 X = prec -> emin prec emax <= e <= emax - prec -> 0 <= i ->
  binary_round_aux prec emax s (X * 2 ^ i) (e - i) loc_Exact = S754_finite s (Z.to_pos X) e.
Proof.
  intros HX HD He Hi. unfold binary_round_aux, shr_fexp.
  rewrite Zdigits2_mul_pow2, HD by lia.
  replace (prec + i + (e - i)) with (prec + e) by lia.
  rewrite fexp_normal by lia. replace (e - (e - i)) with i by lia.
  change (shr_record_of_loc (X * 2 ^ i) loc_Exact) with (exact_shr (X * 2 ^ i)).
  assert (shr (exact_shr (X * 2 ^ i)) (e - i) i = (exact_shr X, e)) as ->.
  { destruct i as [|p|p]; [now rewrite Z.mul_1_r, Z.sub_0_r | | lia].
    unfold shr. rewrite iter_shr_1_exact by lia. f_equal. lia. }
  cbn [shr_m exact_shr loc_of_shr_record round_nearest_even shr_record_of_loc].
  rewrite HD, fexp_normal, Z.sub_diag by lia. cbn [shr shr_m].
  destruct X as [|x|x]; try lia. cbn [Z.to_pos].
  replace (e <=? emax - prec) with true by (symmetry; apply Z.leb_le; lia). reflexivity.
Qed.

(** The binary64 value of a nonzero safe integer [n] of sign [s]: its [d]
    significant bits shifted to a 53-bit mantissa, exponent [d - 53]. *)
Definition int_exp (n : Z) : Z := Zdigits2 n - prec.
Definition int_mant (n : Z) : positive := Z.to_pos (n * 2 ^ (prec - Zdigits2 n)).
Definition int_repr (s : bool) (n : Z) : number := S754_finite s (int_mant n) (int_exp n).

Lemma round_aux_int s n i : 0 < n < SAFE -> 0 <= i ->
  binary_round_aux prec emax s (n * 2 ^ (prec - Zdigits2 n + i)) (Zdigits2 n - prec - i) loc_Exact
  = int_repr s n.
Proof.
  intros Hn Hi. pose proof (Zdigits2_le_prec n Hn). pose proof (Zdigits2_pos n (proj1 Hn)).
  rewrite Z.pow_add_r, Z.mul_assoc by lia. apply round_aux_exact; try lia.
  - rewrite Zdigits2_mul_pow2 by lia. lia.
  - unfold emin, prec, emax in *. lia.
Qed.

Lemma binary_round_int s n k : 0 < n < SAFE -> 0 <= k ->
  binary_round prec emax s (Z.to_pos (n * 2 ^ k)) (- k) = int_repr s n.
Proof.
  intros Hn Hk. pose proof (Zdigits2_le_prec n Hn). pose proof (Zdigits2_pos n (proj1 Hn)).
  assert (0 < 2 ^ k) by (apply Z.pow_pos_nonneg; lia).
  unfold binary_round.
  replace (Zpos (digits2_pos (Z.to_pos (n * 2 ^ k)))) with (Zdigits2 (n * 2 ^ k))
    by (rewrite <- (Z2Pos.id (n * 2 ^ k)) at 1 by nia; reflexivity).
  rewrite Zdigits2_mul_pow2 by lia.
  replace (Zdigits2 n + k + - k) with (prec + (Zdigits2 n - prec)) by lia.
  rewrite fexp_normal by (unfold emin, prec, emax in *; lia).
  unfold shl_align. destruct (Zdigits2 n - prec - - k) as [|p|p] eqn:E.
  - rewrite <- (round_aux_int s n 0) by lia.
    replace (prec - Zdigits2 n + 0) with k by lia. rewrite Z2Pos.id by nia. f_equal. lia.
  - rewrite <- (round_aux_int s n (Zpos p)) by lia.
    replace (prec - Zdigits2 n + Zpos p) with k by lia. rewrite Z2Pos.id by nia. f_equal. lia.
  - rewrite <- (round_aux_int s n 0) by lia.
    rewrite pos_iter_xO, Z2Pos.id, <- Z.mul_assoc, <- Z.pow_add_r by nia.
    replace (prec - Zdigits2 n + 0) with (k + Zpos p) by lia. f_equal. lia.
Qed.

(** ** Safe integers as floats *)

Lemma of_Z_int n : 0 < Z.abs n < SAFE -> of_Z n = int_repr (n <? 0) (Z.abs n).
Proof.
  intros H. unfold of_Z, binary_normalize.
  destruct n as [|p|p]; [lia| |]; cbn [Z.abs Z.ltb Z.compare] in *;
    rewrite <- (binary_round_int _ (Zpos p) 0), Z.mul_1_r by lia; reflexivity.
Qed.

Lemma binary_normalize_int n k : Z.abs n < SAFE -> 0 <= k ->
  binary_normalize prec emax (n * 2 ^ k) (- k) false = of_Z n.
Proof.
  intros Hn Hk. assert (0 < 2 ^ k) by (apply Z.pow_pos_nonneg; lia).
  destruct n as [|p|p]; [reflexivity| |].
  - rewrite (of_Z_int (Zpos p)) by lia. cbn [Z.abs Z.ltb Z.compare].
    rewrite <- (binary_round_int false (Zpos p) k) by lia.
    rewrite <- (Z2Pos.id (Zpos p * 2 ^ k)) at 1 by nia. reflexivity.
  - rewrite (of_Z_int (Zneg p)) by lia. cbn [Z.abs Z.ltb Z.compare].
    rewrite <- (binary_round_int true (Zpos p) k) by lia.
    replace (Zneg p * 2 ^ k) with (Z.opp (Zpos (Z.to_pos (Zpos p * 2 ^ k)))) by (rewrite Z2Pos.id; lia).
    reflexivity.
Qed.

(** Aligning the value of a safe integer on a smaller exponent [ez]. *)
Lemma shl_align_int n ez : 0 < Z.abs n < SAFE -> ez <= int_exp (Z.abs n) ->
  cond_Zopp (n <? 0) (Zpos (fst (shl_align (int_mant (Z.abs n)) (int_exp (Z.abs n)) ez)))
  = n * 2 ^ (- ez).
Proof.
  intros Hn He. unfold int_exp, int_mant in *.
  pose proof (Zdigits2_le_prec _ Hn). pose proof (Zdigits2_pos _ (proj1 Hn)).
  assert (0 < 2 ^ (prec - Zdigits2 (Z.abs n))) by (apply Z.pow_pos_nonneg; lia).
  assert (Zpos (fst (shl_align (Z.to_pos (Z.abs n * 2 ^ (prec - Zdigits2 (Z.abs n))))
            (Zdigits2 (Z.abs n) - prec) ez)) = Z.abs n * 2 ^ (- ez)) as ->.
  { unfold shl_align. destruct (ez - (Zdigits2 (Z.abs n) - prec)) as [|p|p] eqn:E;
      cbn [fst]; [|lia|rewrite pos_iter_xO]; rewrite Z2Pos.id by nia;
      [|rewrite <- Z.mul_assoc, <- Z.pow_add_r by lia]; do 2 f_equal; lia. }
  destruct n as [|p|p]; cbn [Z.abs Z.ltb Z.compare cond_Zopp]; [lia|reflexivity|change (Zneg p) with (- Zpos p); ring].
Qed.

Lemma int_exp_bound n : 0 < n < SAFE -> 1 - prec <= int_exp n <= 0.
Proof.
  intros H. unfold int_exp. pose proof (Zdigits2_le_prec _ H). pose proof (Zdigits2_pos _ (proj1 H)). lia.
Qed.

(** The sum or difference of two aligned safe integers rounds to the exact
    result when that is safe too. *)
Lemma aligned_int (op : Z -> Z -> Z) a b :
  (forall x y k, op (x * 2 ^ k) (y * 2 ^ k) = op x y * 2 ^ k) ->
  0 < Z.abs a < SAFE -> 0 < Z.abs b < SAFE -> Z.abs (op a b) < SAFE ->
  let ez := Z.min (int_exp (Z.abs a)) (int_exp (Z.abs b)) in
  binary_normalize prec emax
    (op (cond_Zopp (a <? 0) (Zpos (fst (shl_align (int_mant (Z.abs a)) (int_exp (Z.abs a)) ez))))
        (cond_Zopp (b <? 0) (Zpos (fst (shl_align (int_mant (Z.abs b)) (int_exp (Z.abs b)) ez)))))
    ez false = of_Z (op a b).
Proof.
  intros Hop Ha Hb Hab ez. pose proof (int_exp_bound _ Ha). pose proof (int_exp_bound _ Hb).
  rewrite !shl_align_int, Hop by lia.
  replace ez with (- (- ez)) at 2 by lia. apply binary_normalize_int; lia.
Qed.

Lemma js_add_of_Z a b : Z.abs a < SAFE -> Z.abs b < SAFE -> Z.abs (a + b) < SAFE ->
  js_add (of_Z a) (of_Z b) = of_Z (a + b).
Proof.
  intros Ha Hb Hab.
  destruct (Z.eq_dec a 0) as [->|Ha0]; [|destruct (Z.eq_dec b 0) as [->|Hb0]].
  - destruct (Z.eq_dec b 0) as [->|Hb0]; [reflexivity|].
    rewrite Z.add_0_l, (of_Z_int b) by lia. reflexivity.
  - rewrite Z.add_0_r, (of_Z_int a) by lia. reflexivity.
  - rewrite (of_Z_int a), (of_Z_int b) by lia. unfold js_add, SFadd, int_repr.
    apply (aligned_int Z.add); [intros; ring|lia..].
Qed.

Lemma js_sub_of_Z a b : Z.abs a < SAFE -> Z.abs b < SAFE -> Z.abs (a - b) < SAFE ->
  js_sub (of_Z a) (of_Z b) = of_Z (a - b).
Proof.
  intros Ha Hb Hab.
  destruct (Z.eq_dec a 0) as [->|Ha0]; [|destruct (Z.eq_dec b 0) as [->|Hb0]].
  - destruct (Z.eq_dec b 0) as [->|Hb0]; [reflexivity|].
    rewrite Z.sub_0_l, (of_Z_int b), (of_Z_int (- b)), Z.abs_opp by lia.
    unfold int_repr. cbn. do 2 f_equal. destruct b; [lia|reflexivity|reflexivity].
  - rewrite Z.sub_0_r, (of_Z_int a) by lia. reflexivity.
  - rewrite (of_Z_int a), (of_Z_int b) by lia. unfold js_sub, SFsub, int_repr.
    apply (aligned_int Z.sub); [intros; ring|lia..].
Qed.

(** Comparing the representations of two positive safe integers: first by
    exponent, then by mantissa, as [SFcompare] does. *)
Lemma int_repr_compare x y : 0 < x < SAFE -> 0 < y < SAFE ->
  match Z.compare (int_exp x) (int_exp y) with
  | Lt => Lt | Gt => Gt | Eq => Pos.compare_cont Eq (int_mant x) (int_mant y)
  end = Z.compare x y.
Proof.
  intros Hx Hy. pose proof (Zdigits2_bounds _ (proj1 Hx)). pose proof (Zdigits2_bounds _ (proj1 Hy)).
  pose proof (Zdigits2_pos _ (proj1 Hx)). pose proof (Zdigits2_pos _ (proj1 Hy)).
  pose proof (Zdigits2_le_prec _ Hx). pose proof (Zdigits2_le_prec _ Hy).
  unfold int_exp, int_mant.
  destruct (Z.compare_spec (Zdigits2 x - prec) (Zdigits2 y - prec)) as [E|E|E].
  - assert (E' : Zdigits2 x = Zdigits2 y) by lia. rewrite E'.
    change (Pos.compare_cont Eq ?p ?q) with (Z.compare (Zpos p) (Zpos q)).
    assert (0 < 2 ^ (prec - Zdigits2 y)) by (apply Z.pow_pos_nonneg; lia).
    rewrite !Z2Pos.id by nia.
    destruct (Z.compare_spec x y) as [->|C|C];
      [apply Z.compare_refl|apply Z.compare_lt_iff; nia|apply Z.compare_gt_iff; nia].
  - symmetry. apply Z.compare_lt_iff.
    assert (2 ^ Zdigits2 x <= 2 ^ (Zdigits2 y - 1)) by (apply Z.pow_le_mono_r; lia). lia.
  - symmetry. apply Z.compare_gt_iff.
    assert (2 ^ Zdigits2 y <= 2 ^ (Zdigits2 x - 1)) by (apply Z.pow_le_mono_r; lia). lia.
Qed.

Lemma SFcompare_of_Z a b : Z.abs a < SAFE -> Z.abs b < SAFE ->
  SFcompare (of_Z a) (of_Z b) = Some (Z.compare a b).
Proof.
  intros Ha Hb.
  destruct (Z.eq_dec a 0) as [->|Ha0]; destruct (Z.eq_dec b 0) as [->|Hb0];
    [reflexivity| | |]; rewrite ?(of_Z_int a), ?(of_Z_int b) by lia.
  - destruct b; [lia|reflexivity|reflexivity].
  - destruct a; [lia|reflexivity|reflexivity].
  - unfold int_repr. cbn [SFcompare]. f_equal.
    destruct a as [|pa|pa], b as [|pb|pb]; try lia; cbn [Z.abs Z.ltb Z.compare] in *.
    + apply int_repr_compare; lia.
    + reflexivity.
    + reflexivity.
    + change (Pos.compare pa pb) with (Z.compare (Zpos pa) (Zpos pb)).
      rewrite <- (int_repr_compare (Zpos pa) (Zpos pb)) by lia.
      destruct (Z.compare _ _); reflexivity.
Qed.

Lemma js_ge_of_Z a b : Z.abs a < SAFE -> Z.abs b < SAFE -> js_ge (of_Z a) (of_Z b) = (b <=? a).
Proof.
  intros Ha Hb. unfold js_ge. rewrite SFcompare_of_Z by assumption.
  destruct (Z.compare_spec a b); symmetry; apply Z.leb_le || apply Z.leb_gt; lia.
Qed.

Lemma js_lt_of_Z a b : Z.abs a < SAFE -> Z.abs b < SAFE -> js_lt (of_Z a) (of_Z b) = (a <? b).
Proof.
  intros Ha Hb. unfold js_lt, SFltb. rewrite SFcompare_of_Z by assumption.
  destruct (Z.compare_spec a b); symmetry; apply Z.ltb_lt || apply Z.ltb_ge; lia.
Qed.

(** ** Amounts typed as plain decimal digits *)

Definition is_digit (c : ascii) : bool :=
  (48 <=? nat_of_ascii c)%nat && (nat_of_ascii c <=? 57)%nat.

Fixpoint all_digits (s : string) : bool :=
  match s with
  | EmptyString => true
  | String c s' => is_digit c && all_digits s'
  end.

(** A non-empty string of ASCII digits, such as "3000" or "0500". *)
Definition digit_string (s : string) : bool :=
  negb (String.eqb s "") && all_digits s.

(** Its value in positional decimal notation (Horner's rule). *)
Fixpoint decimal_value_from (acc : Z) (s : string) : Z :=
  match s with
  | EmptyString => acc
  | String c s' => decimal_value_from (acc * 10 + (Z.of_nat (nat_of_ascii c) - 48)) s'
  end.

Definition decimal_value (s : string) : Z := decimal_value_from 0 s.

Lemma radix_digit_10 c : is_digit c = true -> radix_digit 10 c = Some (Z.of_nat (nat_of_ascii c) - 48).
Proof.
  unfold is_digit, radix_digit. intros H.
  apply andb_prop in H as [H1 H2]. apply Nat.leb_le in H1, H2.
  replace ((48 <=? Z.of_nat (nat_of_ascii c)) && (Z.of_nat (nat_of_ascii c) <=? 57)) with true
    by (symmetry; apply andb_true_intro; split; apply Z.leb_le; lia).
  replace (Z.of_nat (nat_of_ascii c) - 48 <? 10) with true by (symmetry; apply Z.ltb_lt; lia).
  reflexivity.
Qed.

Lemma scan_digits_all s : forall acc n, all_digits s = true ->
  scan_digits 10 s acc n = (decimal_value_from acc s, (n + String.length s)%nat, EmptyString).
Proof.
  induction s as [|c s IH]; intros acc n H; cbn [scan_digits all_digits String.length] in *.
  - rewrite Nat.add_0_r. reflexivity.
  - bool_facts. rewrite radix_digit_10, IH by assumption.
    cbn [decimal_value_from]. rewrite Nat.add_succ_r. reflexivity.
Qed.

Lemma decimal_value_from_nonneg s : forall acc, 0 <= acc -> all_digits s = true ->
  0 <= decimal_value_from acc s.
Proof.
  induction s as [|c s IH]; intros acc Hacc H; cbn [decimal_value_from all_digits] in *; [lia|].
  apply andb_prop in H as [Hc Hs]. apply IH; [|exact Hs].
  apply andb_prop in Hc as [H1 _]. apply Nat.leb_le in H1. lia.
Qed.

Definition decimal_digits : list ascii :=
  ["0"; "1"; "2"; "3"; "4"; "5"; "6"; "7"; "8"; "9"]%char.

Lemma digit_cases c : is_digit c = true -> In c decimal_digits.
Proof.
  destruct c as [[] [] [] [] [] [] [] []]; intros H; vm_compute in H;
    try discriminate H; cbn; tauto.
Qed.

(** Replace a digit by each of the ten concrete digits. *)
Ltac digit_case c :=
  let H := fresh in
  match goal with Hd : is_digit c = true |- _ => pose proof (digit_cases c Hd) as H end;
  repeat destruct H as [<-|H]; [..|destruct H].

Lemma round_decimal_int v : 0 <= v -> round_decimal false v 0 = of_Z v.
Proof.
  intros Hv. unfold round_decimal. destruct (Z.eqb_spec v 0) as [->|Hne]; [reflexivity|].
  cbn [Z.ltb Z.leb Z.compare cond_Zopp]. rewrite Z.mul_1_r. reflexivity.
Qed.

Lemma scan_decimal_digits s : digit_string s = true ->
  scan_decimal s = Some (false, ULDecimal (decimal_value s) 0, EmptyString).
Proof.
  destruct s as [|c s]; [discriminate|]. unfold digit_string. cbn [all_digits].
  intros H. bool_facts. unfold decimal_value.
  digit_case c; unfold scan_decimal, scan_unsigned; simpl;
    rewrite scan_digits_all by assumption; reflexivity.
Qed.

Lemma all_digits_forallb s : all_digits s = forallb is_digit (list_ascii_of_string s).
Proof. induction s as [|c s IH]; cbn; [reflexivity|]. rewrite IH. reflexivity. Qed.

Lemma string_rev_involutive s : string_rev (string_rev s) = s.
Proof.
  unfold string_rev. rewrite list_ascii_of_string_of_list_ascii, rev_involutive.
  apply string_of_list_ascii_of_string.
Qed.

Lemma digit_string_rev s : digit_string (string_rev s) = digit_string s.
Proof.
  unfold digit_string. rewrite !all_digits_forallb. unfold string_rev.
  rewrite list_ascii_of_string_of_list_ascii, forallb_rev.
  destruct s as [|c s]; [reflexivity|]. cbn [list_ascii_of_string rev].
  destruct (rev (list_ascii_of_string s)); reflexivity.
Qed.

Lemma trim_start_digits s : digit_string s = true -> trim_start s = s.
Proof.
  destruct s as [|c s]; [discriminate|]. unfold digit_string. cbn [all_digits].
  intros H. bool_facts. digit_case c; reflexivity.
Qed.

Lemma trim_digits s : digit_string s = true -> trim s = s.
Proof.
  intros H. unfold trim. rewrite (trim_start_digits s H), trim_start_digits.
  - apply string_rev_involutive.
  - rewrite digit_string_rev. exact H.
Qed.

Lemma non_decimal_digits s : digit_string s = true -> non_decimal_value s = None.
Proof.
  destruct s as [|c [|c2 s]]; [discriminate| |]; unfold digit_string; cbn [all_digits];
    intros H; bool_facts; digit_case c; try reflexivity.
  digit_case c2; reflexivity.
Qed.

Lemma of_Z_not_nan z : is_nan (of_Z z) = false.
Proof.
  unfold of_Z, binary_normalize. destruct z as [|p|p]; [reflexivity| |];
    match goal with |- context [binary_round prec emax ?s ?m ?e] =>
      pose proof (binary_round_sign s m e) as H;
      destruct (binary_round prec emax s m e); easy end.
Qed.

Lemma parseFloat_digits s : digit_string s = true -> parseFloat s = of_Z (decimal_value s).
Proof.
  intros H. unfold parseFloat. rewrite trim_start_digits, scan_decimal_digits by exact H.
  apply round_decimal_int, decimal_value_from_nonneg; [lia|].
  unfold digit_string in H. bool_facts. assumption.
Qed.

Lemma StringToNumber_digits s : digit_string s = true -> StringToNumber s = of_Z (decimal_value s).
Proof.
  intros H. unfold StringToNumber. rewrite trim_digits by exact H.
  destruct s as [|c s]; [discriminate|].
  rewrite non_decimal_digits, scan_decimal_digits by exact H.
  apply round_decimal_int, decimal_value_from_nonneg; [lia|].
  unfold digit_string in H. bool_facts. assumption.
Qed.

(** ** Claims *)

(** The bound is tight: at [2^53] an addition of 1 is lost, so a
    total of [2^53] plus a donation of 1 stays [2^53]. *)
Theorem safe_bound_tight :
  js_add (of_Z SAFE) (of_Z 1) = of_Z SAFE /\ SAFE + 1 <> SAFE.
Proof. split; [vm_compute; reflexivity | lia]. Qed.

(** C23: an amount typed as plain decimal digits passes the [isNaN] guard,
    and [parseFloat] reads it as exactly its decimal value, leading zeros
    included. *)
Theorem digit_amount_exact s :
  digit_string s = true ->
  isNaN s = false /\ parseFloat s = of_Z (decimal_value s) /\ StringToNumber s = parseFloat s.
Proof.
  intros H. unfold isNaN. rewrite StringToNumber_digits, parseFloat_digits by exact H.
  split; [apply of_Z_not_nan | split; reflexivity].
Qed.

Lemma digit_amount_exact_witness :
  isNaN "0500" = false /\ parseFloat "0500" = of_Z (decimal_value "0500") /\
  StringToNumber "0500" = parseFloat "0500".
Proof. apply digit_amount_exact. reflexivity. Defined.
