(* ===== verification/Clock.v ===== *)
(** * The clock and the locale formatter

    [handleAddDonation] (App.js lines 61-72) and [handleSettle] (line 87)
    read the wall clock with [new Date()] and render it with
    [toLocaleString].  A [date] is the broken-down local time, given to the
    handlers as an event parameter.  The class [LocaleFormat] holds the two
    renderings the code asks for.  [en_US] is the en-US instance, and
    [LocaleFormatLaws] states what grouping by month relies on: the month
    label depends on the year and the month only. *)

From S2P Require Import Prelude.
From Stdlib Require Import DecimalString DecimalZ.

Open Scope string_scope.
Open Scope Z_scope.

(** Local time as [Date]'s getters report it ([getMonth] counts from 0). *)
Record date := {
  year : Z;
  month_index : Z;
  day : Z;
  hours : Z;
  minutes : Z;
  seconds : Z;
}.

(** [getMonth()] is between 0 and 11. *)
Definition valid_date (d : date) : Prop := 0 <= month_index d <= 11.

Class LocaleFormat := {
  (** [now.toLocaleString()] *)
  format_datetime : date -> string;
  (** [now.toLocaleString("default", { month: "long", year: "numeric" })] *)
  format_month_year : date -> string;
}.

Class LocaleFormatLaws (L : LocaleFormat) := {
  month_label_congr d1 d2 :
    year d1 = year d2 -> month_index d1 = month_index d2 ->
    format_month_year d1 = format_month_year d2;
  (** A rendered time is never the empty string, so [lastSettledAt] is
      truthy once set. *)
  datetime_nonempty d : format_datetime d <> "";
  (** Different calendar months get different labels. *)
  month_label_inj d1 d2 :
    valid_date d1 -> valid_date d2 -> format_month_year d1 = format_month_year d2 ->
    year d1 = year d2 /\ month_index d1 = month_index d2;
}.

(** ** The en-US locale *)

Definition decimal (z : Z) : string := NilZero.string_of_int (Z.to_int z).

Definition two_digits (z : Z) : string :=
  if z <? 10 then "0" ++ decimal z else decimal z.

Definition month_names : list string :=
  ["January"; "February"; "March"; "April"; "May"; "June"; "July";
   "August"; "September"; "October"; "November"; "December"].

Definition month_name (m : Z) : string := nth (Z.to_nat m) month_names "".

(** "November 2026". *)
Definition en_US_month_year (d : date) : string :=
  month_name (month_index d) ++ " " ++ decimal (year d).

(** "11/9/2026, 1:53:00 AM": the month, day and year, then the 12-hour clock.
    Older ICU releases separate "AM" with a space; newer ones use U+202F,
    which is outside the code units modelled here. *)
Definition en_US_datetime (d : date) : string :=
  let h := hours d mod 12 in
  decimal (month_index d + 1) ++ "/" ++ decimal (day d) ++ "/" ++ decimal (year d) ++
  ", " ++ decimal (if h =? 0 then 12 else h) ++ ":" ++ two_digits (minutes d) ++
  ":" ++ two_digits (seconds d) ++ (if hours d <? 12 then " AM" else " PM").

#[export] Instance en_US : LocaleFormat := {
  format_datetime := en_US_datetime;
  format_month_year := en_US_month_year;
}.

Lemma append_sep_nonempty a c b : a ++ String c b <> "".
Proof. destruct a; discriminate. Qed.

(** Decimal printing is injective: [Z.of_int] parses it back. *)
Lemma decimal_inj z1 z2 : decimal z1 = decimal z2 -> z1 = z2.
Proof.
  unfold decimal. intros H.
  assert (N : forall z, Z.to_int z <> Decimal.Pos Decimal.Nil /\ Z.to_int z <> Decimal.Neg Decimal.Nil).
  { intros z. split; intros E; pose proof (of_to z) as F; rewrite E in F; cbn in F;
      subst z; discriminate E. }
  rewrite <- (of_to z1), <- (of_to z2). f_equal.
  apply (f_equal NilZero.int_of_string) in H.
  rewrite !NilZero.isi in H by apply N. congruence.
Qed.

Lemma month_name_inj m1 m2 :
  0 <= m1 <= 11 -> 0 <= m2 <= 11 -> month_name m1 = month_name m2 -> m1 = m2.
Proof.
  intros H1 H2 E. unfold month_name in E.
  assert (Hnd : NoDup month_names) by (repeat constructor; cbn; intuition discriminate).
  apply (proj1 (NoDup_nth month_names "") Hnd) in E; cbn [length month_names]; lia.
Qed.

Lemma month_name_no_space m : has_space (month_name m) = false.
Proof.
  unfold month_name. destruct (Nat.lt_ge_cases (Z.to_nat m) 12) as [H|H].
  - assert (Hs : forallb (fun n => negb (has_space n)) month_names = true) by reflexivity.
    rewrite forallb_forall in Hs. apply negb_true_iff, Hs, nth_In. exact H.
  - rewrite nth_overflow by (cbn; lia). reflexivity.
Qed.

Lemma en_US_month_year_inj d1 d2 :
  valid_date d1 -> valid_date d2 -> en_US_month_year d1 = en_US_month_year d2 ->
  year d1 = year d2 /\ month_index d1 = month_index d2.
Proof.
  unfold en_US_month_year, valid_date. intros H1 H2 E.
  apply (f_equal split_space) in E. cbn [append] in E.
  rewrite !split_space_app in E by apply month_name_no_space.
  injection E as Em Ey. split; [now apply decimal_inj | now apply month_name_inj].
Qed.

#[export] Instance en_US_laws : LocaleFormatLaws en_US.
Proof.
  constructor.
  - intros d1 d2 Hy Hm. simpl. unfold en_US_month_year. now rewrite Hy, Hm.
  - intros d. simpl. unfold en_US_datetime. apply append_sep_nonempty.
  - apply en_US_month_year_inj.
Qed.

(** C33: in en-US, two valid dates get the same month label exactly when
    they fall in the same calendar month of the same year: grouping by the
    label groups by calendar month. *)
Theorem en_US_month_label_calendar d1 d2 :
  valid_date d1 -> valid_date d2 ->
  en_US_month_year d1 = en_US_month_year d2 <-> year d1 = year d2 /\ month_index d1 = month_index d2.
Proof.
  intros H1 H2. split; [now apply en_US_month_year_inj|].
  intros [Hy Hm]. unfold en_US_month_year. now rewrite Hy, Hm.
Qed.

Lemma en_US_month_label_calendar_witness :
  let nov9 := {| year := 2026; month_index := 10; day := 9; hours := 1; minutes := 53; seconds := 0 |} in
  let dec1 := {| year := 2026; month_index := 11; day := 1; hours := 9; minutes := 0; seconds := 0 |} in
  en_US_month_year nov9 = en_US_month_year dec1 <-> year nov9 = year dec1 /\ month_index nov9 = month_index dec1.
Proof. apply en_US_month_label_calendar; unfold valid_date; cbn; lia. Defined.

Example en_US_sample :
  let d := {| year := 2026; month_index := 10; day := 9; hours := 1; minutes := 53; seconds := 0 |} in
  format_month_year d = "November 2026" /\ format_datetime d = "11/9/2026, 1:53:00 AM".
Proof. split; reflexivity. Qed.
