(* ===== verification/Ledger.v ===== *)
(** * The ledger: donations, totals and the two handlers

    The component's six [useState] slots (App.js lines 7-12) form the record
    [state].  A handler does not change the state itself.  It calls setters,
    and React queues these calls and applies them in order before the next
    render.  So a handler is modelled as the list of [update]s it enqueues,
    and [apply_updates] is React's processing of that queue.  The file holds
    [totalAmount] (line 79), [remaining] (line 80), [handleAddDonation]
    (lines 58-77), [handleSettle] (lines 82-89) and the [disabled] test of
    the settle button (line 129). *)

From S2P Require Import Prelude JsNumber Exactness Clock.

Open Scope string_scope.

(** The record built at lines 67-72 and stored in the document. *)
Module Donation.
Record t := {
  name : string;
  amount : number;
  timestamp : string;
  month : string;
}.
End Donation.
Abbreviation donation := Donation.t.

(** The state slots, [null] being [None]. *)
Record state := {
  donations : list donation;
  settledAmount : number;
  lastSettledAt : option string;
  name : string;
  amount : string;
  expandedMonth : option string;
}.

(** [useState] initial values. *)
Definition initial_state : state := {|
  donations := [];
  settledAmount := of_Z 0;
  lastSettledAt := None;
  name := "";
  amount := "";
  expandedMonth := None;
|}.

(** A call of a setter: with a value, or with an updater function of the
    previous value. *)
Inductive update :=
| setDonations (f : list donation -> list donation)
| setSettledAmount (x : number)
| setLastSettledAt (x : option string)
| setName (s : string)
| setAmount (s : string)
| setExpandedMonth (f : option string -> option string).

Definition apply_update (st : state) (u : update) : state :=
  match u with
  | setDonations f =>
      {| donations := f (donations st); settledAmount := settledAmount st;
         lastSettledAt := lastSettledAt st; name := name st; amount := amount st;
         expandedMonth := expandedMonth st |}
  | setSettledAmount x =>
      {| donations := donations st; settledAmount := x;
         lastSettledAt := lastSettledAt st; name := name st; amount := amount st;
         expandedMonth := expandedMonth st |}
  | setLastSettledAt x =>
      {| donations := donations st; settledAmount := settledAmount st;
         lastSettledAt := x; name := name st; amount := amount st;
         expandedMonth := expandedMonth st |}
  | setName s =>
      {| donations := donations st; settledAmount := settledAmount st;
         lastSettledAt := lastSettledAt st; name := s; amount := amount st;
         expandedMonth := expandedMonth st |}
  | setAmount s =>
      {| donations := donations st; settledAmount := settledAmount st;
         lastSettledAt := lastSettledAt st; name := name st; amount := s;
         expandedMonth := expandedMonth st |}
  | setExpandedMonth f =>
      {| donations := donations st; settledAmount := settledAmount st;
         lastSettledAt := lastSettledAt st; name := name st; amount := amount st;
         expandedMonth := f (expandedMonth st) |}
  end.

(** React applies the queued updates in the order they were enqueued. *)
Definition apply_updates (st : state) (us : list update) : state :=
  fold_left apply_update us st.

(** ** Derived values of a render *)

Definition SETTLE_AMOUNT : number := of_Z 6000.

(** [donations.reduce((sum, entry) => sum + entry.amount, 0)] *)
Definition totalAmount (ds : list donation) : number :=
  fold_left (fun sum entry => js_add sum (Donation.amount entry)) ds (of_Z 0).

(** [totalAmount - settledAmount] *)
Definition remaining (st : state) : number :=
  js_sub (totalAmount (donations st)) (settledAmount st).

(** [disabled={remaining < SETTLE_AMOUNT}] *)
Definition settleDisabled (st : state) : bool :=
  js_lt (remaining st) SETTLE_AMOUNT.

(** ToBoolean on a string: false exactly on "". *)
Definition str_truthy (s : string) : bool := negb (s === "").

(** ** Handlers *)

Section Handlers.
Context `{L : LocaleFormat}.

(** The record of lines 61-72. *)
Definition newDonation (now : date) (st : state) : donation :=
  let month := format_month_year now in
  {| Donation.name := name st;
     Donation.amount := parseFloat (amount st);
     Donation.timestamp := format_datetime now;
     Donation.month := month |}.

(** [handleAddDonation]: the guard of line 59, the record of lines 61-72,
    then the three setter calls in their order. *)
Definition handleAddDonation (now : date) (st : state) : list update :=
  if negb (str_truthy (name st)) || negb (str_truthy (amount st)) || isNaN (amount st)
  then []
  else
    let d := newDonation now st in
    [setDonations (fun prev => (prev ++ [d])%list); setName ""; setAmount ""].

(** [settledAmount + SETTLE_AMOUNT] (line 84). *)
Definition add_settle (x : number) : number := js_add x SETTLE_AMOUNT.

(** [handleSettle]: [remaining] is the value of the render the click
    happened in. *)
Definition handleSettle (now : date) (st : state) : list update :=
  if js_ge (remaining st) SETTLE_AMOUNT then
    let newSettled := add_settle (settledAmount st) in
    [setSettledAmount newSettled; setLastSettledAt (Some (format_datetime now))]
  else [].

End Handlers.

(** ** Behaviour of the handlers *)

Lemma totalAmount_snoc ds d :
  totalAmount (ds ++ [d]) = js_add (totalAmount ds) (Donation.amount d).
Proof. unfold totalAmount. rewrite fold_left_snoc. reflexivity. Qed.

#[export] Hint Rewrite totalAmount_snoc : tracker_rw.

Lemma str_truthy_false s : str_truthy s = false <-> s = "".
Proof.
  unfold str_truthy. rewrite negb_false_iff. apply String.eqb_eq.
Qed.

Section HandlerFacts.
Context `{L : LocaleFormat}.

Lemma str_truthy_nonempty s : s <> "" -> str_truthy s = true.
Proof.
  intros H. destruct (str_truthy s) eqn:E; [reflexivity|].
  apply str_truthy_false in E. contradiction.
Qed.

(** The batch a valid addition enqueues, applied. *)
Lemma add_updates_valid now st :
  name st <> "" -> amount st <> "" -> isNaN (amount st) = false ->
  apply_updates st (handleAddDonation now st) =
  {| donations := donations st ++ [newDonation now st];
     settledAmount := settledAmount st;
     lastSettledAt := lastSettledAt st;
     name := ""; amount := "";
     expandedMonth := expandedMonth st |}.
Proof.
  intros Hn Ha Hi. unfold handleAddDonation.
  rewrite (str_truthy_nonempty _ Hn), (str_truthy_nonempty _ Ha), ?Hi. reflexivity.
Qed.

Lemma add_updates_invalid now st :
  name st = "" \/ amount st = "" \/ isNaN (amount st) = true ->
  handleAddDonation now st = [].
Proof.
  intros H. unfold handleAddDonation.
  destruct H as [H|[H|H]]; rewrite H;
    [| rewrite orb_comm with (b1 := negb _) |]; simpl;
    try rewrite orb_true_r; reflexivity.
Qed.

Lemma settle_updates now st :
  (js_ge (remaining st) SETTLE_AMOUNT = false /\ handleSettle now st = []) \/
  (js_ge (remaining st) SETTLE_AMOUNT = true /\
   apply_updates st (handleSettle now st) =
   {| donations := donations st;
      settledAmount := js_add (settledAmount st) SETTLE_AMOUNT;
      lastSettledAt := Some (format_datetime now);
      name := name st; amount := amount st;
      expandedMonth := expandedMonth st |}).
Proof.
  unfold handleSettle, add_settle. destruct (js_ge (remaining st) SETTLE_AMOUNT); [right|left]; auto.
Qed.

(** C1: on a valid input, the add handler appends exactly the new record to
    the donations, empties both inputs and leaves every other slot alone. *)
Theorem handleAddDonation_valid now st :
  name st <> "" -> amount st <> "" -> isNaN (amount st) = false ->
  apply_updates st (handleAddDonation now st) =
  {| donations := donations st ++ [newDonation now st];
     settledAmount := settledAmount st;
     lastSettledAt := lastSettledAt st;
     name := ""; amount := "";
     expandedMonth := expandedMonth st |}.
Proof. apply add_updates_valid. Qed.

(** On a valid input the list grows by one and the total by the parsed
    amount (one more float addition). *)
Theorem handleAddDonation_total now st :
  name st <> "" -> amount st <> "" -> isNaN (amount st) = false ->
  let st' := apply_updates st (handleAddDonation now st) in
  List.length (donations st') = S (List.length (donations st)) /\
  totalAmount (donations st') = js_add (totalAmount (donations st)) (parseFloat (amount st)).
Proof.
  intros Hn Ha Hi. cbv zeta. rewrite (add_updates_valid now st Hn Ha Hi). simpl.
  rewrite length_app, totalAmount_snoc. simpl. split; [lia | reflexivity].
Qed.

(** C3: an empty name, an empty amount or an amount that [isNaN] rejects
    makes the add handler enqueue nothing. *)
Theorem handleAddDonation_invalid now st :
  name st = "" \/ amount st = "" \/ isNaN (amount st) = true ->
  handleAddDonation now st = [].
Proof. apply add_updates_invalid. Qed.

(** C4: settling either does nothing or adds exactly [SETTLE_AMOUNT] (one
    float addition) to the settled amount and stamps the time. *)
Theorem handleSettle_effect now st :
  (js_ge (remaining st) SETTLE_AMOUNT = false /\ handleSettle now st = []) \/
  (js_ge (remaining st) SETTLE_AMOUNT = true /\
   apply_updates st (handleSettle now st) =
   {| donations := donations st;
      settledAmount := js_add (settledAmount st) SETTLE_AMOUNT;
      lastSettledAt := Some (format_datetime now);
      name := name st; amount := amount st;
      expandedMonth := expandedMonth st |}).
Proof. apply settle_updates. Qed.

(** C28: when the settled amount is the float of [6000 * j] (an integer
    multiple of 6000, as the spec requires) and [6000 * (j + 1) < 2^53], an
    enabled [handleSettle] leaves exactly the float of [6000 * (j + 1)]: the
    float addition of line 84 loses nothing below 2^53. *)
Theorem handleSettle_exact now st j :
  js_ge (remaining st) SETTLE_AMOUNT = true -> (0 <= j)%Z ->
  (6000 * (j + 1) < SAFE)%Z -> settledAmount st = of_Z (6000 * j) ->
  settledAmount (apply_updates st (handleSettle now st)) = of_Z (6000 * (j + 1)).
Proof.
  intros Hge Hj Hb Hs.
  destruct (settle_updates now st) as [[Hf _]|[_ ->]]; [congruence|].
  cbn [settledAmount]. rewrite Hs. unfold SETTLE_AMOUNT.
  rewrite js_add_of_Z by (unfold SAFE, prec in *; lia). f_equal. lia.
Qed.

End HandlerFacts.

(** ** Concrete inputs, in the en-US locale *)

Definition nov9 : date :=
  {| year := 2026; month_index := 10; day := 9; hours := 1; minutes := 53; seconds := 0 |}.

Definition alice_typed : state := {|
  donations := []; settledAmount := of_Z 0; lastSettledAt := None;
  name := "Alice"; amount := "3000"; expandedMonth := None |}.

Lemma handleAddDonation_valid_witness :
  apply_updates alice_typed (handleAddDonation nov9 alice_typed) =
  {| donations := donations alice_typed ++ [newDonation nov9 alice_typed];
     settledAmount := settledAmount alice_typed;
     lastSettledAt := lastSettledAt alice_typed;
     name := ""; amount := "";
     expandedMonth := expandedMonth alice_typed |}.
Proof. apply handleAddDonation_valid; vm_compute; congruence. Defined.

Lemma handleAddDonation_total_witness :
  let st' := apply_updates alice_typed (handleAddDonation nov9 alice_typed) in
  List.length (donations st') = S (List.length (donations alice_typed)) /\
  totalAmount (donations st') = js_add (totalAmount (donations alice_typed)) (parseFloat (amount alice_typed)).
Proof. apply handleAddDonation_total; vm_compute; congruence. Defined.

Lemma handleAddDonation_invalid_witness :
  handleAddDonation nov9 {| donations := []; settledAmount := of_Z 0; lastSettledAt := None;
                            name := "Carl"; amount := "abc"; expandedMonth := None |} = [].
Proof. apply handleAddDonation_invalid. right. right. vm_compute. reflexivity. Defined.

Lemma handleSettle_exact_witness :
  let st := {| donations := [newDonation nov9 {| donations := []; settledAmount := of_Z 0;
                 lastSettledAt := None; name := "Ann"; amount := "20000"; expandedMonth := None |}];
               settledAmount := of_Z 6000; lastSettledAt := None;
               name := ""; amount := ""; expandedMonth := None |} in
  settledAmount (apply_updates st (handleSettle nov9 st)) = of_Z (6000 * (1 + 1)).
Proof. apply (handleSettle_exact nov9 _ 1); vm_compute; first [reflexivity | discriminate]. Defined.

(** The guard accepts a negative amount (and zero): the spec's positive
    amounts are not enforced. *)
Lemma negative_amount_accepted :
  let st := {| donations := []; settledAmount := of_Z 0; lastSettledAt := None;
               name := "Dan"; amount := "-500"; expandedMonth := None |} in
  map Donation.amount (donations (apply_updates st (handleAddDonation nov9 st))) = [of_Z (-500)].
Proof. vm_compute. reflexivity. Qed.

(** A blank amount passes the guard and appends a NaN amount; the total is
    then NaN, the settle button is enabled ([NaN < 6000] is false), and the
    handler does nothing ([NaN >= 6000] is false). *)
Lemma blank_amount_nan_total :
  let st := {| donations := []; settledAmount := of_Z 0; lastSettledAt := None;
               name := "Eve"; amount := " "; expandedMonth := None |} in
  let st' := apply_updates st (handleAddDonation nov9 st) in
  is_nan (totalAmount (donations st')) = true /\ settleDisabled st' = false /\
  handleSettle nov9 st' = [].
Proof. vm_compute. repeat split. Qed.
