(* ===== verification/Grouping.v ===== *)
(** * Grouping the donations by month

    App.js lines 91-95 reduce the donation list into a plain object:
<<
  donations.reduce((acc, donation) => {
    if (!acc[donation.month]) acc[donation.month] = [];
    acc[donation.month].push(donation);
    return acc;
  }, {});
>>
    The object is modelled by its own properties, in creation order.  A
    property read falls back to [Object.prototype], whose methods are truthy
    non-arrays, so [push] on them throws a TypeError.  [Object.entries]
    (line 140) lists array-index keys first, in numeric order, then the
    other keys in creation order.  The render shows one button per entry;
    the expanded month lists its donations reversed (lines 164-175), and a
    click toggles [expandedMonth] (line 144).

    [group_spec] is the reference grouping: the distinct months in order of
    first occurrence, each with the donations of that month by filtering.
    The reduce completes exactly when no label names a prototype property,
    and then builds [group_spec]; the theorems on the object it builds
    (partition, key order, calendar months) go through that refinement. *)

From S2P Require Import Prelude JsNumber Clock Ledger.
From Stdlib Require Import Permutation.

Open Scope string_scope.
Open Scope list_scope.

(** ** The accumulator object *)

Definition js_object := list (string * list donation).

(** Property names of [Object.prototype] (own properties of the prototype,
    among them the accessor [__proto__]). *)
Definition object_prototype_names : list string :=
  ["constructor"; "__proto__"; "hasOwnProperty"; "isPrototypeOf";
   "propertyIsEnumerable"; "toLocaleString"; "toString"; "valueOf";
   "__defineGetter__"; "__defineSetter__"; "__lookupGetter__"; "__lookupSetter__"].

Fixpoint own_property (o : js_object) (k : string) : option (list donation) :=
  match o with
  | [] => None
  | (k', v) :: o' => if k' === k then Some v else own_property o' k
  end.

(** Result of the read [acc[k]]. *)
Inductive property :=
| OwnArray (l : list donation)
| Inherited
| Absent.

Definition get_property (o : js_object) (k : string) : property :=
  match own_property o k with
  | Some l => OwnArray l
  | None => if mem_string k object_prototype_names then Inherited else Absent
  end.

(** Assignment to an existing own property keeps its position. *)
Fixpoint set_own (o : js_object) (k : string) (v : list donation) : js_object :=
  match o with
  | [] => []
  | (k', v') :: o' => if k' === k then (k', v) :: o' else (k', v') :: set_own o' k v
  end.

(** One call of the reducer. *)
Definition group_step (acc : js_object) (d : donation) : result js_object :=
  let m := Donation.month d in
  let acc1 := match get_property acc m with
              | Absent => (acc ++ [(m, [])])%list
              | _ => acc
              end in
  match get_property acc1 m with
  | OwnArray l => Ok (set_own acc1 m (l ++ [d])%list)
  | _ => Throw (TypeError "acc[donation.month].push is not a function")
  end.

Fixpoint group_fold (acc : js_object) (ds : list donation) : result js_object :=
  match ds with
  | [] => Ok acc
  | d :: ds' => let! acc' := group_step acc d in group_fold acc' ds'
  end.

(** [groupedDonations], from the empty object [{}]. *)
Definition groupedDonations (ds : list donation) : result js_object :=
  group_fold [] ds.

(** ** [Object.entries] *)

(** A canonical array index: "0", or digits without a leading zero, of value
    at most [2^32 - 2]. *)
Definition is_array_index (k : string) : bool :=
  match k with
  | String c _ =>
      match scan_digits 10 k 0 0 with
      | (v, n, EmptyString) =>
          ((n =? 1)%nat || negb (Ascii.eqb c "0"%char)) && (v <=? 4294967294)%Z
      | _ => false
      end
  | EmptyString => false
  end.

Definition index_value (k : string) : Z := fst (fst (scan_digits 10 k 0 0)).

Fixpoint insert_by_index (e : string * list donation) (l : js_object) : js_object :=
  match l with
  | [] => [e]
  | e' :: l' =>
      if (index_value (fst e) <? index_value (fst e'))%Z then e :: e' :: l'
      else e' :: insert_by_index e l'
  end.

Definition object_entries (o : js_object) : js_object :=
  (fold_right insert_by_index [] (filter (fun e => is_array_index (fst e)) o) ++
   filter (fun e => negb (is_array_index (fst e))) o)%list.

(** ** The month list of the render *)

(** [setExpandedMonth((prev) => (prev === month ? null : month))] *)
Definition toggleMonth (m : string) : list update :=
  [setExpandedMonth (fun prev =>
     match prev with
     | Some p => if p === m then None else Some m
     | None => Some m
     end)].

(** The rows shown under the button of month [m]: none when collapsed, the
    group reversed when expanded. *)
Definition visibleDonations (st : state) (m : string) (group : list donation) : list donation :=
  match expandedMonth st with
  | Some e => if e === m then rev group else []
  | None => []
  end.

(** ** Reference grouping *)

Definition months_step (ms : list string) (d : donation) : list string :=
  if mem_string (Donation.month d) ms then ms else (ms ++ [Donation.month d])%list.

(** The distinct month labels in order of first occurrence. *)
Definition distinct_months (ds : list donation) : list string :=
  fold_left months_step ds [].

Definition month_filter (ds : list donation) (k : string) : list donation :=
  filter (fun d => Donation.month d === k) ds.

Definition group_spec (ds : list donation) : js_object :=
  map (fun k => (k, month_filter ds k)) (distinct_months ds).

(** ** Lemmas on the object operations *)

Lemma group_fold_app acc ds ds' :
  group_fold acc (ds ++ ds') = (let! a := group_fold acc ds in group_fold a ds').
Proof.
  revert acc. induction ds as [|d ds IH]; intros acc; simpl; [reflexivity|].
  destruct (group_step acc d); [apply IH | reflexivity].
Qed.

Lemma own_property_map (f : string -> list donation) ks m :
  own_property (map (fun k => (k, f k)) ks) m =
  if mem_string m ks then Some (f m) else None.
Proof.
  induction ks as [|k ks IH]; simpl; [reflexivity|].
  unfold mem_string in *. simpl. rewrite (string_eqb_sym m k).
  destruct (String.eqb_spec k m); [subst; reflexivity | exact IH].
Qed.

Lemma set_own_map (f : string -> list donation) ks m v :
  NoDup ks ->
  set_own (map (fun k => (k, f k)) ks) m v =
  map (fun k => (k, if k === m then v else f k)) ks.
Proof.
  induction 1 as [|k ks Hk Hnd IH]; simpl; [reflexivity|].
  destruct (String.eqb_spec k m) as [->|Hne]; [|now rewrite IH].
  f_equal. apply map_ext_in. intros k' Hk'.
  destruct (String.eqb_spec k' m); [subst; contradiction | reflexivity].
Qed.

Lemma own_property_app_absent o o' k :
  own_property o k = None -> own_property (o ++ o') k = own_property o' k.
Proof.
  induction o as [|[k' v] o IH]; simpl; [reflexivity|].
  destruct (k' === k); [discriminate | exact IH].
Qed.

Lemma set_own_app_absent o o' k v :
  own_property o k = None -> set_own (o ++ o') k v = (o ++ set_own o' k v)%list.
Proof.
  induction o as [|[k' v'] o IH]; simpl; [reflexivity|].
  destruct (k' === k); [discriminate|]. intros H. now rewrite IH.
Qed.

(** ** Lemmas on the reference grouping *)

Lemma months_fold_In ds : forall ms k,
  In k (fold_left months_step ds ms) <->
  In k ms \/ exists d, In d ds /\ Donation.month d = k.
Proof.
  induction ds as [|d ds IH]; intros ms k; simpl.
  - split; [tauto | intros [H|[d [[] _]]]; exact H].
  - rewrite IH. unfold months_step.
    destruct (mem_string (Donation.month d) ms) eqn:E.
    + apply mem_string_In in E. split.
      * intros [H|[d' [H1 H2]]]; [tauto | right; eauto].
      * intros [H|[d' [[<-|H1] H2]]]; [tauto | subst; tauto | right; eauto].
    + rewrite in_app_iff. simpl. split.
      * intros [[H|[H|[]]]|[d' [H1 H2]]]; [tauto | right; eauto | right; eauto].
      * intros [H|[d' [[<-|H1] H2]]]; [tauto | subst; tauto | right; eauto].
Qed.

Lemma months_fold_NoDup ds : forall ms,
  NoDup ms -> NoDup (fold_left months_step ds ms).
Proof.
  induction ds as [|d ds IH]; intros ms H; simpl; [exact H|].
  apply IH. unfold months_step.
  destruct (mem_string (Donation.month d) ms) eqn:E; [exact H|].
  apply NoDup_app; [exact H | constructor; [intros []|constructor] |].
  intros x Hx [<-|[]]. apply (proj2 (mem_string_In _ _)) in Hx. congruence.
Qed.

Lemma distinct_months_In ds k :
  In k (distinct_months ds) <-> exists d, In d ds /\ Donation.month d = k.
Proof.
  unfold distinct_months. rewrite months_fold_In. simpl. tauto.
Qed.

Lemma distinct_months_NoDup ds : NoDup (distinct_months ds).
Proof. apply months_fold_NoDup. constructor. Qed.

Lemma distinct_months_snoc ds d :
  distinct_months (ds ++ [d]) = months_step (distinct_months ds) d.
Proof. unfold distinct_months. apply fold_left_snoc. Qed.

Lemma month_filter_snoc ds d k :
  month_filter (ds ++ [d]) k =
  (month_filter ds k ++ (if Donation.month d === k then [d] else []))%list.
Proof. unfold month_filter. now rewrite filter_snoc. Qed.

Lemma month_filter_absent ds k :
  ~ In k (distinct_months ds) -> month_filter ds k = [].
Proof.
  intros H. unfold month_filter.
  destruct (filter _ ds) as [|d l] eqn:E; [reflexivity|].
  exfalso. apply H, distinct_months_In. exists d.
  assert (Hd : In d (filter (fun d => Donation.month d === k) ds)) by (rewrite E; left; reflexivity).
  apply filter_In in Hd as [Hd Hm]. apply String.eqb_eq in Hm. eauto.
Qed.

#[export] Hint Resolve distinct_months_NoDup : tracker.
#[export] Hint Rewrite distinct_months_snoc month_filter_snoc : tracker_rw.

(** ** The reduce refines the reference grouping *)

(** No month label names a property of [Object.prototype]. *)
Definition proto_free (ds : list donation) : bool :=
  forallb (fun d => negb (mem_string (Donation.month d) object_prototype_names)) ds.

Lemma group_step_spec ds d :
  mem_string (Donation.month d) object_prototype_names = false ->
  group_step (group_spec ds) d = Ok (group_spec (ds ++ [d])).
Proof.
  intros Hp. unfold group_step, get_property, group_spec.
  rewrite own_property_map, distinct_months_snoc. unfold months_step.
  destruct (mem_string (Donation.month d) (distinct_months ds)) eqn:E.
  - rewrite own_property_map, E, set_own_map by auto with tracker.
    f_equal. apply map_ext. intros k. rewrite month_filter_snoc.
    destruct (String.eqb_spec k (Donation.month d)) as [->|Hne].
    + now rewrite String.eqb_refl.
    + rewrite (proj2 (String.eqb_neq (Donation.month d) k)) by congruence.
      now rewrite app_nil_r.
  - rewrite Hp, own_property_app_absent by (rewrite own_property_map, E; reflexivity).
    cbn [own_property]. rewrite String.eqb_refl.
    rewrite set_own_app_absent by (rewrite own_property_map, E; reflexivity).
    cbn [set_own app]. rewrite String.eqb_refl, map_app. cbn [map].
    rewrite month_filter_snoc, String.eqb_refl,
      (month_filter_absent ds) by (intros H; apply mem_string_In in H; congruence).
    do 2 f_equal. apply map_ext_in. intros k Hk. rewrite month_filter_snoc.
    destruct (String.eqb_spec (Donation.month d) k) as [<-|]; [|now rewrite app_nil_r].
    apply mem_string_In in Hk. congruence.
Qed.

Lemma group_fold_spec ds :
  proto_free ds = true -> groupedDonations ds = Ok (group_spec ds).
Proof.
  induction ds as [|d ds IH] using rev_ind; intros Hp; [reflexivity|].
  unfold proto_free in Hp. rewrite forallb_app in Hp. simpl in Hp.
  apply andb_prop in Hp as [Hp Hd]. rewrite andb_true_r, negb_true_iff in Hd.
  unfold groupedDonations in *. rewrite group_fold_app, IH by exact Hp.
  simpl. rewrite group_step_spec by exact Hd. reflexivity.
Qed.

(** C7: when no month label names a property of [Object.prototype], the
    object the reduce of lines 91-95 builds is the reference grouping: one
    key per distinct month in order of first occurrence, with that month's
    donations in their original order. *)
Theorem groupedDonations_spec ds :
  proto_free ds = true -> groupedDonations ds = Ok (group_spec ds).
Proof. apply group_fold_spec. Qed.

(** A key of the reduce's object is never a property name of the
    prototype while every month seen so far avoided them. *)
Lemma set_own_keys o k v : map fst (set_own o k v) = map fst o.
Proof.
  induction o as [|[k' v'] o IH]; simpl; [reflexivity|].
  destruct (k' === k); simpl; now rewrite ?IH.
Qed.

Lemma group_step_keys acc d acc' :
  Forall (fun e => mem_string (fst e) object_prototype_names = false) acc ->
  mem_string (Donation.month d) object_prototype_names = false ->
  group_step acc d = Ok acc' ->
  Forall (fun e => mem_string (fst e) object_prototype_names = false) acc'.
Proof.
  intros Hacc Hm. unfold group_step, get_property.
  assert (Hset : forall o k v, Forall (fun e => mem_string (fst e) object_prototype_names = false) o ->
            Forall (fun e => mem_string (fst e) object_prototype_names = false) (set_own o k v)).
  { intros o k v Ho.
    apply (proj1 (Forall_map fst (fun k => mem_string k object_prototype_names = false) _)).
    rewrite set_own_keys. now apply Forall_map. }
  destruct (own_property acc (Donation.month d)) as [l|] eqn:E.
  - cbv beta iota zeta. intros H. rewrite E in H. injection H as H. subst acc'. apply Hset. exact Hacc.
  - rewrite Hm, own_property_app_absent by exact E. cbn [own_property].
    rewrite String.eqb_refl. intros [= Heq]; subst acc'. apply Hset.
    apply Forall_app. split; [exact Hacc|]. constructor; [exact Hm|constructor].
Qed.

Lemma own_property_key o k l : own_property o k = Some l -> In k (map fst o).
Proof.
  induction o as [|[k' v] o IH]; simpl; [discriminate|].
  destruct (String.eqb_spec k' k); [left; congruence | right; auto].
Qed.

(** From an object whose keys avoid the prototype's names, the fold throws
    as soon as some month label names one of them. *)
Lemma group_fold_throws ds acc :
  Forall (fun e => mem_string (fst e) object_prototype_names = false) acc ->
  proto_free ds = false -> exists e, group_fold acc ds = Throw e.
Proof.
  revert acc. induction ds as [|d ds IH]; intros acc Hacc Hp; [discriminate|].
  unfold proto_free in Hp. cbn [forallb] in Hp. cbn [group_fold].
  destruct (mem_string (Donation.month d) object_prototype_names) eqn:Hm;
    cbn [negb andb] in Hp.
  - exists (TypeError "acc[donation.month].push is not a function").
    unfold group_step, get_property.
    destruct (own_property acc (Donation.month d)) as [l|] eqn:E.
    + apply own_property_key, in_map_iff in E as [[k v] [Hk Hin]]. simpl in Hk. subst k.
      rewrite Forall_forall in Hacc. specialize (Hacc _ Hin). cbn [fst] in Hacc. congruence.
    + rewrite Hm. cbv beta iota zeta. rewrite E. reflexivity.
  - destruct (group_step acc d) as [acc'|e] eqn:Hs; [|now exists e].
    cbv beta iota. apply (IH acc'); [|exact Hp]. exact (group_step_keys acc d acc' Hacc Hm Hs).
Qed.

(** C17: a month label that names a property of [Object.prototype] (such as
    "constructor", possible in a hydrated document) makes the reduce throw
    a TypeError, and with it the whole render. *)
Theorem groupedDonations_throws ds :
  proto_free ds = false -> exists e, groupedDonations ds = Throw e.
Proof. apply group_fold_throws. constructor. Qed.

(** So a reduce that completes has met no prototype name, and its object
    is the reference grouping. *)
Lemma groupedDonations_ok_spec ds o :
  groupedDonations ds = Ok o -> proto_free ds = true /\ o = group_spec ds.
Proof.
  intros H. destruct (proto_free ds) eqn:Hp.
  - rewrite group_fold_spec in H by exact Hp. split; [reflexivity | congruence].
  - destruct (group_fold_throws ds [] (Forall_nil _) Hp) as [e He].
    unfold groupedDonations in H. congruence.
Qed.

Lemma groupedDonations_throws_witness :
  proto_free [{| Donation.name := "Ann"; Donation.amount := of_Z 5;
                 Donation.timestamp := "t"; Donation.month := "constructor" |}] = false /\
  exists e, groupedDonations [{| Donation.name := "Ann"; Donation.amount := of_Z 5;
                 Donation.timestamp := "t"; Donation.month := "constructor" |}] = Throw e.
Proof. split; [reflexivity | apply groupedDonations_throws; reflexivity]. Defined.

(** ** The reference grouping is a partition *)

Lemma month_filter_cons_other d l ks :
  ~ In (Donation.month d) ks ->
  map (month_filter (d :: l)) ks = map (month_filter l) ks.
Proof.
  intros H. apply map_ext_in. intros k Hk. unfold month_filter. simpl.
  destruct (String.eqb_spec (Donation.month d) k); [subst; contradiction | reflexivity].
Qed.

Lemma concat_month_filter_cons d l ks :
  NoDup ks -> In (Donation.month d) ks ->
  Permutation (concat (map (month_filter (d :: l)) ks))
              (d :: concat (map (month_filter l) ks)).
Proof.
  induction 1 as [|k ks Hk Hnd IH]; intros Hin; [destruct Hin|]. simpl.
  unfold month_filter at 1. simpl.
  destruct (String.eqb_spec (Donation.month d) k) as [<-|Hne].
  - rewrite month_filter_cons_other by exact Hk. reflexivity.
  - destruct Hin as [Hin|Hin]; [congruence|].
    rewrite (IH Hin). apply Permutation_sym, Permutation_middle.
Qed.

Lemma concat_month_filter_perm ks l :
  NoDup ks -> (forall d, In d l -> In (Donation.month d) ks) ->
  Permutation (concat (map (month_filter l) ks)) l.
Proof.
  intros Hnd. induction l as [|d l IH]; intros Hcov.
  - clear Hnd Hcov. unfold month_filter. simpl.
    induction ks; simpl; [constructor | exact IHks].
  - rewrite concat_month_filter_cons by auto with datatypes.
    constructor. apply IH. auto with datatypes.
Qed.

(** The reference grouping partitions the donations. *)
Lemma group_spec_partition ds :
  NoDup (map fst (group_spec ds)) /\
  (forall k l, In (k, l) (group_spec ds) ->
     l <> [] /\ Forall (fun d => Donation.month d = k) l) /\
  Permutation (concat (map snd (group_spec ds))) ds.
Proof.
  unfold group_spec. rewrite !map_map. cbn [fst snd]. rewrite map_id.
  split; [|split].
  - apply distinct_months_NoDup.
  - intros k l Hin. apply in_map_iff in Hin as [k' [Heq Hk]]. injection Heq as -> <-.
    apply distinct_months_In in Hk as [d [Hd Hm]]. split.
    + intros E. assert (Hf : In d (month_filter ds k)).
      { apply filter_In. split; [exact Hd | now apply String.eqb_eq]. }
      rewrite E in Hf. destruct Hf.
    + apply Forall_forall. intros x Hx. apply filter_In in Hx as [_ Hx].
      now apply String.eqb_eq.
  - apply concat_month_filter_perm; [apply distinct_months_NoDup|].
    intros d Hd. apply distinct_months_In. eauto.
Qed.

(** C8: whenever the reduce of lines 91-95 completes, its object partitions
    the donations: its keys are distinct, every group is non-empty and holds
    donations of its own month only, and the groups put together are a
    permutation of the list. *)
Theorem groupedDonations_partition ds o :
  groupedDonations ds = Ok o ->
  NoDup (map fst o) /\
  (forall k l, In (k, l) o -> l <> [] /\ Forall (fun d => Donation.month d = k) l) /\
  Permutation (concat (map snd o)) ds.
Proof.
  intros H. apply groupedDonations_ok_spec in H as [_ ->]. apply group_spec_partition.
Qed.

(** [Object.entries] keeps the reference grouping when no key is an array index. *)
Lemma object_entries_no_index ds :
  forallb (fun d => negb (is_array_index (Donation.month d))) ds = true ->
  object_entries (group_spec ds) = group_spec ds.
Proof.
  intros H. rewrite forallb_forall in H.
  assert (Hk : forall e, In e (group_spec ds) -> is_array_index (fst e) = false).
  { intros [k l] He. unfold group_spec in He. apply in_map_iff in He as [k' [[= <- _] Hk']].
    apply distinct_months_In in Hk' as [d [Hd <-]]. apply negb_true_iff, H, Hd. }
  unfold object_entries.
  rewrite filter_all_false by exact Hk. rewrite filter_all_true; [reflexivity|].
  intros e He. now rewrite Hk.
Qed.

Lemma group_spec_keys ds : map fst (group_spec ds) = distinct_months ds.
Proof. unfold group_spec. rewrite map_map. apply map_id. Qed.

(** C18: when the reduce completes and no month label is an array index,
    [Object.entries] of its object (line 144) is the object itself, and
    it lists the months in the order of their first donation. *)
Theorem groupedDonations_entries ds o :
  groupedDonations ds = Ok o ->
  forallb (fun d => negb (is_array_index (Donation.month d))) ds = true ->
  object_entries o = o /\ map fst (object_entries o) = distinct_months ds.
Proof.
  intros H Hi. apply groupedDonations_ok_spec in H as [_ ->].
  rewrite object_entries_no_index by exact Hi. split; [reflexivity | apply group_spec_keys].
Qed.

(** ** Groups are calendar months *)

Section Calendar.
Context `{L : LocaleFormat} `{LL : !LocaleFormatLaws L}.

Lemma same_label_iff n1 n2 st1 st2 :
  valid_date n1 -> valid_date n2 ->
  (Donation.month (newDonation n2 st2) === Donation.month (newDonation n1 st1)) =
  ((year n1 =? year n2)%Z && (month_index n1 =? month_index n2)%Z).
Proof.
  intros H1 H2. cbn [newDonation Donation.month].
  destruct (String.eqb_spec (format_month_year n2) (format_month_year n1)) as [E|E].
  - symmetry in E. destruct (month_label_inj n1 n2 H1 H2 E) as [-> ->].
    now rewrite !Z.eqb_refl.
  - symmetry. apply andb_false_iff.
    destruct (Z.eqb_spec (year n1) (year n2)) as [Hy|Hy]; [|now left].
    destruct (Z.eqb_spec (month_index n1) (month_index n2)) as [Hm|Hm]; [|now right].
    exfalso. apply E. symmetry. now apply month_label_congr.
Qed.

Lemma mem_string_app s l1 l2 : mem_string s (l1 ++ l2) = mem_string s l1 || mem_string s l2.
Proof. unfold mem_string. apply existsb_app. Qed.

Lemma mem_string_absent s l : ~ In s l -> mem_string s l = false.
Proof. intros H. destruct (mem_string s l) eqn:E; [|reflexivity]. now apply mem_string_In in E. Qed.

(** Two donations added at valid dates after [ds], neither in a month
    [ds] already has, on the reference grouping. *)
Lemma calendar_months ds n1 n2 st1 st2 :
  valid_date n1 -> valid_date n2 ->
  let d1 := newDonation n1 st1 in
  let d2 := newDonation n2 st2 in
  ~ In (Donation.month d1) (distinct_months ds) -> ~ In (Donation.month d2) (distinct_months ds) ->
  let same := ((year n1 =? year n2)%Z && (month_index n1 =? month_index n2)%Z) in
  distinct_months (ds ++ [d1; d2]) =
    distinct_months ds ++ Donation.month d1 :: (if same then [] else [Donation.month d2]) /\
  month_filter (ds ++ [d1; d2]) (Donation.month d1) = d1 :: (if same then [d2] else []).
Proof.
  intros H1 H2 d1 d2 A1 A2 same.
  pose proof (same_label_iff n1 n2 st1 st2 H1 H2) as Hs. fold d1 d2 same in Hs.
  replace (ds ++ [d1; d2]) with ((ds ++ [d1]) ++ [d2]) by (rewrite <- app_assoc; reflexivity).
  rewrite !distinct_months_snoc, !month_filter_snoc, month_filter_absent by exact A1.
  unfold months_step. rewrite (mem_string_absent _ _ A1), mem_string_app,
    (mem_string_absent _ _ A2), String.eqb_refl. cbn [mem_string existsb orb].
  rewrite Hs, orb_false_r. destruct same; cbn; [|rewrite <- app_assoc]; split; reflexivity.
Qed.

(** C34: the last scenario of §8 of the spec, on the object the reduce
    builds.  Two donations added at valid dates after [ds], neither in a
    month [ds] already has: the first opens a new last key; the second joins
    that key's array exactly when it is of the same calendar month, and
    otherwise opens the next key. *)
Theorem calendar_month_groups ds n1 n2 st1 st2 o :
  valid_date n1 -> valid_date n2 ->
  let d1 := newDonation n1 st1 in
  let d2 := newDonation n2 st2 in
  ~ In (Donation.month d1) (distinct_months ds) -> ~ In (Donation.month d2) (distinct_months ds) ->
  groupedDonations (ds ++ [d1; d2]) = Ok o ->
  let same := ((year n1 =? year n2)%Z && (month_index n1 =? month_index n2)%Z) in
  map fst o = distinct_months ds ++ Donation.month d1 :: (if same then [] else [Donation.month d2]) /\
  own_property o (Donation.month d1) = Some (d1 :: (if same then [d2] else [])).
Proof.
  intros H1 H2 d1 d2 A1 A2 Ho same.
  apply groupedDonations_ok_spec in Ho as [_ ->].
  destruct (calendar_months ds n1 n2 st1 st2 H1 H2 A1 A2) as [Hk Hf]. fold d1 d2 same in Hk, Hf.
  rewrite group_spec_keys, Hk. split; [reflexivity|].
  unfold group_spec. rewrite own_property_map, Hf, Hk, mem_string_app.
  cbn [mem_string existsb]. now rewrite String.eqb_refl, orb_true_r.
Qed.

End Calendar.

Lemma calendar_month_groups_witness :
  let dec1 := {| year := 2026; month_index := 11; day := 1; hours := 9; minutes := 0; seconds := 0 |} in
  let d1 := newDonation nov9 alice_typed in
  let d2 := newDonation dec1 alice_typed in
  let same := ((year nov9 =? year dec1)%Z && (month_index nov9 =? month_index dec1)%Z) in
  map fst (group_spec ([] ++ [d1; d2])) =
    distinct_months [] ++ Donation.month d1 :: (if same then [] else [Donation.month d2]) /\
  own_property (group_spec ([] ++ [d1; d2])) (Donation.month d1) = Some (d1 :: (if same then [d2] else [])).
Proof.
  apply calendar_month_groups; [unfold valid_date; cbn; lia .. | cbn; tauto | cbn; tauto |].
  vm_compute. reflexivity.
Defined.

Lemma groupedDonations_entries_witness :
  let ds := [{| Donation.name := "Alice"; Donation.amount := of_Z 3000;
                Donation.timestamp := "t1"; Donation.month := "October 2026" |};
             {| Donation.name := "Bob"; Donation.amount := of_Z 3500;
                Donation.timestamp := "t2"; Donation.month := "November 2026" |}] in
  object_entries (group_spec ds) = group_spec ds /\
  map fst (object_entries (group_spec ds)) = distinct_months ds.
Proof. apply groupedDonations_entries; vm_compute; reflexivity. Defined.

Lemma groupedDonations_partition_witness :
  let ds := [{| Donation.name := "Alice"; Donation.amount := of_Z 3000;
                Donation.timestamp := "t1"; Donation.month := "October 2026" |};
             {| Donation.name := "Bob"; Donation.amount := of_Z 3500;
                Donation.timestamp := "t2"; Donation.month := "November 2026" |};
             {| Donation.name := "Carl"; Donation.amount := of_Z 100;
                Donation.timestamp := "t3"; Donation.month := "October 2026" |}] in
  NoDup (map fst (group_spec ds)) /\
  (forall k l, In (k, l) (group_spec ds) -> l <> [] /\ Forall (fun d => Donation.month d = k) l) /\
  Permutation (concat (map snd (group_spec ds))) ds.
Proof. apply groupedDonations_partition. vm_compute. reflexivity. Defined.

(** An array-index label is listed first whatever its insertion order. *)
Lemma object_entries_index_first :
  let a := {| Donation.name := "Alice"; Donation.amount := of_Z 1;
              Donation.timestamp := "t1"; Donation.month := "November 2026" |} in
  let b := {| Donation.name := "Bob"; Donation.amount := of_Z 2;
              Donation.timestamp := "t2"; Donation.month := "2024" |} in
  map fst (object_entries (group_spec [a; b])) = ["2024"; "November 2026"].
Proof. reflexivity. Qed.

Lemma groupedDonations_spec_witness :
  let ds := [{| Donation.name := "Alice"; Donation.amount := of_Z 3000;
                Donation.timestamp := "t1"; Donation.month := "October 2026" |};
             {| Donation.name := "Bob"; Donation.amount := of_Z 3500;
                Donation.timestamp := "t2"; Donation.month := "November 2026" |};
             {| Donation.name := "Carl"; Donation.amount := of_Z 100;
                Donation.timestamp := "t3"; Donation.month := "October 2026" |}] in
  proto_free ds = true /\ groupedDonations ds = Ok (group_spec ds).
Proof. split; [reflexivity | apply groupedDonations_spec; reflexivity]. Defined.
