(* ===== verification/Persistence.v ===== *)
(** * The persisted document

    The component reads and writes one Firestore document,
    [donationsData/main], shaped as §6 of the spec states:
    [{ donations, settledAmount, lastSettledAt }].  A field is [None] when it
    is missing or [null], as both are falsy for JS [||].  [toDocument] is the
    object passed to [setDoc] (App.js lines 46-50).  [hydrate] is the three
    setter calls of [fetchData] (lines 26-28), each field defaulted on its
    own with [||].  The store is an interface, [DocumentStore]: one read, one
    full replacement, and the law that a read after a write returns the
    written document.  [single_slot] is the instance used by the component
    model. *)

From S2P Require Import Prelude JsNumber Clock Ledger.

Open Scope string_scope.
Open Scope list_scope.

Record document := {
  doc_donations : option (list donation);
  doc_settledAmount : option number;
  doc_lastSettledAt : option string;
}.

(** [{ donations, settledAmount, lastSettledAt }]: [null] is stored for a
    missing settlement time. *)
Definition toDocument (st : state) : document := {|
  doc_donations := Some (donations st);
  doc_settledAmount := Some (settledAmount st);
  doc_lastSettledAt := lastSettledAt st;
|}.

(** [data.donations || []]: an array, even an empty one, is truthy. *)
Definition or_empty (f : option (list donation)) : list donation :=
  match f with Some l => l | None => [] end.

(** [data.settledAmount || 0]: +0, -0 and NaN become the literal 0. *)
Definition or_zero (f : option number) : number :=
  match f with
  | Some x => if num_truthy x then x else of_Z 0
  | None => of_Z 0
  end.

(** [data.lastSettledAt || null]: the empty string becomes [null]. *)
Definition or_null (f : option string) : option string :=
  match f with
  | Some s => if str_truthy s then Some s else None
  | None => None
  end.

(** The three persisted slots. *)
Definition persisted (st : state) : list donation * number * option string :=
  (donations st, settledAmount st, lastSettledAt st).

Definition fromDocument (d : document) : list donation * number * option string :=
  (or_empty (doc_donations d), or_zero (doc_settledAmount d), or_null (doc_lastSettledAt d)).

(** The setter calls of [fetchData] when the document exists. *)
Definition hydrate (d : document) : list update :=
  [setDonations (fun _ => or_empty (doc_donations d));
   setSettledAmount (or_zero (doc_settledAmount d));
   setLastSettledAt (or_null (doc_lastSettledAt d))].

(** The persisted slots survive a write and a read when the settled amount
    is not -0 or NaN and the settlement time is not "". *)
Definition persistable (st : state) : bool :=
  (num_truthy (settledAmount st) || object_is (settledAmount st) (of_Z 0)) &&
  match lastSettledAt st with Some s => str_truthy s | None => true end.

(** ** The store interface *)

Class DocumentStore (S : Type) := {
  store_get : S -> option document;
  store_set : S -> document -> S;
}.

Class DocumentStoreLaws (S : Type) `{DocumentStore S} := {
  (** [setDoc] replaces the document as a whole: no merge. *)
  store_get_set s d : store_get (store_set s d) = Some d;
}.

(** The one document [donationsData/main], absent or present. *)
#[export] Instance single_slot : DocumentStore (option document) := {
  store_get s := s;
  store_set _ d := Some d;
}.

#[export] Instance single_slot_laws : DocumentStoreLaws (option document).
Proof. constructor. reflexivity. Qed.

(** ** Round trips *)

Lemma or_zero_id x : or_zero (Some x) = x <-> (num_truthy x || object_is x (of_Z 0)) = true.
Proof. destruct x as [[]|[]| |[] m e]; simpl; split; congruence. Qed.

Lemma or_null_id o :
  or_null o = o <-> match o with Some s => str_truthy s | None => true end = true.
Proof. destruct o as [s|]; simpl; [destruct (str_truthy s)|]; split; congruence. Qed.

Lemma roundtrip_iff st :
  fromDocument (toDocument st) = persisted st <-> persistable st = true.
Proof.
  unfold fromDocument, toDocument, persisted, persistable.
  cbn [doc_donations doc_settledAmount doc_lastSettledAt or_empty].
  rewrite andb_true_iff, <- or_zero_id, <- or_null_id. split.
  - intros H. injection H as H1 H2. split; [exact H1 | exact H2].
  - intros [-> ->]. reflexivity.
Qed.

(** C10: writing the persisted slots and reading them back gives them
    unchanged exactly when they are [persistable]: a settled amount of -0
    or NaN comes back as +0, and a settlement time "" comes back as [null]. *)
Theorem fromDocument_toDocument st :
  fromDocument (toDocument st) = persisted st <-> persistable st = true.
Proof. apply roundtrip_iff. Qed.

Lemma hydrate_persisted st d : persisted (apply_updates st (hydrate d)) = fromDocument d.
Proof. reflexivity. Qed.

Lemma fromDocument_persistable st d :
  persisted st = fromDocument d -> persistable st = true.
Proof.
  unfold persisted, fromDocument, persistable. intros [= _ Hs Hl]. rewrite Hs, Hl.
  apply andb_true_iff. split.
  - destruct (doc_settledAmount d) as [x|]; simpl; [|reflexivity].
    destruct (num_truthy x) eqn:E; [now rewrite E | reflexivity].
  - destruct (doc_lastSettledAt d) as [s|]; simpl; [|reflexivity].
    destruct (str_truthy s) eqn:E; [exact E | reflexivity].
Qed.

(** C9: the round trip of the spec: whatever document is hydrated, writing
    the hydrated state back and hydrating again yields the same slots. *)
Theorem hydrate_persist_hydrate st d :
  fromDocument (toDocument (apply_updates st (hydrate d))) = fromDocument d.
Proof.
  rewrite <- (hydrate_persisted st d). apply roundtrip_iff.
  apply (fromDocument_persistable _ d). apply hydrate_persisted.
Qed.

(** A settled amount of NaN is not preserved. *)
Lemma fromDocument_toDocument_nan :
  let st := {| donations := []; settledAmount := NaN; lastSettledAt := None;
               name := ""; amount := ""; expandedMonth := None |} in
  fromDocument (toDocument st) <> persisted st.
Proof. simpl. discriminate. Qed.
