(* ===== verification/App.v ===== *)
(** * The component: events, renders and the two effects

    [App] (App.js lines 6-183) as a state machine.  A [world] holds the
    React state, the ref [initialLoadDone] (line 17), whether the
    mount-time [getDoc] of lines 20-37 is still pending, whether the
    component is still mounted, and the remote store with the list of
    documents this session wrote.  An [event] is one of:
    - an input change (lines 106 and 112);
    - a click on a button (lines 114, 128 and 143);
    - the settlement of the read's promise;
    - a write by another session.
    [dispatch] processes one event as React 18 does:
    - the handler runs against the state of the last render;
    - its setter calls are applied in order;
    - React re-renders only when some slot changed under [Object.is];
    - a render that throws unmounts the whole tree;
    - after a render, the save effect of lines 41-56 runs when one of its
      dependencies changed.  It writes the full document unless
      [initialLoadDone] is still false.
    The write is issued at once, and its outcome (success, or a rejected
    promise that is only logged) is the boolean argument of [dispatch].
    [setDonations] is always called with a fresh array, so calling it
    changes the [donations] dependency. *)

From S2P Require Import Prelude JsNumber Exactness Clock Ledger Grouping Persistence.

Open Scope string_scope.
Open Scope list_scope.

Inductive event :=
| NameInput (s : string)
| AmountInput (s : string)
| AddClick (now : date)
| SettleClick (now : date)
| MonthClick (m : string)
| FetchSettled (resolved : bool)
| ExternalWrite (d : document).

Definition option_string_eqb (a b : option string) : bool :=
  match a, b with
  | Some x, Some y => x === y
  | None, None => true
  | _, _ => false
  end.

Definition sets_donations (us : list update) : bool :=
  existsb (fun u => match u with setDonations _ => true | _ => false end) us.

(** The dependency array [[donations, settledAmount, lastSettledAt]]
    changed between two renders. *)
Definition deps_changed (old new : state) (us : list update) : bool :=
  sets_donations us ||
  negb (object_is (settledAmount old) (settledAmount new)) ||
  negb (option_string_eqb (lastSettledAt old) (lastSettledAt new)).

(** Some slot changed, so React renders again. *)
Definition state_changed (old new : state) (us : list update) : bool :=
  deps_changed old new us ||
  negb (name old === name new) || negb (amount old === amount new) ||
  negb (option_string_eqb (expandedMonth old) (expandedMonth new)).

(** The render evaluates [groupedDonations] and maps its entries. *)
Definition render_ok (st : state) : bool :=
  match groupedDonations (donations st) with Ok _ => true | Throw _ => false end.

(** A month button exists for [m] in the render of [st]. *)
Definition month_shown (st : state) (m : string) : bool :=
  match groupedDonations (donations st) with
  | Ok o => mem_string m (map fst (object_entries o))
  | Throw _ => false
  end.

Section Component.
Context {S : Type} `{Store : DocumentStore S} `{L : LocaleFormat}.

Record world := {
  st : state;
  initialLoadDone : bool;
  fetchPending : bool;
  mounted : bool;
  store : S;
  writes : list document;
}.

(** The first render: defaults, the read started, the save effect skipped
    because [initialLoadDone] is false. *)
Definition mount (s : S) : world := {|
  st := initial_state; initialLoadDone := false; fetchPending := true;
  mounted := true; store := s; writes := [] |}.

(** [saveData]: one [setDoc] of the whole document; a rejected write is
    logged and changes nothing. *)
Definition save_effect (w : world) (ok : bool) : world :=
  if initialLoadDone w && ok then
    {| st := st w; initialLoadDone := initialLoadDone w; fetchPending := fetchPending w;
       mounted := mounted w; store := store_set (store w) (toDocument (st w));
       writes := toDocument (st w) :: writes w |}
  else w.

(** Apply a batch of updates, re-render and run the effects. *)
Definition commit (w : world) (us : list update) (ok : bool) : world :=
  let st' := apply_updates (st w) us in
  if negb (state_changed (st w) st' us) then w
  else if negb (render_ok st') then
    {| st := st'; initialLoadDone := initialLoadDone w; fetchPending := fetchPending w;
       mounted := false; store := store w; writes := writes w |}
  else
    let w' := {| st := st'; initialLoadDone := initialLoadDone w;
                 fetchPending := fetchPending w; mounted := true;
                 store := store w; writes := writes w |} in
    if deps_changed (st w) st' us then save_effect w' ok else w'.

(** The continuation of [fetchData] after [getDoc] settles: the setters
    when the document exists, then [finally] sets the ref; the batch is
    rendered after both. *)
Definition fetch_settled (w : world) (resolved : bool) (ok : bool) : world :=
  let us := if resolved then
              match store_get (store w) with Some d => hydrate d | None => [] end
            else [] in
  commit {| st := st w; initialLoadDone := true; fetchPending := false;
            mounted := mounted w; store := store w; writes := writes w |} us ok.

Definition dispatch (w : world) (e : event) (ok : bool) : world :=
  match e with
  | ExternalWrite d =>
      {| st := st w; initialLoadDone := initialLoadDone w; fetchPending := fetchPending w;
         mounted := mounted w; store := store_set (store w) d; writes := writes w |}
  | _ =>
    if negb (mounted w) then w else
    match e with
    | NameInput s => commit w [setName s] ok
    | AmountInput s => commit w [setAmount s] ok
    | AddClick now => commit w (handleAddDonation now (st w)) ok
    | SettleClick now =>
        if settleDisabled (st w) then w else commit w (handleSettle now (st w)) ok
    | MonthClick m => if month_shown (st w) m then commit w (toggleMonth m) ok else w
    | FetchSettled resolved => if fetchPending w then fetch_settled w resolved ok else w
    | ExternalWrite _ => w
    end
  end.

(** A run: events with the outcome of the write each may issue. *)
Definition run (w : world) (evs : list (event * bool)) : world :=
  fold_left (fun w eo => dispatch w (fst eo) (snd eo)) evs w.

(** Other sessions write documents satisfying [P]. *)
Definition external_ok (P : document -> Prop) (e : event) : Prop :=
  match e with ExternalWrite d => P d | _ => True end.

Inductive reachable (P : document -> Prop) (s0 : S) : world -> Prop :=
| reach_mount : reachable P s0 (mount s0)
| reach_step w e ok :
    reachable P s0 w -> external_ok P e -> reachable P s0 (dispatch w e ok).

End Component.

(** ** Lemmas on a commit *)

Section CommitFacts.
Context {S : Type} `{Store : DocumentStore S} `{L : LocaleFormat}.

Lemma option_string_eqb_refl o : option_string_eqb o o = true.
Proof. destruct o; simpl; [apply String.eqb_refl | reflexivity]. Qed.

Lemma object_is_refl x : object_is x x = true.
Proof. now apply object_is_eq. Qed.

#[local] Hint Rewrite option_string_eqb_refl object_is_refl String.eqb_refl : tracker_rw.

(** Updates that leave the three persisted slots alone do not trigger the
    save effect. *)
Lemma deps_unchanged st us :
  sets_donations us = false ->
  settledAmount (apply_updates st us) = settledAmount st ->
  lastSettledAt (apply_updates st us) = lastSettledAt st ->
  deps_changed st (apply_updates st us) us = false.
Proof.
  intros H1 H2 H3. unfold deps_changed. rewrite H1, H2, H3.
  autorewrite with tracker_rw. reflexivity.
Qed.

Lemma commit_flags (w : world) us ok :
  initialLoadDone (commit w us ok) = initialLoadDone w /\
  fetchPending (commit w us ok) = fetchPending w.
Proof.
  unfold commit, save_effect.
  repeat (case_if; simpl); auto.
Qed.

(** A commit either leaves the store and the write log alone, or it is
    after hydration and writes the full committed state. *)
Lemma commit_store (w : world) us ok :
  (store (commit w us ok) = store w /\ writes (commit w us ok) = writes w) \/
  (initialLoadDone w = true /\ ok = true /\
   st (commit w us ok) = apply_updates (st w) us /\
   store (commit w us ok) = store_set (store w) (toDocument (apply_updates (st w) us)) /\
   writes (commit w us ok) = toDocument (apply_updates (st w) us) :: writes w).
Proof.
  unfold commit, save_effect.
  repeat (case_if; simpl); auto.
  right. apply andb_prop in E2 as [-> ->]. auto.
Qed.

Lemma commit_no_deps (w : world) us ok :
  deps_changed (st w) (apply_updates (st w) us) us = false ->
  store (commit w us ok) = store w /\ writes (commit w us ok) = writes w.
Proof.
  intros H. unfold commit. rewrite H.
  repeat (case_if; simpl); auto.
Qed.

Lemma commit_no_updates (w : world) ok : commit w [] ok = w.
Proof.
  unfold commit. simpl. unfold state_changed, deps_changed.
  autorewrite with tracker_rw. reflexivity.
Qed.

Lemma render_ok_proto_free st : proto_free (donations st) = true -> render_ok st = true.
Proof. intros H. unfold render_ok. now rewrite group_fold_spec. Qed.

End CommitFacts.

(** ** Ordering of the read and the writes *)

Section Ordering.
Context {S : Type} `{Store : DocumentStore S} `{L : LocaleFormat}.

Lemma commit_before_load (w : world) us ok :
  initialLoadDone (commit w us ok) = false ->
  writes (commit w us ok) = writes w /\ fetchPending (commit w us ok) = fetchPending w /\
  initialLoadDone w = false.
Proof.
  intros H. destruct (commit_flags w us ok) as [E1 E2]. rewrite E1 in H.
  destruct (commit_store w us ok) as [[_ Hw]|[Hl _]]; [|congruence]. auto.
Qed.

(** Before the ref is set, nothing has been written and the read is
    still pending. *)
Lemma before_load_inv P s0 (w : world) :
  reachable P s0 w -> initialLoadDone w = false ->
  writes w = [] /\ fetchPending w = true.
Proof.
  induction 1 as [|w e ok Hr IH Hext]; intros Hl; [split; reflexivity|].
  destruct e as [s|s|now|now|m|res|d]; cbn [dispatch] in *; [..|exact (IH Hl)];
    destruct (mounted w); cbn [negb] in *; try exact (IH Hl);
    repeat match goal with
    | H : context [if ?b then _ else _] |- _ => destruct b eqn:?; try exact (IH H)
    end;
    try (destruct (commit_before_load _ _ _ Hl) as (-> & -> & H); exact (IH H)).
  all: try exact (IH Hl).
  - unfold fetch_settled in Hl. rewrite (proj1 (commit_flags _ _ _)) in Hl. discriminate.
  - destruct (IH Hl) as [_ F]. discriminate.
Qed.

(** Once the ref is set the read has settled: only [fetch_settled] sets
    it, and it clears [fetchPending] at the same time. *)
Lemma loaded_not_pending P s0 (w : world) :
  reachable P s0 w -> initialLoadDone w = true -> fetchPending w = false.
Proof.
  induction 1 as [|w e ok Hr IH Hext]; intros Hl; [discriminate|].
  destruct e as [s|s|now|now|m|res|d]; cbn [dispatch] in *; [..|exact (IH Hl)];
    destruct (mounted w); cbn [negb] in *; try exact (IH Hl);
    repeat match goal with
    | H : context [if ?b then _ else _] |- _ => destruct b eqn:?; try exact (IH H)
    end;
    try (rewrite (proj2 (commit_flags _ _ _)); rewrite (proj1 (commit_flags _ _ _)) in Hl; exact (IH Hl)).
  all: try exact (IH Hl).
  all: first [unfold fetch_settled; rewrite (proj2 (commit_flags _ _ _)); reflexivity
             | cbn in *; auto].
Qed.

(** C5: while the mount-time read is pending, this session has written
    no document and the ref [initialLoadDone] is still false, whatever the
    user did meanwhile (inputs, additions, settlements, month clicks) and
    whatever other sessions wrote. *)
Theorem no_write_before_hydration P s0 (w : world) :
  reachable P s0 w -> fetchPending w = true ->
  writes w = [] /\ initialLoadDone w = false.
Proof.
  intros Hr Hp. destruct (initialLoadDone w) eqn:Hl.
  - rewrite (loaded_not_pending P s0 w Hr Hl) in Hp. discriminate.
  - split; [exact (proj1 (before_load_inv P s0 w Hr Hl)) | reflexivity].
Qed.

(** C12: when the read finds a document, the three persisted slots become
    the document's, field by field: a donation added or a settlement made
    before the read settled is discarded. *)
Theorem fetch_overwrites_local (w : world) ok d :
  mounted w = true -> fetchPending w = true -> store_get (store w) = Some d ->
  proto_free (or_empty (doc_donations d)) = true ->
  persisted (st (dispatch w (FetchSettled true) ok)) = fromDocument d.
Proof.
  intros Hm Hp Hs Hf. cbn [dispatch]. rewrite Hm, Hp. cbn [negb].
  unfold fetch_settled. rewrite Hs. unfold commit. cbn [st store].
  assert (Hch : state_changed (st w) (apply_updates (st w) (hydrate d)) (hydrate d) = true)
    by reflexivity.
  rewrite Hch, render_ok_proto_free by exact Hf. cbn [negb].
  unfold save_effect. repeat (case_if; cbn [st]); apply hydrate_persisted.
Qed.

(** C21: the read's other branch.  When the document does not exist, the
    read completes without a setter call: the state typed before the read
    is kept as it is, the ref is set and the read is no longer pending, and
    nothing is written, since no dependency of the save effect changed.  A
    donation added before such a read is therefore not saved by it. *)
Theorem absent_read_keeps_local (w : world) ok :
  mounted w = true -> fetchPending w = true -> store_get (store w) = None ->
  let w' := dispatch w (FetchSettled true) ok in
  st w' = st w /\ store w' = store w /\ writes w' = writes w /\
  initialLoadDone w' = true /\ fetchPending w' = false /\ mounted w' = true.
Proof.
  intros Hm Hp Hs w'. unfold w'. cbn [dispatch]. rewrite Hm, Hp. cbn [negb].
  unfold fetch_settled. rewrite Hs, commit_no_updates. cbn. repeat split; auto.
Qed.

End Ordering.

(** ** What each event does to the store *)

Section Effects.
Context {S : Type} `{Store : DocumentStore S} `{Laws : !DocumentStoreLaws S} `{L : LocaleFormat}.

(** Once [initialLoadDone] is set (by any settled read, a failed one
    included), a valid addition appends the record and writes the full
    current state as the whole document (when the write succeeds),
    replacing whatever the store held. *)
Lemma add_persists_full_state (w : world) now :
  initialLoadDone w = true -> mounted w = true ->
  name (st w) <> "" -> amount (st w) <> "" -> isNaN (amount (st w)) = false ->
  proto_free (donations (st w) ++ [newDonation now (st w)]) = true ->
  st (dispatch w (AddClick now) true) = apply_updates (st w) (handleAddDonation now (st w)) /\
  store_get (store (dispatch w (AddClick now) true)) = Some (toDocument (st (dispatch w (AddClick now) true))) /\
  writes (dispatch w (AddClick now) true) = toDocument (st (dispatch w (AddClick now) true)) :: writes w.
Proof.
  intros Hl Hm Hn Ha Hi Hf. cbn [dispatch]. rewrite Hm. cbn [negb].
  pose proof (add_updates_valid now (st w) Hn Ha Hi) as Happ.
  unfold commit. rewrite Happ.
  assert (Hd : sets_donations (handleAddDonation now (st w)) = true).
  { unfold handleAddDonation.
    now rewrite (str_truthy_nonempty _ Hn), (str_truthy_nonempty _ Ha), ?Hi. }
  unfold state_changed, deps_changed. rewrite Hd. cbn [orb negb].
  rewrite render_ok_proto_free by exact Hf. cbn [negb].
  unfold save_effect. cbn [initialLoadDone st store]. rewrite Hl. cbn [andb].
  split; [reflexivity | split; [apply store_get_set | reflexivity]].
Qed.

(** C11: the error path of the read.  When [getDoc] rejects, [finally]
    still sets the ref, so the next valid addition writes a document built
    from the local state only: its donations are the ones typed in this
    session plus the new one, its settlement fields the local ones, and
    whatever document the store held (which was never read) is replaced. *)
Theorem failed_read_add_clobbers (w : world) now :
  mounted w = true -> fetchPending w = true ->
  name (st w) <> "" -> amount (st w) <> "" -> isNaN (amount (st w)) = false ->
  proto_free (donations (st w) ++ [newDonation now (st w)]) = true ->
  let w1 := dispatch w (FetchSettled false) true in
  let w2 := dispatch w1 (AddClick now) true in
  st w1 = st w /\ writes w1 = writes w /\
  store_get (store w2) =
    Some {| doc_donations := Some (donations (st w) ++ [newDonation now (st w)]);
            doc_settledAmount := Some (settledAmount (st w));
            doc_lastSettledAt := lastSettledAt (st w) |} /\
  writes w2 = toDocument (st w2) :: writes w.
Proof.
  intros Hm Hp Hn Ha Hi Hf w1 w2.
  assert (E1 : w1 = {| st := st w; initialLoadDone := true; fetchPending := false;
                       mounted := true; store := store w; writes := writes w |}).
  { unfold w1. cbn [dispatch]. rewrite Hm, Hp. unfold fetch_settled. rewrite Hm.
    apply commit_no_updates. }
  unfold w2. rewrite E1.
  destruct (add_persists_full_state
              {| st := st w; initialLoadDone := true; fetchPending := false;
                 mounted := true; store := store w; writes := writes w |} now)
    as (Hst & Hs & Hw); cbn [st initialLoadDone mounted]; auto.
  rewrite Hs, Hw, Hst, add_updates_valid by auto. repeat split.
Qed.

(** C15: typing in an input and expanding or collapsing a month never
    write to the store. *)
Theorem ui_events_never_write (w : world) e ok :
  (exists s, e = NameInput s) \/ (exists s, e = AmountInput s) \/ (exists m, e = MonthClick m) ->
  store (dispatch w e ok) = store w /\ writes (dispatch w e ok) = writes w.
Proof.
  intros [[s ->]|[[s ->]|[m ->]]]; cbn [dispatch];
    destruct (mounted w); cbn [negb]; try (split; reflexivity);
    try (destruct (month_shown (st w) m); [|split; reflexivity]);
    apply commit_no_deps, deps_unchanged; reflexivity.
Qed.

(** An add whose input fails the guard leaves the whole world
    unchanged: no render, no write. *)
Theorem add_invalid_noop (w : world) now ok :
  name (st w) = "" \/ amount (st w) = "" \/ isNaN (amount (st w)) = true ->
  dispatch w (AddClick now) ok = w.
Proof.
  intros H. cbn [dispatch]. destruct (mounted w); cbn [negb]; [|reflexivity].
  rewrite add_updates_invalid by exact H. apply commit_no_updates.
Qed.

(** A settle click while [remaining < 6000] fails (or is NaN) leaves
    the whole world unchanged, however often it is repeated. *)
Theorem settle_below_threshold_noop (w : world) now ok :
  js_ge (remaining (st w)) SETTLE_AMOUNT = false ->
  dispatch w (SettleClick now) ok = w.
Proof.
  intros H. cbn [dispatch]. destruct (mounted w); cbn [negb]; [|reflexivity].
  destruct (settleDisabled (st w)); [reflexivity|].
  unfold handleSettle. rewrite H. apply commit_no_updates.
Qed.

End Effects.

(** ** The settled amount stays a sum of settlement units *)

(** The float reading of the spec's invariant: [k] settlements, each one
    float addition of 6000 from +0. *)
Definition settled_multiple (x : number) : Prop :=
  exists k, x = Nat.iter k add_settle (of_Z 0).

Definition doc_settled_ok (d : document) : Prop :=
  match doc_settledAmount d with Some x => settled_multiple x | None => True end.

Lemma settled_multiple_nonneg x : settled_multiple x -> nonneg x = true.
Proof.
  intros [k ->]. induction k as [|k IH]; [reflexivity|].
  cbn [Nat.iter]. unfold add_settle. apply js_add_nonneg; [exact IH | reflexivity].
Qed.

Lemma or_zero_multiple d : doc_settled_ok d -> settled_multiple (or_zero (doc_settledAmount d)).
Proof.
  unfold doc_settled_ok, or_zero. destruct (doc_settledAmount d) as [x|]; intros H.
  - destruct (num_truthy x) eqn:E; [exact H | now exists 0%nat].
  - now exists 0%nat.
Qed.

Lemma add_settle_multiple x : settled_multiple x -> settled_multiple (add_settle x).
Proof. intros [k ->]. now exists (S k). Qed.

(** A settled amount reached by settlements is never NaN, -0 or
    negative, so the [|| 0] of hydration gives it back unchanged. *)
Theorem settled_multiple_hydrates x :
  settled_multiple x -> nonneg x = true /\ or_zero (Some x) = x.
Proof.
  intros H. pose proof (settled_multiple_nonneg x H) as Hn. split; [exact Hn|].
  unfold or_zero. destruct (num_truthy x) eqn:E; [reflexivity|].
  symmetry. apply nonneg_falsy; assumption.
Qed.

Lemma settled_multiple_hydrates_witness :
  nonneg (Nat.iter 2 add_settle (of_Z 0)) = true /\
  or_zero (Some (Nat.iter 2 add_settle (of_Z 0))) = Nat.iter 2 add_settle (of_Z 0).
Proof. apply settled_multiple_hydrates. exists 2%nat. reflexivity. Defined.

(** [k] settlements from +0 give exactly the float of [6000 * k] while
    [6000 * k < 2^53]: the spec's invariant that the settled amount is an
    integer multiple of 6000 holds of the floats. *)
Lemma settled_exact_multiple k :
  (Z.of_nat k * 6000 < SAFE)%Z -> Nat.iter k add_settle (of_Z 0) = of_Z (Z.of_nat k * 6000).
Proof.
  induction k as [|k IH]; intros H; [reflexivity|].
  rewrite Nat.iter_succ, IH by lia. unfold add_settle, SETTLE_AMOUNT.
  rewrite js_add_of_Z by (unfold SAFE, prec in *; lia). f_equal. lia.
Qed.

Section SettledInvariant.
Context {S : Type} `{Store : DocumentStore S} `{Laws : !DocumentStoreLaws S} `{L : LocaleFormat}.

Definition world_inv (w : world) : Prop :=
  settled_multiple (settledAmount (st w)) /\
  forall d, store_get (store w) = Some d -> doc_settled_ok d.

Lemma commit_st (w : world) us ok :
  st (commit w us ok) = st w \/ st (commit w us ok) = apply_updates (st w) us.
Proof. unfold commit, save_effect. repeat (case_if; simpl); auto. Qed.

Lemma commit_inv (w : world) us ok :
  world_inv w -> settled_multiple (settledAmount (apply_updates (st w) us)) ->
  world_inv (commit w us ok).
Proof.
  intros [Hs Hd] Hu. split.
  - destruct (commit_st w us ok) as [-> | ->]; assumption.
  - destruct (commit_store w us ok) as [[-> _] | (_ & _ & _ & -> & _)]; [exact Hd|].
    intros d. rewrite store_get_set. intros [= <-]. exact Hu.
Qed.

Lemma handleAddDonation_settled now st :
  settledAmount (apply_updates st (handleAddDonation now st)) = settledAmount st.
Proof. unfold handleAddDonation. case_if; reflexivity. Qed.

Lemma handleSettle_multiple now st :
  settled_multiple (settledAmount st) ->
  settled_multiple (settledAmount (apply_updates st (handleSettle now st))).
Proof.
  intros H. destruct (settle_updates now st) as [[_ ->] | [_ ->]];
    [exact H | apply add_settle_multiple, H].
Qed.

(** C6: over every reachable state, when the initial document and every
    document other sessions write keep the settled amount a sum of
    settlement units, the settled amount of the component is [k] float
    additions of 6000 to +0. *)
Theorem settled_multiple_reachable s0 (w : world) :
  (forall d, store_get s0 = Some d -> doc_settled_ok d) ->
  reachable doc_settled_ok s0 w -> settled_multiple (settledAmount (st w)).
Proof.
  intros H0 Hr. enough (world_inv w) as [H _] by exact H.
  induction Hr as [|w e ok Hr IH Hext].
  - split; [now exists 0%nat | exact H0].
  - pose proof IH as [Hs Hd].
    destruct e as [s|s|now|now|m|res|d]; cbn [dispatch];
      [..| split; cbn [st store];
           [exact Hs | intros d'; rewrite store_get_set; intros [= <-]; exact Hext]];
      destruct (mounted w); cbn [negb]; try exact IH;
      repeat (case_if; try exact IH).
    + apply commit_inv; [exact IH | exact Hs].
    + apply commit_inv; [exact IH | exact Hs].
    + apply commit_inv; [exact IH | now rewrite handleAddDonation_settled].
    + apply commit_inv; [exact IH | apply handleSettle_multiple, Hs].
    + apply commit_inv; [exact IH | exact Hs].
    + unfold fetch_settled. apply commit_inv; [exact IH|]. cbn [st store].
      destruct res; [|exact Hs].
      destruct (store_get (store w)) as [d|] eqn:Eg; [|exact Hs].
      apply or_zero_multiple, Hd. reflexivity.
Qed.

End SettledInvariant.

(** ** Concrete runs, in the en-US locale with the one-slot store *)

#[local] Existing Instance en_US.

Lemma no_write_before_hydration_witness :
  let w := run (mount (Some {| doc_donations := None; doc_settledAmount := None;
                               doc_lastSettledAt := None |}))
             [(NameInput "Alice", true); (AmountInput "3000", true);
              (AddClick nov9, true); (SettleClick nov9, true)] in
  List.length (donations (st w)) = 1%nat /\ fetchPending w = true /\
  writes w = [] /\ initialLoadDone w = false.
Proof.
  cbv zeta. set (w := run _ _).
  assert (Hr : reachable (fun _ => True) (Some {| doc_donations := None; doc_settledAmount := None;
                                     doc_lastSettledAt := None |}) w).
  { unfold w, run. cbn [fold_left fst snd].
    repeat (apply reach_step; [|exact I]). apply reach_mount. }
  assert (Hp : fetchPending w = true) by (vm_compute; reflexivity).
  split; [vm_compute; reflexivity|]. split; [exact Hp|].
  exact (no_write_before_hydration _ _ w Hr Hp).
Defined.

Definition bob : donation := {|
  Donation.name := "Bob"; Donation.amount := of_Z 3500;
  Donation.timestamp := "11/1/2026, 9:00:00 AM"; Donation.month := "November 2026" |}.

Definition doc_bob : document := {|
  doc_donations := Some [bob]; doc_settledAmount := Some (of_Z 0); doc_lastSettledAt := None |}.

(** Alice types her contribution and adds it before the read settles. *)
Definition alice_early : list (event * bool) :=
  [(NameInput "Alice", true); (AmountInput "3000", true); (AddClick nov9, true)].

Lemma absent_read_keeps_local_witness :
  let w := run (mount (None : option document)) alice_early in
  let w' := dispatch w (FetchSettled true) true in
  st w' = st w /\ store w' = store w /\ writes w' = writes w /\
  initialLoadDone w' = true /\ fetchPending w' = false /\ mounted w' = true.
Proof. apply absent_read_keeps_local; vm_compute; reflexivity. Defined.

(** The read finds Bob's document and Alice's donation disappears. *)
Lemma fetch_overwrites_local_witness :
  let w := run (mount (Some doc_bob)) alice_early in
  List.length (donations (st w)) = 1%nat /\
  persisted (st (dispatch w (FetchSettled true) true)) = fromDocument doc_bob.
Proof.
  split; [vm_compute; reflexivity|].
  apply fetch_overwrites_local; vm_compute; reflexivity.
Defined.

(** The read fails; Alice's addition then replaces Bob's document. *)
Definition failed_read_then_typed : world :=
  run (mount (Some doc_bob))
    [(FetchSettled false, true); (NameInput "Alice", true); (AmountInput "3000", true)].

(** Alice types her contribution while the read of Bob's document is
    pending; the read then fails. *)
Definition typed_before_failed_read : world :=
  run (mount (Some doc_bob)) [(NameInput "Alice", true); (AmountInput "3000", true)].

Lemma failed_read_add_clobbers_witness :
  let w1 := dispatch typed_before_failed_read (FetchSettled false) true in
  let w2 := dispatch w1 (AddClick nov9) true in
  st w1 = st typed_before_failed_read /\ writes w1 = writes typed_before_failed_read /\
  store_get (store w2) =
    Some {| doc_donations := Some (donations (st typed_before_failed_read) ++
                                   [newDonation nov9 (st typed_before_failed_read)]);
            doc_settledAmount := Some (settledAmount (st typed_before_failed_read));
            doc_lastSettledAt := lastSettledAt (st typed_before_failed_read) |} /\
  writes w2 = toDocument (st w2) :: writes typed_before_failed_read.
Proof. apply failed_read_add_clobbers; vm_compute; congruence. Defined.

Lemma failed_read_clobbers_document :
  option_map (fun d => map Donation.name (or_empty (doc_donations d)))
    (store_get (store (dispatch failed_read_then_typed (AddClick nov9) true))) = Some ["Alice"].
Proof. vm_compute. reflexivity. Qed.

Lemma ui_events_never_write_witness :
  store (dispatch failed_read_then_typed (MonthClick "November 2026") true) =
    store failed_read_then_typed /\
  writes (dispatch failed_read_then_typed (MonthClick "November 2026") true) =
    writes failed_read_then_typed.
Proof. apply ui_events_never_write. right. right. exists "November 2026". reflexivity. Defined.

Lemma add_invalid_noop_witness :
  let w := run (mount (None : option document))
             [(FetchSettled true, true); (NameInput "Carl", true); (AmountInput "abc", true)] in
  dispatch w (AddClick nov9) true = w.
Proof. apply add_invalid_noop. right. right. vm_compute. reflexivity. Defined.

(** The scenario of the spec: Alice gives 3000 and Bob 3500 after an empty
    read; one settlement; a second settle click. *)
Definition alice_bob : world :=
  run (mount (None : option document))
    [(FetchSettled true, true); (NameInput "Alice", true); (AmountInput "3000", true);
     (AddClick nov9, true); (NameInput "Bob", true); (AmountInput "3500", true);
     (AddClick nov9, true)].

Definition alice_bob_settled : world := dispatch alice_bob (SettleClick nov9) true.

Lemma settle_below_threshold_noop_witness :
  dispatch alice_bob_settled (SettleClick nov9) true = alice_bob_settled.
Proof. apply settle_below_threshold_noop. vm_compute. reflexivity. Defined.

Lemma alice_bob_reachable :
  reachable doc_settled_ok None alice_bob_settled.
Proof.
  unfold alice_bob_settled, alice_bob, run. cbn [fold_left fst snd].
  repeat (apply reach_step; [|exact I]). apply reach_mount.
Defined.

Lemma settled_multiple_reachable_witness :
  settled_multiple (settledAmount (st alice_bob_settled)).
Proof.
  apply (settled_multiple_reachable None).
  - intros d H. discriminate H.
  - apply alice_bob_reachable.
Defined.

(** The scenario of the spec, run through the component: after the
    two additions the total and the remaining amount are 6500; one settle
    click makes the settled amount 6000, the remaining amount 500 and
    stamps the time; a second click changes nothing. *)
Theorem spec_scenario_settle :
  totalAmount (donations (st alice_bob)) = of_Z 6500 /\
  remaining (st alice_bob) = of_Z 6500 /\
  settledAmount (st alice_bob_settled) = of_Z 6000 /\
  remaining (st alice_bob_settled) = of_Z 500 /\
  lastSettledAt (st alice_bob_settled) = Some "11/9/2026, 1:53:00 AM" /\
  dispatch alice_bob_settled (SettleClick nov9) true = alice_bob_settled.
Proof. vm_compute. repeat split. Qed.

(** With no document in the store, a donation added before the read settles
    is not written when the read settles: no slot changes then, so the save
    effect does not run, and a reload loses the donation. *)
Lemma early_add_unsaved_when_absent :
  let w := dispatch (run (mount (None : option document)) alice_early) (FetchSettled true) true in
  List.length (donations (st w)) = 1%nat /\ writes w = [] /\ store w = None.
Proof. vm_compute. repeat split. Qed.
