(* ===== verification/Wellformed.v ===== *)
(** * Well-formed states and the documents the session writes

    A state is [persistable] when its settled amount is neither NaN nor -0
    and its settlement time is not "" (Persistence.v): exactly the states
    that survive a write and a read.  This file shows that every reachable
    state is persistable and that a document written by an event is read
    back as the persisted slots of the state after that event, as long as the documents in the store keep the settled
    amount a sum of settlements (the hypothesis of [settled_multiple_reachable]).
    It needs one law of the locale: a rendered time is never empty. *)

From S2P Require Import Prelude JsNumber Clock Ledger Grouping Persistence App.

Open Scope string_scope.

(** [lastSettledAt] is [null] or a non-empty string. *)
Definition time_ok (o : option string) : bool :=
  match o with Some s => str_truthy s | None => true end.

Lemma nonneg_settled_ok x : nonneg x = true -> (num_truthy x || object_is x (of_Z 0)) = true.
Proof. destruct x as [[]|[]| |[] m e]; easy. Qed.

Lemma multiple_persistable st :
  settled_multiple (settledAmount st) -> time_ok (lastSettledAt st) = true -> persistable st = true.
Proof.
  intros Hs Ht. unfold persistable. rewrite nonneg_settled_ok by (apply settled_multiple_nonneg, Hs).
  exact Ht.
Qed.

Lemma or_null_time_ok o : time_ok (or_null o) = true.
Proof. destruct o as [s|]; cbn; [destruct (str_truthy s) eqn:E; cbn; [exact E|]|]; reflexivity. Qed.

Section Wf.
Context {S : Type} `{Store : DocumentStore S} `{Laws : !DocumentStoreLaws S}
        `{L : LocaleFormat} `{LL : !LocaleFormatLaws L}.

(** A written document is the encoding of a persistable state. *)
Definition written_ok (d : document) : Prop :=
  exists st, d = toDocument st /\ persistable st = true.

Definition world_wf (w : @world S) : Prop :=
  world_inv w /\ time_ok (lastSettledAt (st w)) = true /\ Forall written_ok (writes w).

Lemma commit_wf (w : world) us ok :
  world_wf w -> settled_multiple (settledAmount (apply_updates (st w) us)) ->
  time_ok (lastSettledAt (apply_updates (st w) us)) = true -> world_wf (commit w us ok).
Proof.
  intros (Hi & Ht & Hw) Hs Ht'. split; [apply commit_inv; assumption|]. split.
  - destruct (commit_st w us ok) as [-> | ->]; assumption.
  - destruct (commit_store w us ok) as [[_ ->] | (_ & _ & _ & _ & ->)]; [exact Hw|].
    constructor; [|exact Hw]. eexists. split; [reflexivity|].
    apply multiple_persistable; assumption.
Qed.

Lemma handleAddDonation_time now st :
  lastSettledAt (apply_updates st (handleAddDonation now st)) = lastSettledAt st.
Proof. unfold handleAddDonation. case_if; reflexivity. Qed.

Lemma handleSettle_time now st :
  time_ok (lastSettledAt st) = true ->
  time_ok (lastSettledAt (apply_updates st (handleSettle now st))) = true.
Proof.
  intros H. destruct (settle_updates now st) as [[_ ->] | [_ ->]]; [exact H|].
  apply str_truthy_nonempty, datetime_nonempty.
Qed.

Lemma reachable_wf s0 (w : world) :
  (forall d, store_get s0 = Some d -> doc_settled_ok d) ->
  reachable doc_settled_ok s0 w -> world_wf w.
Proof.
  intros H0 Hr. induction Hr as [|w e ok Hr IH Hext].
  - split; [split; [now exists 0%nat | exact H0]|]. split; [reflexivity | constructor].
  - pose proof IH as ((Hs & Hd) & Ht & Hw).
    destruct e as [s|s|now|now|m|res|d]; cbn [dispatch];
      [..| split; [split; cbn [st store];
                   [exact Hs | intros d'; rewrite store_get_set; intros [= <-]; exact Hext]
                  | split; assumption]];
      destruct (mounted w); cbn [negb]; try exact IH;
      repeat (case_if; try exact IH).
    + apply commit_wf; assumption.
    + apply commit_wf; assumption.
    + apply commit_wf; [exact IH | now rewrite handleAddDonation_settled
                       | now rewrite handleAddDonation_time].
    + apply commit_wf; [exact IH | apply handleSettle_multiple, Hs | apply handleSettle_time, Ht].
    + apply commit_wf; assumption.
    + unfold fetch_settled. apply commit_wf; cbn [st store].
      * split; [exact (proj1 IH)|]. split; assumption.
      * destruct res; [|exact Hs].
        destruct (store_get (store w)) as [d|] eqn:Eg; [|exact Hs].
        apply or_zero_multiple, Hd. reflexivity.
      * destruct res; [|exact Ht].
        destruct (store_get (store w)) as [d|]; [apply or_null_time_ok|exact Ht].
Qed.

(** C30: every reachable world is well formed: its settled amount is a sum
    of settlements, its settlement time is [null] or a non-empty string,
    every document it wrote encodes a persistable state, and its own state
    is persistable (neither NaN nor -0 as settled amount), so
    [fromDocument (toDocument st)] gives its persisted slots back. *)
Theorem reachable_persistable s0 (w : world) :
  (forall d, store_get s0 = Some d -> doc_settled_ok d) ->
  reachable doc_settled_ok s0 w -> world_wf w /\ persistable (st w) = true.
Proof.
  intros H0 Hr. pose proof (reachable_wf s0 w H0 Hr) as Hwf. split; [exact Hwf|].
  destruct Hwf as ((Hs & _) & Ht & _). apply multiple_persistable; assumption.
Qed.

Lemma cons_neq {A} (x : A) l : l <> x :: l.
Proof. intros H. apply (f_equal (@length A)) in H. cbn in H. lia. Qed.

(** A commit that adds a write wrote the committed state, and the store
    then holds that document. *)
Lemma commit_write (w : world) us ok d :
  writes (commit w us ok) = d :: writes w ->
  d = toDocument (st (commit w us ok)) /\ store (commit w us ok) = store_set (store w) d.
Proof.
  intros H. destruct (commit_store w us ok) as [[_ E]|(_ & _ & Est & Es & E)].
  - rewrite E in H. now apply cons_neq in H.
  - rewrite E in H. injection H as <-. rewrite Est, Es. auto.
Qed.

(** An event that adds a write is a commit of [dispatch]. *)
Lemma dispatch_write (w : world) e ok d :
  writes (dispatch w e ok) = d :: writes w ->
  d = toDocument (st (dispatch w e ok)) /\ store (dispatch w e ok) = store_set (store w) d.
Proof.
  destruct e as [s|s|now|now|m|res|d']; cbn [dispatch];
    [..|intros H; now apply cons_neq in H];
    destruct (mounted w); cbn [negb]; try (intros H; now apply cons_neq in H);
    repeat (case_if; try (intros H; now apply cons_neq in H)); try apply commit_write.
  unfold fetch_settled. intros H. exact (commit_write _ _ _ _ H).
Qed.

(** C31: a document the component writes is read back as the state it
    was written from: whenever an event (reachable from the first render,
    under documents that keep the settled amount a sum of settlements)
    makes the save effect of lines 41-56 write a document, the store then
    holds it and [fetchData] would restore from it exactly the donations,
    the settled amount and the settlement time of the state after the
    event. *)
Theorem write_reads_back s0 (w : world) e ok d :
  (forall d, store_get s0 = Some d -> doc_settled_ok d) ->
  reachable doc_settled_ok s0 w -> external_ok doc_settled_ok e ->
  writes (dispatch w e ok) = d :: writes w ->
  store_get (store (dispatch w e ok)) = Some d /\
  fromDocument d = persisted (st (dispatch w e ok)).
Proof.
  intros H0 Hr He Hw. destruct (dispatch_write w e ok d Hw) as [Hd Hs].
  rewrite Hs, store_get_set. split; [reflexivity|].
  destruct (reachable_wf s0 _ H0 (reach_step _ _ w e ok Hr He)) as ((Hm & _) & Ht & _).
  rewrite Hd. apply roundtrip_iff, multiple_persistable; assumption.
Qed.

End Wf.

#[local] Existing Instance en_US.

Lemma reachable_persistable_witness :
  world_wf alice_bob_settled /\ persistable (st alice_bob_settled) = true.
Proof.
  apply (reachable_persistable None); [intros d H; discriminate H | apply alice_bob_reachable].
Defined.

Lemma write_reads_back_witness :
  store_get (store alice_bob_settled) = Some (toDocument (st alice_bob_settled)) /\
  fromDocument (toDocument (st alice_bob_settled)) = persisted (st alice_bob_settled).
Proof.
  apply (write_reads_back None alice_bob (SettleClick nov9) true).
  - intros d H. discriminate H.
  - unfold alice_bob, run. cbn [fold_left fst snd].
    repeat (apply reach_step; [|exact I]). apply reach_mount.
  - exact I.
  - vm_compute. reflexivity.
Defined.
