(* ===== verification/Refinement.v ===== *)
(** * The ledger refines an exact integer ledger

    The spec speaks of amounts in rupees and of settling 6000 at a time; the
    code computes with binary64 floats.  [IntLedger] is the specification
    with exact integers: a list of amounts and a settled sum, with the two
    operations of the spec.  The relation [refines] ties a component state
    to it: every stored amount and the settled amount are the floats of the
    integers, and the integer ledger stays non-negative and below [2^53].
    Under it the float [totalAmount], [remaining] and the settle guard of
    App.js lines 79-83 and 129 compute the exact values, and both handlers
    step the integer ledger.  The file also holds the invariant under which
    the component is never unmounted: month labels of the locale and of the
    documents read avoid the prototype's property names. *)

From S2P Require Import Prelude JsNumber Exactness Clock Ledger Grouping Persistence App.

Open Scope Z_scope.

(** ** The specification *)

Module IntLedger.

Record t := {
  amounts : list Z;
  settled : Z;
}.

Definition SETTLE : Z := 6000.

Definition total (a : t) : Z := fold_left Z.add (amounts a) 0.

Definition remaining (a : t) : Z := total a - settled a.

Definition can_settle (a : t) : bool := SETTLE <=? remaining a.

Definition add (v : Z) (a : t) : t := {| amounts := amounts a ++ [v]; settled := settled a |}.

Definition settle (a : t) : t :=
  if can_settle a then {| amounts := amounts a; settled := settled a + SETTLE |} else a.

(** Amounts are non-negative, the settled sum never exceeds the total, and
    the total is a safe integer. *)
Definition wf (a : t) : Prop :=
  Forall (fun v => 0 <= v) (amounts a) /\ 0 <= settled a <= total a /\ total a < SAFE.

End IntLedger.

(** The float ledger of a state is the integer ledger [a]. *)
Definition refines (st : state) (a : IntLedger.t) : Prop :=
  map Donation.amount (donations st) = map of_Z (IntLedger.amounts a) /\
  settledAmount st = of_Z (IntLedger.settled a) /\ IntLedger.wf a.

(** ** Integer sums *)

Lemma fold_add_acc l : forall acc, fold_left Z.add l acc = acc + fold_left Z.add l 0.
Proof.
  induction l as [|x l IH]; intros acc; cbn [fold_left]; [lia|].
  rewrite (IH (acc + x)), (IH (0 + x)). lia.
Qed.

Lemma fold_add_nonneg l : Forall (fun v => 0 <= v) l -> 0 <= fold_left Z.add l 0.
Proof.
  induction 1 as [|x l Hx Hl IH]; cbn [fold_left]; [lia|].
  rewrite fold_add_acc. lia.
Qed.

Lemma total_add v a : IntLedger.total (IntLedger.add v a) = IntLedger.total a + v.
Proof. unfold IntLedger.total, IntLedger.add. cbn. now rewrite fold_left_app. Qed.

(** The float fold of line 79 over amounts that are floats of non-negative
    integers is the float of the integer sum, while that sum is safe. *)
Lemma float_fold_exact ds l : forall acc,
  map Donation.amount ds = map of_Z l -> Forall (fun v => 0 <= v) l ->
  0 <= acc -> fold_left Z.add l acc < SAFE ->
  fold_left (fun sum entry => js_add sum (Donation.amount entry)) ds (of_Z acc)
  = of_Z (fold_left Z.add l acc).
Proof.
  revert l. induction ds as [|d ds IH]; intros [|v l] acc Hm Hl Hacc Hs; try discriminate;
    [reflexivity|].
  injection Hm as Hd Hm. inversion Hl as [|? ? Hv Hl']; subst. cbn [fold_left] in *.
  rewrite fold_add_acc in Hs. pose proof (fold_add_nonneg l Hl').
  rewrite Hd, js_add_of_Z by lia. apply IH; try assumption; [lia|].
  rewrite fold_add_acc. lia.
Qed.

Section Exact.
Variables (st : state) (a : IntLedger.t).
Hypothesis R : refines st a.

Lemma totalAmount_exact : totalAmount (donations st) = of_Z (IntLedger.total a).
Proof.
  destruct R as (Hm & _ & Hl & _ & Hs). unfold totalAmount, IntLedger.total in *.
  apply float_fold_exact; assumption || lia.
Qed.

Lemma remaining_exact : remaining st = of_Z (IntLedger.remaining a).
Proof.
  pose proof R as (_ & Hs & Hl & Hset & Hsafe). unfold remaining, IntLedger.remaining.
  rewrite totalAmount_exact, Hs. pose proof (fold_add_nonneg _ Hl).
  apply js_sub_of_Z; unfold IntLedger.total in *; lia.
Qed.

Lemma settle_guard_exact :
  js_ge (remaining st) SETTLE_AMOUNT = IntLedger.can_settle a /\
  settleDisabled st = negb (IntLedger.can_settle a).
Proof.
  pose proof R as (_ & _ & Hl & Hset & Hsafe). pose proof (fold_add_nonneg _ Hl).
  unfold settleDisabled, IntLedger.can_settle, SETTLE_AMOUNT, IntLedger.SETTLE.
  rewrite remaining_exact, js_ge_of_Z, js_lt_of_Z;
    unfold IntLedger.remaining, IntLedger.total, SAFE, prec in *; lia.
Qed.

End Exact.

Lemma refines_wf st a : refines st a -> IntLedger.wf a.
Proof. intros (_ & _ & H). exact H. Qed.

Lemma digit_string_nonempty s : digit_string s = true -> s <> ""%string.
Proof. intros H ->. discriminate. Qed.

Lemma digit_value_nonneg s : digit_string s = true -> 0 <= decimal_value s.
Proof.
  unfold digit_string. intros H. bool_facts.
  apply decimal_value_from_nonneg; [lia | assumption].
Qed.

(** ** The handlers step the integer ledger *)

Section Handlers.
Context `{L : LocaleFormat}.

Lemma settle_refines now st a :
  refines st a -> refines (apply_updates st (handleSettle now st)) (IntLedger.settle a).
Proof.
  intros R. pose proof R as (Hm & Hs & Hl & Hset & Hsafe).
  destruct (settle_guard_exact st a R) as [Hg _].
  unfold IntLedger.settle. rewrite <- Hg.
  destruct (settle_updates now st) as [[E ->] | [E ->]]; rewrite E; [exact R|].
  unfold IntLedger.can_settle, IntLedger.remaining, IntLedger.SETTLE in Hg. rewrite E in Hg.
  symmetry in Hg. apply Z.leb_le in Hg.
  refine (conj Hm (conj _ (conj Hl _))); cbn [settledAmount IntLedger.settled].
  - rewrite Hs. unfold SETTLE_AMOUNT, IntLedger.SETTLE.
    apply js_add_of_Z; unfold IntLedger.total, SAFE, prec in *; lia.
  - unfold IntLedger.total, IntLedger.SETTLE in *. cbn [IntLedger.amounts]. lia.
Qed.

Lemma add_refines now st a :
  refines st a -> name st <> ""%string -> digit_string (amount st) = true ->
  IntLedger.total a + decimal_value (amount st) < SAFE ->
  refines (apply_updates st (handleAddDonation now st))
          (IntLedger.add (decimal_value (amount st)) a).
Proof.
  intros R Hn Hd Hb. pose proof R as (Hm & Hs & Hl & Hset & Hsafe).
  pose proof (digit_value_nonneg _ Hd) as Hv.
  rewrite add_updates_valid; [|exact Hn|now apply digit_string_nonempty|].
  2: { unfold isNaN. rewrite StringToNumber_digits by exact Hd. apply of_Z_not_nan. }
  unfold refines, IntLedger.wf. rewrite total_add. cbn [donations settledAmount IntLedger.add IntLedger.amounts IntLedger.settled].
  rewrite !map_app, Hm. cbn [map]. unfold newDonation. cbn [Donation.amount].
  rewrite parseFloat_digits by exact Hd.
  repeat split; try assumption; try lia. apply Forall_app. split; [exact Hl|]. repeat constructor. exact Hv.
Qed.

End Handlers.

(** ** Month labels of the locale *)

(** What the render needs of the locale: a month label never names a
    property of [Object.prototype], so the grouping never throws. *)
Class MonthLabelsOrdinary (L : LocaleFormat) := {
  month_label_ordinary d : mem_string (format_month_year d) object_prototype_names = false;
}.

(** "November 2026" has a space; no property name of the prototype has. *)
#[export] Instance en_US_ordinary : MonthLabelsOrdinary en_US.
Proof.
  constructor. intros d. cbn [format_month_year en_US]. unfold en_US_month_year.
  destruct (mem_string _ _) eqn:E; [|reflexivity]. exfalso.
  apply mem_string_In in E.
  assert (Hs : forallb (fun n => negb (has_space n)) object_prototype_names = true) by reflexivity.
  rewrite forallb_forall in Hs. specialize (Hs _ E).
  rewrite !has_space_app in Hs. cbn [has_space Ascii.eqb] in Hs. rewrite orb_true_r in Hs.
  discriminate.
Qed.

(** ** A commit always shows the updated state *)

Lemma sets_donations_keeps st us :
  sets_donations us = false -> donations (apply_updates st us) = donations st.
Proof.
  unfold apply_updates. revert st. induction us as [|u us IH]; intros st H; [reflexivity|].
  destruct u; cbn in H |- *; try discriminate; rewrite IH by exact H; reflexivity.
Qed.

Lemma option_string_eqb_eq a b : option_string_eqb a b = true -> a = b.
Proof.
  destruct a, b; cbn; try discriminate; [|reflexivity]. intros H. bool_facts. reflexivity.
Qed.

(** React skips the render only when no slot changed: the state it keeps is
    the updated one. *)
Lemma unchanged_state st us :
  state_changed st (apply_updates st us) us = false -> apply_updates st us = st.
Proof.
  unfold state_changed, deps_changed. intros H.
  repeat rewrite orb_false_iff in H. rewrite !negb_false_iff in H.
  destruct H as (((((Hd & Hs) & Hl) & Hn) & Ha) & He).
  apply (sets_donations_keeps st) in Hd. apply object_is_eq in Hs.
  apply option_string_eqb_eq in Hl, He. apply String.eqb_eq in Hn, Ha.
  destruct st, (apply_updates _ us); cbn in *; subst; reflexivity.
Qed.

Section Commit.
Context {S : Type} `{Store : DocumentStore S} `{L : LocaleFormat}.

Lemma commit_st_exact (w : world) us ok : st (commit w us ok) = apply_updates (st w) us.
Proof.
  unfold commit, save_effect.
  destruct (state_changed _ _ _) eqn:E; cbn [negb];
    [repeat (case_if; cbn [st]); reflexivity | symmetry; apply unchanged_state, E].
Qed.

Lemma commit_mounted_ok (w : world) us ok :
  mounted w = true -> render_ok (apply_updates (st w) us) = true ->
  mounted (commit w us ok) = true.
Proof.
  intros Hm Hr. unfold commit, save_effect. rewrite Hr.
  repeat (case_if; cbn [mounted]); assumption || reflexivity.
Qed.

Lemma commit_mounted (w : world) us ok :
  mounted w = true -> proto_free (donations (apply_updates (st w) us)) = true ->
  mounted (commit w us ok) = true.
Proof. intros Hm Hp. apply commit_mounted_ok; [exact Hm|apply render_ok_proto_free, Hp]. Qed.

End Commit.

(** ** User intents and the events that carry them *)

(** The spec's operations (§4.2, §4.3): an addition with the typed name and
    amount text, a settlement, and a month toggle. *)
Inductive intent :=
| AddContribution (nm amt : string) (now : date)
| Settle (now : date)
| Toggle (m : string).

(** The UI events by which the user performs an intent: type the name, type
    the amount, click the button. *)
Definition intent_events (i : intent) : list event :=
  match i with
  | AddContribution nm amt now => [NameInput nm; AmountInput amt; AddClick now]
  | Settle now => [SettleClick now]
  | Toggle m => [MonthClick m]
  end.

(** The amounts the refinement covers: whole rupees typed as digits, or
    nothing. *)
Definition in_domain (i : intent) : bool :=
  match i with
  | AddContribution _ amt _ => String.eqb amt "" || digit_string amt
  | _ => true
  end.

Definition spec_step (a : IntLedger.t) (i : intent) : IntLedger.t :=
  match i with
  | AddContribution nm amt _ =>
      if negb (String.eqb nm "") && digit_string amt then IntLedger.add (decimal_value amt) a else a
  | Settle _ => IntLedger.settle a
  | Toggle _ => a
  end.

Definition IntLedger_empty : IntLedger.t := {| IntLedger.amounts := []; IntLedger.settled := 0 |}.

Lemma spec_step_total a i : IntLedger.total a <= IntLedger.total (spec_step a i).
Proof.
  destruct i as [nm amt now|now|m]; cbn [spec_step].
  - destruct (negb _ && digit_string amt) eqn:E; [|lia]. bool_facts.
    rewrite total_add. pose proof (digit_value_nonneg amt H0). lia.
  - unfold IntLedger.settle. destruct (IntLedger.can_settle a); reflexivity.
  - lia.
Qed.

Lemma spec_fold_total its : forall a, IntLedger.total a <= IntLedger.total (fold_left spec_step its a).
Proof.
  induction its as [|i its IH]; intros a; cbn [fold_left]; [lia|].
  pose proof (spec_step_total a i). specialize (IH (spec_step a i)). lia.
Qed.

Lemma run_app {S} `{DocumentStore S} `{LocaleFormat} (w : world) l1 l2 :
  run w (l1 ++ l2) = run (run w l1) l2.
Proof. unfold run. apply fold_left_app. Qed.

Lemma proto_free_snoc ds d :
  proto_free ds = true -> mem_string (Donation.month d) object_prototype_names = false ->
  proto_free (ds ++ [d]) = true.
Proof.
  intros H Hd. unfold proto_free in *. rewrite forallb_app, H. cbn [forallb]. now rewrite Hd.
Qed.

Section World.
Context {S : Type} `{Store : DocumentStore S} `{L : LocaleFormat} `{Ord : !MonthLabelsOrdinary L}.

(** The component is mounted, its render does not throw, and its ledger is
    the integer ledger [a]. *)
Definition refines_world (w : @world S) (a : IntLedger.t) : Prop :=
  mounted w = true /\ proto_free (donations (st w)) = true /\ refines (st w) a.

Lemma commit_refines (w : world) us ok a :
  mounted w = true -> proto_free (donations (apply_updates (st w) us)) = true ->
  refines (apply_updates (st w) us) a -> refines_world (commit w us ok) a.
Proof.
  intros Hm Hp R. split; [apply commit_mounted; assumption|]. rewrite commit_st_exact. auto.
Qed.

Lemma name_input_step (w : world) a s ok :
  refines_world w a ->
  refines_world (dispatch w (NameInput s) ok) a /\
  name (st (dispatch w (NameInput s) ok)) = s /\
  amount (st (dispatch w (NameInput s) ok)) = amount (st w).
Proof.
  intros (Hm & Hp & R). cbn [dispatch]. rewrite Hm. cbn [negb].
  rewrite commit_st_exact. split; [apply commit_refines; assumption|auto].
Qed.

Lemma amount_input_step (w : world) a s ok :
  refines_world w a ->
  refines_world (dispatch w (AmountInput s) ok) a /\
  name (st (dispatch w (AmountInput s) ok)) = name (st w) /\
  amount (st (dispatch w (AmountInput s) ok)) = s.
Proof.
  intros (Hm & Hp & R). cbn [dispatch]. rewrite Hm. cbn [negb].
  rewrite commit_st_exact. split; [apply commit_refines; assumption|auto].
Qed.

Lemma add_click_step (w : world) a now ok :
  refines_world w a -> in_domain (AddContribution (name (st w)) (amount (st w)) now) = true ->
  IntLedger.total (spec_step a (AddContribution (name (st w)) (amount (st w)) now)) < SAFE ->
  refines_world (dispatch w (AddClick now) ok)
                (spec_step a (AddContribution (name (st w)) (amount (st w)) now)).
Proof.
  intros RW Hdom Hb. pose proof RW as (Hm & Hp & R). cbn [spec_step] in *.
  destruct (negb (name (st w) =? "")%string && digit_string (amount (st w))) eqn:E.
  - bool_facts. rewrite total_add in Hb. cbn [dispatch]. rewrite Hm. cbn [negb].
    apply commit_refines; [exact Hm| |apply add_refines; assumption].
    rewrite add_updates_valid by
      (assumption || now apply digit_string_nonempty ||
       (unfold isNaN; rewrite StringToNumber_digits by assumption; apply of_Z_not_nan)).
    apply proto_free_snoc; [exact Hp|apply month_label_ordinary].
  - cbn [in_domain] in Hdom.
    assert (Hinv : handleAddDonation now (st w) = []).
    { apply add_updates_invalid.
      destruct (String.eqb_spec (name (st w)) ""); [now left|].
      destruct (String.eqb_spec (amount (st w)) ""); [now right; left|].
      cbn [orb] in Hdom. rewrite Hdom, andb_true_r in E. cbn in E. congruence. }
    cbn [dispatch]. rewrite Hm. cbn [negb]. rewrite Hinv, commit_no_updates. exact RW.
Qed.

Lemma settle_click_step (w : world) a now ok :
  refines_world w a -> refines_world (dispatch w (SettleClick now) ok) (IntLedger.settle a).
Proof.
  intros RW. pose proof RW as (Hm & Hp & R).
  destruct (settle_guard_exact _ _ R) as [_ Hd]. pose proof (settle_refines now _ _ R) as Hs.
  cbn [dispatch]. rewrite Hm, Hd. cbn [negb]. unfold IntLedger.settle in *.
  destruct (IntLedger.can_settle a); cbn [negb]; [|exact RW].
  apply commit_refines; [exact Hm| |exact Hs].
  destruct (settle_updates now (st w)) as [[_ ->] | [_ ->]]; exact Hp.
Qed.

Lemma toggle_step (w : world) a m ok :
  refines_world w a -> refines_world (dispatch w (MonthClick m) ok) a.
Proof.
  intros RW. pose proof RW as (Hm & Hp & R). cbn [dispatch]. rewrite Hm. cbn [negb].
  destruct (month_shown (st w) m); [|exact RW]. apply commit_refines; assumption.
Qed.

Lemma intent_step (w : world) a i evs :
  refines_world w a -> in_domain i = true -> IntLedger.total (spec_step a i) < SAFE ->
  map fst evs = intent_events i -> refines_world (run w evs) (spec_step a i).
Proof.
  intros RW Hdom Hb Hev. destruct i as [nm amt now|now|m].
  - destruct evs as [|[e1 o1] [|[e2 o2] [|[e3 o3] [|]]]]; cbn in Hev; try discriminate.
    injection Hev as -> -> ->. unfold run. cbn [fold_left fst snd].
    destruct (name_input_step w a nm o1 RW) as (R1 & N1 & _).
    destruct (amount_input_step _ a amt o2 R1) as (R2 & N2 & A2).
    pose proof (add_click_step _ a now o3 R2) as H. rewrite N2, N1, A2 in H. auto.
  - destruct evs as [|[e1 o1] [|]]; cbn in Hev; try discriminate. injection Hev as ->.
    apply settle_click_step, RW.
  - destruct evs as [|[e1 o1] [|]]; cbn in Hev; try discriminate. injection Hev as ->.
    apply toggle_step, RW.
Qed.

Lemma trace_step its evss :
  Forall2 (fun i evs => map fst evs = intent_events i) its evss ->
  forall (w : world) a, refines_world w a -> forallb in_domain its = true ->
  IntLedger.total (fold_left spec_step its a) < SAFE ->
  refines_world (run w (concat evss)) (fold_left spec_step its a).
Proof.
  induction 1 as [|i evs its evss Hev _ IH]; intros w a RW Hdom Hb; [exact RW|].
  cbn [concat fold_left forallb] in *. apply andb_prop in Hdom as [Hi Hdom].
  rewrite run_app. pose proof (spec_fold_total its (spec_step a i)).
  apply IH; [apply intent_step|..]; assumption || lia.
Qed.

Lemma mount_refines (s0 : S) : refines_world (mount s0) IntLedger_empty.
Proof.
  repeat split; cbn; try reflexivity; try constructor; discriminate.
Qed.

End World.

(** ** The component never unmounts *)

(** A document none of whose donations has a prototype name as month. *)
Definition doc_proto_free (d : document) : Prop :=
  proto_free (or_empty (doc_donations d)) = true.

Section Mounted.
Context {S : Type} `{Store : DocumentStore S} `{Laws : !DocumentStoreLaws S}
        `{L : LocaleFormat} `{Ord : !MonthLabelsOrdinary L}.

Lemma add_donations now st :
  donations (apply_updates st (handleAddDonation now st)) = donations st \/
  donations (apply_updates st (handleAddDonation now st)) = donations st ++ [newDonation now st].
Proof.
  destruct (String.eqb_spec (name st) "") as [Hn|Hn];
    [left; now rewrite add_updates_invalid by auto|].
  destruct (String.eqb_spec (amount st) "") as [Ha|Ha];
    [left; now rewrite add_updates_invalid by auto|].
  destruct (isNaN (amount st)) eqn:Hi; [left; now rewrite add_updates_invalid by auto|].
  right. now rewrite add_updates_valid.
Qed.

(** Mounted, with a proto-free ledger, over a store of proto-free documents. *)
Definition mounted_inv (w : @world S) : Prop :=
  mounted w = true /\ proto_free (donations (st w)) = true /\
  forall d, store_get (store w) = Some d -> doc_proto_free d.

Lemma commit_mounted_inv (w : world) us ok :
  mounted w = true -> (forall d, store_get (store w) = Some d -> doc_proto_free d) ->
  proto_free (donations (apply_updates (st w) us)) = true -> mounted_inv (commit w us ok).
Proof.
  intros Hm Hs Hp. split; [apply commit_mounted; assumption|].
  rewrite commit_st_exact. split; [exact Hp|].
  destruct (commit_store w us ok) as [[-> _]|(_ & _ & _ & -> & _)]; [exact Hs|].
  rewrite store_get_set. intros d [= <-]. exact Hp.
Qed.

Lemma dispatch_mounted_inv P (w : world) e ok :
  (forall d, P d -> doc_proto_free d) -> external_ok P e ->
  mounted_inv w -> mounted_inv (dispatch w e ok).
Proof.
  intros HP He (Hm & Hp & Hs).
  destruct e as [s|s|now|now|m|res|d]; cbn [dispatch]; rewrite ?Hm; cbn [negb].
  1-2: apply commit_mounted_inv; auto; now rewrite sets_donations_keeps.
  - apply commit_mounted_inv; auto.
    destruct (add_donations now (st w)) as [->| ->]; [exact Hp|].
    apply proto_free_snoc; [exact Hp | apply month_label_ordinary].
  - destruct (settleDisabled (st w)); [split; auto|]. apply commit_mounted_inv; auto.
    destruct (settle_updates now (st w)) as [[_ ->]|[_ ->]]; exact Hp.
  - destruct (month_shown (st w) m); [|split; auto].
    apply commit_mounted_inv; auto; now rewrite sets_donations_keeps.
  - destruct (fetchPending w); [|split; auto]. unfold fetch_settled.
    apply commit_mounted_inv; auto.
    destruct res; [|exact Hp]. destruct (store_get (store w)) as [d|] eqn:E; [|exact Hp].
    exact (Hs d eq_refl).
  - split; [reflexivity|]. split; [exact Hp|]. cbn [store]. rewrite store_get_set.
    intros d' [= <-]. apply HP, He.
Qed.

Lemma reachable_mounted_inv P s0 (w : world) :
  (forall d, store_get s0 = Some d -> doc_proto_free d) -> (forall d, P d -> doc_proto_free d) ->
  reachable P s0 w -> mounted_inv w.
Proof.
  intros H0 HP. induction 1 as [|w e ok Hr IH Hext].
  - split; [reflexivity|]. split; [reflexivity|exact H0].
  - now apply (dispatch_mounted_inv P).
Qed.

End Mounted.

Lemma settle_iter_spec now k : forall a,
  Z.of_nat k * 6000 <= IntLedger.remaining a ->
  fold_left spec_step (repeat (Settle now) k) a =
  {| IntLedger.amounts := IntLedger.amounts a;
     IntLedger.settled := IntLedger.settled a + Z.of_nat k * 6000 |}.
Proof.
  induction k as [|k IH]; intros a H.
  - destruct a. cbn. f_equal. lia.
  - cbn [repeat fold_left spec_step]. unfold IntLedger.settle.
    replace (IntLedger.can_settle a) with true
      by (symmetry; apply Z.leb_le; unfold IntLedger.SETTLE; lia).
    unfold IntLedger.SETTLE. rewrite IH; cbn [IntLedger.amounts IntLedger.settled]; [f_equal; lia|].
    unfold IntLedger.remaining, IntLedger.total in *. cbn [IntLedger.amounts IntLedger.settled]. lia.
Qed.

Lemma settle_clicks_forall2 now (evs : list (event * bool)) : forall k,
  map fst evs = repeat (SettleClick now) k ->
  Forall2 (fun i evs => map fst evs = intent_events i) (repeat (Settle now) k) (map (fun e => [e]) evs).
Proof.
  induction evs as [|e evs IH]; intros [|k] H; cbn in H; try discriminate; constructor.
  - injection H as H _. cbn. now rewrite H.
  - apply IH. now injection H.
Qed.

Lemma concat_singletons {A} (l : list A) : concat (map (fun e => [e]) l) = l.
Proof. induction l as [|x l IH]; cbn; [reflexivity|]. now rewrite IH. Qed.

(** ** Claims *)

(** C24: under the refinement, the render computes the exact values: the
    total of line 79 is the integer sum, the remaining amount of line 80 is
    the exact difference, and the settle button of line 129 is disabled
    exactly when the exact remaining amount is below 6000. *)
Theorem ledger_view_exact st a :
  refines st a ->
  totalAmount (donations st) = of_Z (IntLedger.total a) /\
  remaining st = of_Z (IntLedger.remaining a) /\
  settleDisabled st = negb (IntLedger.can_settle a).
Proof.
  intros R. split; [apply totalAmount_exact, R|]. split; [apply remaining_exact, R|].
  apply (settle_guard_exact st a R).
Qed.

Section HandlerClaims.
Context `{L : LocaleFormat}.

(** C25: adding a donation whose amount is typed as decimal digits, under a
    non-empty name, steps the integer ledger by exactly that amount while
    the total stays below [2^53]. *)
Theorem handleAddDonation_refines now st a :
  refines st a -> name st <> ""%string -> digit_string (amount st) = true ->
  IntLedger.total a + decimal_value (amount st) < SAFE ->
  refines (apply_updates st (handleAddDonation now st))
          (IntLedger.add (decimal_value (amount st)) a).
Proof. apply add_refines. Qed.

(** C26: the settle handler steps the integer ledger: it settles exactly
    6000 when the exact remaining amount is at least 6000 and otherwise
    does nothing, and the settled sum never exceeds the total. *)
Theorem handleSettle_refines now st a :
  refines st a -> refines (apply_updates st (handleSettle now st)) (IntLedger.settle a).
Proof. apply settle_refines. Qed.

End HandlerClaims.

Section TraceClaims.
Context {S : Type} `{Store : DocumentStore S} `{L : LocaleFormat} `{Ord : !MonthLabelsOrdinary L}.

(** C27: from the first render, any sequence of additions (whole amounts
    typed as digits, or nothing), settlements and month toggles, each made
    through its UI events, keeps the component mounted and its ledger equal
    to the integer ledger of the spec, while the total stays below [2^53].
    The trace has no read settlement: it is the session's life while its
    [getDoc] is pending, in which the save effect
    issues no write, so the write outcomes it carries play no part. *)
Theorem ui_trace_refines (s0 : S) its evss :
  Forall2 (fun i evs => map fst evs = intent_events i) its evss ->
  forallb in_domain its = true ->
  IntLedger.total (fold_left spec_step its IntLedger_empty) < SAFE ->
  refines_world (run (mount s0) (concat evss)) (fold_left spec_step its IntLedger_empty).
Proof.
  intros H Hd Hb. apply trace_step; [exact H | apply mount_refines | exact Hd | exact Hb].
Qed.

(** C29: the settle button stays available until the remaining amount drops
    below 6000: [remaining / 6000] clicks settle 6000 each, after which the
    button is disabled. *)
Theorem settle_clicks_drain (w : world) a now evs :
  refines_world w a ->
  map fst evs = repeat (SettleClick now) (Z.to_nat (IntLedger.remaining a / 6000)) ->
  settledAmount (st (run w evs)) = of_Z (IntLedger.settled a + 6000 * (IntLedger.remaining a / 6000)) /\
  settleDisabled (st (run w evs)) = true.
Proof.
  intros RW Hev. pose proof RW as (_ & _ & _ & _ & _ & Hset & Hsafe).
  assert (0 <= IntLedger.remaining a / 6000) by (apply Z.div_pos; unfold IntLedger.remaining; lia).
  pose proof (Z.mul_div_le (IntLedger.remaining a) 6000 ltac:(lia)).
  pose proof (Z.mod_pos_bound (IntLedger.remaining a) 6000 ltac:(lia)).
  pose proof (Z.div_mod (IntLedger.remaining a) 6000 ltac:(lia)).
  rewrite <- (concat_singletons evs).
  pose proof (settle_iter_spec now (Z.to_nat (IntLedger.remaining a / 6000)) a) as Hit.
  rewrite Z2Nat.id in Hit by assumption. specialize (Hit ltac:(lia)).
  destruct (trace_step _ _ (settle_clicks_forall2 now evs _ Hev) w a RW) as (_ & _ & R);
    [apply forallb_forall; intros i Hi; apply repeat_spec in Hi; now subst
    |rewrite Hit; exact Hsafe|].
  rewrite Hit in R. pose proof R as (_ & Hs & _). split; [rewrite Hs; cbn [IntLedger.settled]; f_equal; lia|].
  destruct (settle_guard_exact _ _ R) as [_ ->]. apply negb_true_iff, Z.leb_gt.
  unfold IntLedger.remaining, IntLedger.total, IntLedger.SETTLE in *. cbn [IntLedger.amounts IntLedger.settled]. lia.
Qed.

End TraceClaims.

(** ** The spec's scenario, in the en-US locale with the one-slot store *)

Ltac solve_refines :=
  unfold refines_world, refines, IntLedger.wf, IntLedger.total;
  repeat split; vm_compute; try reflexivity; try discriminate; repeat constructor; discriminate.

Definition alice_bob_ledger : IntLedger.t :=
  {| IntLedger.amounts := [3000; 3500]; IntLedger.settled := 0 |}.

Lemma ledger_view_exact_witness :
  totalAmount (donations (st alice_bob)) = of_Z (IntLedger.total alice_bob_ledger) /\
  remaining (st alice_bob) = of_Z (IntLedger.remaining alice_bob_ledger) /\
  settleDisabled (st alice_bob) = negb (IntLedger.can_settle alice_bob_ledger).
Proof. apply ledger_view_exact. solve_refines. Defined.

Lemma handleAddDonation_refines_witness :
  refines (apply_updates alice_typed (handleAddDonation nov9 alice_typed))
          (IntLedger.add (decimal_value (amount alice_typed)) IntLedger_empty).
Proof.
  apply handleAddDonation_refines; [solve_refines|discriminate|reflexivity|vm_compute; reflexivity].
Defined.

Lemma handleSettle_refines_witness :
  refines (apply_updates (st alice_bob) (handleSettle nov9 (st alice_bob)))
          (IntLedger.settle alice_bob_ledger).
Proof. apply handleSettle_refines. solve_refines. Defined.

Definition scenario_intents : list intent :=
  [AddContribution "Alice" "3000" nov9; AddContribution "Bob" "3500" nov9;
   Settle nov9; Settle nov9; Toggle "November 2026"].

Definition with_outcome (ok : bool) (i : intent) : list (event * bool) :=
  map (fun e => (e, ok)) (intent_events i).

Lemma ui_trace_refines_witness :
  refines_world (run (mount (None : option document)) (concat (map (with_outcome true) scenario_intents)))
                (fold_left spec_step scenario_intents IntLedger_empty).
Proof.
  apply ui_trace_refines; [repeat constructor | reflexivity | vm_compute; reflexivity].
Defined.

(** The month scenario of §8 of the spec, run through the component's
    UI events: Alice and Bob give in November 2026, Carol on 1 December; the
    render lists two month groups in first-insertion order, November's with
    Alice and Bob in insertion order (shown reversed when expanded), and
    December's with Carol. *)
Theorem spec_scenario_months :
  let nov20 := {| year := 2026; month_index := 10; day := 20; hours := 18; minutes := 5; seconds := 0 |} in
  let dec1 := {| year := 2026; month_index := 11; day := 1; hours := 9; minutes := 0; seconds := 0 |} in
  let w := run (mount (None : option document))
             (concat (map (with_outcome true)
                [AddContribution "Alice" "3000" nov9; AddContribution "Bob" "3500" nov20;
                 AddContribution "Carol" "100" dec1; Toggle "November 2026"])) in
  match groupedDonations (donations (st w)) with
  | Ok o =>
      map (fun e => (fst e, map Donation.name (snd e))) (object_entries o) =
        [("November 2026", ["Alice"; "Bob"]); ("December 2026", ["Carol"])] /\
      map Donation.name (visibleDonations (st w) "November 2026" (month_filter (donations (st w)) "November 2026"))
        = ["Bob"; "Alice"]
  | Throw _ => False
  end.
Proof. vm_compute. split; reflexivity. Qed.

Definition carol_13000 : world :=
  run (mount (None : option document)) (with_outcome true (AddContribution "Carol" "13000" nov9)).

Lemma settle_clicks_drain_witness :
  let a := {| IntLedger.amounts := [13000]; IntLedger.settled := 0 |} in
  settledAmount (st (run carol_13000 [(SettleClick nov9, true); (SettleClick nov9, false)])) =
    of_Z (IntLedger.settled a + 6000 * (IntLedger.remaining a / 6000)) /\
  settleDisabled (st (run carol_13000 [(SettleClick nov9, true); (SettleClick nov9, false)])) = true.
Proof. apply (settle_clicks_drain _ _ nov9); [solve_refines | reflexivity]. Defined.
