(* ===== verification/Display.v ===== *)
(** * The summary panel: the remaining amount and the settlement note

    Line 118 shows [remaining.toFixed(2)]; lines 120-124 show the last
    settlement time when there is one.  [toFixed] follows
    [Number.prototype.toFixed] of ECMAScript: NaN and the infinities print
    as words; a finite value below [10^21] in magnitude is scaled by
    [10^f] and rounded to the nearest integer, the larger one on a tie,
    then printed with a point before its last [f] digits; a value of at
    least [10^21] is printed by [Number::toString], which is a parameter
    here ([to_string_large]) because the code never reaches it for amounts
    below [2^53].  The digits of an integer are computed with fuel; the
    fuel [log2 n + 1] is enough because a number has no more decimal digits
    than binary ones ([integer_digits_fuel]).  The printer then returns the
    decimal representation of [n] (C22). *)

From S2P Require Import Prelude JsNumber Exactness Clock Ledger Grouping Persistence App Wellformed Refinement.
From Stdlib Require Import SpecFloat.

Open Scope Z_scope.

Definition digit_char (d : Z) : ascii := ascii_of_nat (48 + Z.to_nat d).

Fixpoint digits_fuel (fuel : nat) (n : Z) : string :=
  match fuel with
  | O => EmptyString
  | S f =>
      if n <? 10 then String (digit_char n) EmptyString
      else (digits_fuel f (n / 10) ++ String (digit_char (n mod 10)) EmptyString)%string
  end.

Definition integer_digits (n : Z) : string := digits_fuel (S (Z.to_nat (Z.log2 n))) n.

Lemma digits_fuel_stable f : forall g n, 0 <= n < 10 ^ Z.of_nat (S f) ->
  digits_fuel (S f + g) n = digits_fuel (S f) n.
Proof.
  induction f as [|f IH]; intros g n Hn; cbn [Nat.add digits_fuel].
  - replace (n <? 10) with true by (symmetry; apply Z.ltb_lt; cbn in Hn; lia). reflexivity.
  - destruct (Z.ltb_spec n 10); [reflexivity|]. f_equal.
    replace (S (f + g)) with (S f + g)%nat by lia. apply IH.
    split; [apply Z.div_pos; lia|]. apply Z.div_lt_upper_bound; [lia|].
    rewrite Nat2Z.inj_succ, Z.pow_succ_r in Hn by lia. rewrite Nat2Z.inj_succ. lia.
Qed.

Lemma pow2_le_pow10 k : 0 <= k -> 2 ^ k <= 10 ^ k.
Proof. intros Hk. apply Z.pow_le_mono_l. lia. Qed.

Lemma log2_fuel n : 0 <= n -> n < 10 ^ Z.of_nat (S (Z.to_nat (Z.log2 n))).
Proof.
  intros Hn. destruct (Z.eq_dec n 0) as [->|Hne]; [cbn; lia|].
  pose proof (Z.log2_spec n ltac:(lia)) as [_ H]. pose proof (Z.log2_nonneg n).
  rewrite Nat2Z.inj_succ, Z2Nat.id by lia.
  pose proof (pow2_le_pow10 (Z.succ (Z.log2 n)) ltac:(lia)). lia.
Qed.

Lemma integer_digits_fuel f n : 0 <= n -> (Z.to_nat (Z.log2 n) <= f)%nat ->
  digits_fuel (S f) n = integer_digits n.
Proof.
  intros Hn Hf. unfold integer_digits.
  replace (S f) with (S (Z.to_nat (Z.log2 n)) + (f - Z.to_nat (Z.log2 n)))%nat by lia.
  apply digits_fuel_stable. split; [lia|]. apply log2_fuel, Hn.
Qed.

Lemma digits_fuel_big f n : 10 <= n ->
  digits_fuel (S f) n = (digits_fuel f (n / 10) ++ String (digit_char (n mod 10)) EmptyString)%string.
Proof.
  intros H. cbn [digits_fuel]. replace (n <? 10) with false by (symmetry; apply Z.ltb_ge; lia).
  reflexivity.
Qed.

Lemma integer_digits_times_10 n : 0 < n ->
  integer_digits (n * 10) = (integer_digits n ++ "0")%string.
Proof.
  intros Hn. pose proof (Z.log2_le_mono (2 * n) (n * 10) ltac:(lia)) as Hm.
  rewrite Z.log2_double in Hm by lia. pose proof (Z.log2_nonneg n).
  rewrite <- (integer_digits_fuel (Z.to_nat (Z.log2 (n * 10))) (n * 10)) by lia.
  destruct (Z.to_nat (Z.log2 (n * 10))) as [|f] eqn:E; [lia|].
  rewrite digits_fuel_big, Z.div_mul, Z.mod_mul by lia.
  rewrite integer_digits_fuel by lia. reflexivity.
Qed.

(** ** The digit printer terminates with the decimal representation *)

Lemma digit_char_value d : 0 <= d < 10 ->
  Z.of_nat (nat_of_ascii (digit_char d)) - 48 = d /\ is_digit (digit_char d) = true.
Proof.
  intros H. unfold digit_char, is_digit. rewrite nat_ascii_embedding by lia.
  split; [lia|]. apply andb_true_intro. split; apply Nat.leb_le; lia.
Qed.

Lemma decimal_value_from_app a b : forall acc,
  decimal_value_from acc (a ++ b) = decimal_value_from (decimal_value_from acc a) b.
Proof. induction a as [|c a IH]; intros acc; cbn; [reflexivity|apply IH]. Qed.

Lemma all_digits_app a b : all_digits (a ++ b) = all_digits a && all_digits b.
Proof. induction a as [|c a IH]; cbn; [reflexivity|]. rewrite IH. apply andb_assoc. Qed.

Lemma digit_string_snoc a c :
  all_digits a = true -> is_digit c = true -> digit_string (a ++ String c EmptyString) = true.
Proof.
  intros Ha Hc. unfold digit_string. rewrite all_digits_app, Ha. cbn [all_digits]. rewrite Hc.
  destruct a; reflexivity.
Qed.

Lemma single_digit_value n : 0 <= n < 10 ->
  digit_string (String (digit_char n) EmptyString) = true /\
  decimal_value (String (digit_char n) EmptyString) = n.
Proof.
  intros Hn. destruct (digit_char_value n Hn) as [Hv Hd].
  split; [exact (digit_string_snoc "" _ eq_refl Hd)|]. unfold decimal_value. cbn [decimal_value_from]. lia.
Qed.

Lemma digits_fuel_value f : forall n, 0 <= n < 10 ^ Z.of_nat (S f) ->
  digit_string (digits_fuel (S f) n) = true /\ decimal_value (digits_fuel (S f) n) = n.
Proof.
  induction f as [|f IH]; intros n Hn.
  - cbn [digits_fuel]. replace (n <? 10) with true by (symmetry; apply Z.ltb_lt; cbn in Hn; lia).
    apply single_digit_value. cbn in Hn. lia.
  - destruct (Z.ltb_spec n 10) as [Hlt|Hge].
    + cbn [digits_fuel]. replace (n <? 10) with true by (symmetry; apply Z.ltb_lt; lia).
      apply single_digit_value. lia.
    + rewrite digits_fuel_big by exact Hge.
      destruct (IH (n / 10)) as [Hs Hv].
      { split; [apply Z.div_pos; lia|]. apply Z.div_lt_upper_bound; [lia|].
        rewrite Nat2Z.inj_succ, Z.pow_succ_r in Hn by lia. rewrite Nat2Z.inj_succ. lia. }
      pose proof (Z.mod_pos_bound n 10 ltac:(lia)) as Hm.
      destruct (digit_char_value (n mod 10) Hm) as [Hc Hd].
      split; [apply digit_string_snoc; [unfold digit_string in Hs; bool_facts; assumption|exact Hd]|].
      unfold decimal_value in *. rewrite decimal_value_from_app, Hv. cbn [decimal_value_from]. rewrite Hc.
      pose proof (Z.div_mod n 10 ltac:(lia)). lia.
Qed.

Lemma integer_digits_value n : 0 <= n ->
  digit_string (integer_digits n) = true /\ decimal_value (integer_digits n) = n.
Proof. intros Hn. apply digits_fuel_value. split; [exact Hn|]. apply log2_fuel, Hn. Qed.

(** ** [Number.prototype.toFixed] *)

Fixpoint zeros (k : nat) : string :=
  match k with O => EmptyString | S k' => String "0"%char (zeros k') end.

(** [n / 10^f - x] as close to zero as possible, the larger [n] on a tie:
    [floor (m * 2^e * 10^f + 1/2)]. *)
Definition scaled_round (m : positive) (e : Z) (f : nat) : Z :=
  let p := 10 ^ Z.of_nat f in
  if 0 <=? e then Zpos m * 2 ^ e * p
  else (2 * Zpos m * p + 2 ^ (- e)) / (2 * 2 ^ (- e)).

(** [m * 2^e >= 10^21] *)
Definition large (m : positive) (e : Z) : bool :=
  if 0 <=? e then 10 ^ 21 <=? Zpos m * 2 ^ e else 10 ^ 21 * 2 ^ (- e) <=? Zpos m.

(** Steps 11.b and 11.c: the digits of [n] with a point before the last [f]. *)
Definition fixed_point (n : Z) (f : nat) : string :=
  let m := if n =? 0 then "0"%string else integer_digits n in
  if (f =? 0)%nat then m
  else
    let k := String.length m in
    let m' := if (k <=? f)%nat then (zeros (f + 1 - k) ++ m)%string else m in
    let k' := String.length m' in
    (substring 0 (k' - f) m' ++ "." ++ substring (k' - f) f m')%string.

Section ToFixed.
(** [Number::toString], which [toFixed] calls on values of at least 10^21. *)
Variable to_string_large : number -> string.

Definition toFixed (x : number) (f : nat) : string :=
  match x with
  | S754_nan => "NaN"
  | S754_infinity false => "Infinity"
  | S754_infinity true => "-Infinity"
  | S754_zero _ => fixed_point 0 f
  | S754_finite s m e =>
      ((if s then "-" else "") ++
       (if large m e then to_string_large (S754_finite false m e)
        else fixed_point (scaled_round m e f) f))%string
  end.

(** [remaining.toFixed(2)] of line 118. *)
Definition remaining_label (st : state) : string := toFixed (remaining st) 2%nat.

End ToFixed.

(** [{lastSettledAt && <p>... {lastSettledAt}</p>}] of lines 120-124: the
    paragraph shows the time when it is a non-empty string. *)
Definition settled_note (st : state) : option string :=
  match lastSettledAt st with
  | Some s => if str_truthy s then Some s else None
  | None => None
  end.

(** Conformance with the JS engine: [(0.1 + 0.2).toFixed(2)] is "0.30",
    [(1.005).toFixed(2)] is "1.00" (1.005 is stored below itself),
    [(123.456).toFixed(2)] is "123.46", [(-0.001).toFixed(2)] is "-0.00",
    [(2.5).toFixed(0)] is "3", [(-1.5).toFixed(0)] is "-2", and NaN prints
    as "NaN". *)
Example toFixed_samples :
  let tf x f := toFixed (fun _ => EmptyString) x f in
  tf (js_add (parseFloat "0.1") (parseFloat "0.2")) 2%nat = "0.30"%string /\
  tf (parseFloat "1.005") 2%nat = "1.00"%string /\
  tf (parseFloat "123.456") 2%nat = "123.46"%string /\
  tf (parseFloat "-0.001") 2%nat = "-0.00"%string /\
  tf (parseFloat "2.5") 0%nat = "3"%string /\
  tf (parseFloat "-1.5") 0%nat = "-2"%string /\
  tf NaN 2%nat = "NaN"%string /\ tf (of_Z 0) 2%nat = "0.00"%string.
Proof. vm_compute. repeat split. Qed.

(** ** The remaining amount as displayed *)

Lemma substring_app_l a b : substring 0 (String.length a) (a ++ b) = a.
Proof. induction a as [|c a IH]; cbn; [destruct b; reflexivity|now rewrite IH]. Qed.

Lemma substring_app_r a b n : substring (String.length a) n (a ++ b) = substring 0 n b.
Proof. induction a as [|c a IH]; cbn; [reflexivity|exact IH]. Qed.

Lemma integer_digits_100 r : 0 < r ->
  integer_digits (r * 100) = (integer_digits r ++ "00")%string.
Proof.
  intros H. replace (r * 100) with (r * 10 * 10) by lia.
  rewrite !integer_digits_times_10, string_app_assoc by lia. reflexivity.
Qed.

Lemma fixed_point_int r : 0 < r ->
  fixed_point (r * 100) 2 = (integer_digits r ++ ".00")%string.
Proof.
  intros H. unfold fixed_point. replace (r * 100 =? 0) with false by (symmetry; apply Z.eqb_neq; lia).
  rewrite integer_digits_100 by exact H. cbn [Nat.eqb].
  rewrite string_length_app. cbn [String.length].
  replace (String.length (integer_digits r) + 2 <=? 2)%nat with false
    by (symmetry; apply Nat.leb_gt; unfold integer_digits; destruct (Z.to_nat (Z.log2 r));
        cbn [digits_fuel]; destruct (r <? 10); rewrite ?string_length_app; cbn; lia).
  rewrite string_length_app. cbn [String.length]. replace (String.length (integer_digits r) + 2 - 2)%nat
    with (String.length (integer_digits r)) by lia.
  rewrite substring_app_l, substring_app_r. reflexivity.
Qed.

(** A safe positive integer, printed with two decimals. *)
Lemma toFixed_int tsl r : 0 < r < SAFE ->
  toFixed tsl (of_Z r) 2 = (integer_digits r ++ ".00")%string.
Proof.
  intros Hr. rewrite of_Z_int by lia. replace (r <? 0) with false by (symmetry; apply Z.ltb_ge; lia).
  replace (Z.abs r) with r by lia.
  pose proof (Zdigits2_le_prec r Hr). pose proof (Zdigits2_pos r (proj1 Hr)).
  assert (Hp : 0 < 2 ^ (prec - Zdigits2 r)) by (apply Z.pow_pos_nonneg; lia).
  assert (Hm : Zpos (int_mant r) = r * 2 ^ (prec - Zdigits2 r)) by (unfold int_mant; rewrite Z2Pos.id; nia).
  assert (Hbig : r * 2 ^ (prec - Zdigits2 r) < 10 ^ 21 * 2 ^ (prec - Zdigits2 r))
    by (apply Z.mul_lt_mono_pos_r; [exact Hp|]; unfold SAFE, prec in *; lia).
  unfold int_repr, toFixed, large, scaled_round, int_exp. change (Z.of_nat 2) with 2.
  destruct (Z.leb_spec 0 (Zdigits2 r - prec)) as [He|He].
  - assert (E : Zdigits2 r = prec) by lia. rewrite E, Z.sub_diag in Hm |- *. rewrite Hm.
    cbn [Z.leb Z.compare]. rewrite Z.pow_0_r, !Z.mul_1_r.
    replace (10 ^ 21 <=? r) with false by (symmetry; apply Z.leb_gt; unfold SAFE, prec in *; lia).
    change (r * 10 ^ 2) with (r * 100). apply fixed_point_int. lia.
  - replace (- (Zdigits2 r - prec)) with (prec - Zdigits2 r) by lia. rewrite Hm.
    replace (10 ^ 21 * 2 ^ (prec - Zdigits2 r) <=? r * 2 ^ (prec - Zdigits2 r)) with false
      by (symmetry; apply Z.leb_gt; lia).
    replace (2 * (r * 2 ^ (prec - Zdigits2 r)) * 10 ^ 2 + 2 ^ (prec - Zdigits2 r))
      with ((200 * r + 1) * 2 ^ (prec - Zdigits2 r)) by ring.
    rewrite Z.div_mul_cancel_r by lia.
    replace ((200 * r + 1) / 2) with (r * 100) by (apply Z.div_unique with 1; lia).
    rewrite fixed_point_int by lia. reflexivity.
Qed.

(** C36: under the refinement by the integer ledger, line 118 shows the
    exact remaining amount with two zero decimals ("6500.00", "0.00"),
    whatever [Number::toString] does on huge values. *)
Theorem remaining_label_exact tsl st a :
  refines st a ->
  remaining_label tsl st =
    ((if (IntLedger.remaining a =? 0)%Z then "0" else integer_digits (IntLedger.remaining a)) ++ ".00")%string.
Proof.
  intros R. pose proof R as (_ & _ & Hl & Hset & Hsafe). unfold remaining_label.
  rewrite (remaining_exact st a R). unfold IntLedger.remaining in *.
  destruct (Z.eqb_spec (IntLedger.total a - IntLedger.settled a) 0) as [E|E].
  - rewrite E. reflexivity.
  - apply toFixed_int. lia.
Qed.

Lemma remaining_label_exact_witness :
  remaining_label (fun _ => EmptyString) (st alice_bob) =
    ((if (IntLedger.remaining alice_bob_ledger =? 0)%Z then "0"
      else integer_digits (IntLedger.remaining alice_bob_ledger)) ++ ".00")%string.
Proof. apply remaining_label_exact. solve_refines. Defined.

Lemma remaining_label_alice_bob :
  remaining_label (fun _ => EmptyString) (st alice_bob) = "6500.00"%string /\
  remaining_label (fun _ => EmptyString) (st alice_bob_settled) = "500.00"%string.
Proof. vm_compute. split; reflexivity. Qed.

Section Note.
Context {S : Type} `{Store : DocumentStore S} `{Laws : !DocumentStoreLaws S}
        `{L : LocaleFormat} `{LL : !LocaleFormatLaws L}.

(** C37: in every reachable world the "Settled on" paragraph of lines
    120-124 is shown exactly when a settlement time is stored, and shows
    that time: a stored time is never the empty string. *)
Theorem settled_note_shown s0 (w : world) :
  (forall d, store_get s0 = Some d -> doc_settled_ok d) ->
  reachable doc_settled_ok s0 w -> settled_note (st w) = lastSettledAt (st w).
Proof.
  intros H0 Hr. destruct (reachable_wf s0 w H0 Hr) as (_ & Ht & _).
  unfold settled_note. unfold time_ok in Ht.
  destruct (lastSettledAt (st w)); [now rewrite Ht | reflexivity].
Qed.

End Note.

Lemma settled_note_shown_witness :
  settled_note (st alice_bob_settled) = lastSettledAt (st alice_bob_settled).
Proof.
  apply (settled_note_shown None); [intros d H; discriminate H | apply alice_bob_reachable].
Defined.


