(* ===== verification/NumberString.v ===== *)
(** * [Number::toString]: the shortest decimal that converts back

    The member list prints each amount with [{donation.amount}] (App.js
    line 170), which is [Number::toString(x)] of ECMAScript (radix 10).  For a
    finite positive [x] it takes the least number [k] of significant digits
    for which some [s] with [10^(k-1) <= s < 10^k] converts back to [x]:
    [round_decimal false s (n - k) = x].  Among such [s] it takes the one
    nearest to [x], the even one on a tie.  It then writes [s] as an
    integer with zeros, as a decimal fraction, or with an exponent,
    depending on [n].  Only the two integers next to [x / 10^(n-k)] can be
    the nearest [s] that converts back, since the values that round to [x]
    form an interval around [x].  So the search tries [k = 1, ..., 17]
    with those two candidates.  Seventeen digits always suffice for
    binary64; the last step returns the nearest 17-digit candidate. *)

From S2P Require Import Prelude JsNumber Exactness Display.
From Stdlib Require Import SpecFloat.

Open Scope Z_scope.

(** A positive finite [m * 2^e] as a fraction [num / den]. *)
Definition fraction (m : positive) (e : Z) : Z * Z :=
  if 0 <=? e then (Zpos m * 2 ^ e, 1) else (Zpos m, 2 ^ (- e)).

(** [floor (log10 (num / den))] for a positive fraction: one less than the
    number of digits of its integer part when it is at least 1, otherwise
    minus the number of digits of [ceil (den / num) - 1]. *)
Definition floor_log10 (num den : Z) : Z :=
  if den <=? num then Z.of_nat (String.length (integer_digits (num / den))) - 1
  else - Z.of_nat (String.length (integer_digits ((den - 1) / num))).

(** [floor (num / den / 10^e)]. *)
Definition scaled_floor (num den e : Z) : Z :=
  if 0 <=? e then num / (den * 10 ^ e) else (num * 10 ^ (- e)) / den.

(** [s * 10^e] converts back to [x]. *)
Definition converts_back (x : number) (s e : Z) : bool :=
  match SFcompare (round_decimal false s e) x with Some Eq => true | _ => false end.

(** Of the candidates [q] and [q + 1], the one nearer to [num / den], the
    even one on a tie: compare [2 x] with [(2 q + 1) 10^e]. *)
Definition nearer (num den q e : Z) : Z :=
  let lhs := if 0 <=? e then 2 * num else 2 * num * 10 ^ (- e) in
  let rhs := if 0 <=? e then (2 * q + 1) * 10 ^ e * den else (2 * q + 1) * den in
  match Z.compare lhs rhs with
  | Lt => q
  | Gt => q + 1
  | Eq => if Z.even q then q else q + 1
  end.

(** [10^k * 10^e] is [10^(k-1) * 10^(e+1)], which has [k] digits. *)
Definition normalize (k s e : Z) : Z * Z :=
  if s =? 10 ^ k then (10 ^ (k - 1), e + 1) else (s, e).

(** The digits [s] and the exponent [e = n - k] for [k] significant
    digits, if some [s] converts back. *)
Definition try_digits (x : number) (num den d k : Z) : option (Z * Z) :=
  let e := d + 1 - k in
  let q := scaled_floor num den e in
  let lo := converts_back x q e in
  let hi := converts_back x (q + 1) e in
  if lo && hi then Some (normalize k (nearer num den q e) e)
  else if lo then Some (q, e)
  else if hi then Some (normalize k (q + 1) e)
  else None.

Fixpoint search (x : number) (num den d k : Z) (fuel : nat) : Z * Z :=
  match fuel with
  | O => normalize k (nearer num den (scaled_floor num den (d + 1 - k)) (d + 1 - k)) (d + 1 - k)
  | S f =>
      match try_digits x num den d k with
      | Some r => r
      | None => search x num den d (k + 1) f
      end
  end.

(** A digit string [s] of [k] digits at position [n], steps 6 to 9. *)
Definition format_decimal (ds : string) (n : Z) : string :=
  let k := Z.of_nat (String.length ds) in
  if (k <=? n) && (n <=? 21) then (ds ++ zeros (Z.to_nat (n - k)))%string
  else if (0 <? n) && (n <=? 21) then
    (substring 0 (Z.to_nat n) ds ++ "." ++ substring (Z.to_nat n) (Z.to_nat (k - n)) ds)%string
  else if (-6 <? n) && (n <=? 0) then ("0." ++ zeros (Z.to_nat (- n)) ++ ds)%string
  else
    let ex := n - 1 in
    let es := ((if (ex <? 0)%Z then "-" else "+") ++ integer_digits (Z.abs ex))%string in
    if k =? 1 then (ds ++ "e" ++ es)%string
    else (substring 0 1 ds ++ "." ++ substring 1 (Z.to_nat (k - 1)) ds ++ "e" ++ es)%string.

(** Digits with trailing zeros removed, as the least [k] gives them. *)
Definition number_to_string (x : number) : string :=
  match x with
  | S754_nan => "NaN"
  | S754_zero _ => "0"
  | S754_infinity false => "Infinity"
  | S754_infinity true => "-Infinity"
  | S754_finite neg m e =>
      let '(num, den) := fraction m e in
      let d := floor_log10 num den in
      let x' := S754_finite false m e in
      let '(s, e') := search x' num den d 1 16%nat in
      let ds := integer_digits s in
      ((if neg then "-" else "") ++ format_decimal ds (e' + Z.of_nat (String.length ds)))%string
  end.

(** ** On safe integers it prints the decimal digits *)

Lemma digits_fuel_length f : forall n, 0 < n < 10 ^ Z.of_nat (S f) ->
  10 ^ (Z.of_nat (String.length (digits_fuel (S f) n)) - 1) <= n <
  10 ^ Z.of_nat (String.length (digits_fuel (S f) n)).
Proof.
  induction f as [|f IH]; intros n Hn.
  - cbn [digits_fuel]. replace (n <? 10) with true by (symmetry; apply Z.ltb_lt; cbn in Hn; lia).
    cbn. lia.
  - destruct (Z.ltb_spec n 10) as [Hlt|Hge].
    + cbn [digits_fuel]. replace (n <? 10) with true by (symmetry; apply Z.ltb_lt; lia). cbn. lia.
    + rewrite digits_fuel_big by exact Hge. rewrite string_length_app. cbn [String.length].
      destruct (IH (n / 10)) as [H1 H2].
      { split; [apply Z.div_str_pos; lia|]. apply Z.div_lt_upper_bound; [lia|].
        rewrite Nat2Z.inj_succ, Z.pow_succ_r in Hn by lia. rewrite Nat2Z.inj_succ. lia. }
      rewrite Nat2Z.inj_add. change (Z.of_nat 1) with 1.
      set (l := Z.of_nat (String.length (digits_fuel (S f) (n / 10)))) in *.
      assert (Hl : 1 <= l).
      { assert (0 <= l) by apply Nat2Z.is_nonneg.
        destruct (Z.eq_dec l 0) as [E|]; [|lia]. rewrite E in H2. cbn in H2.
        pose proof (Z.div_le_lower_bound n 10 1 ltac:(lia) ltac:(lia)). lia. }
      replace (l + 1 - 1) with l by lia. rewrite Z.pow_add_r by lia. change (10 ^ 1) with 10.
      assert (Hp : 10 ^ l = 10 ^ (l - 1) * 10)
        by (replace l with (Z.succ (l - 1)) at 1 by lia; rewrite Z.pow_succ_r by lia; ring).
      pose proof (Z.mul_div_le n 10 ltac:(lia)). pose proof (Z.mod_pos_bound n 10 ltac:(lia)).
      pose proof (Z.div_mod n 10 ltac:(lia)). split; nia.
Qed.

(** [integer_digits n] has [len] digits with [10^(len-1) <= n < 10^len]. *)
Lemma integer_digits_length n : 0 < n ->
  10 ^ (Z.of_nat (String.length (integer_digits n)) - 1) <= n <
  10 ^ Z.of_nat (String.length (integer_digits n)).
Proof. intros Hn. apply digits_fuel_length. split; [exact Hn|]. apply log2_fuel. lia. Qed.

Lemma zeros_snoc j : (zeros j ++ "0")%string = zeros (S j).
Proof. induction j as [|j IH]; cbn; [reflexivity|]. now rewrite IH. Qed.

Lemma integer_digits_pow10 s j : 0 < s ->
  integer_digits (s * 10 ^ Z.of_nat j) = (integer_digits s ++ zeros j)%string.
Proof.
  intros Hs. induction j as [|j IH].
  - cbn. rewrite Z.mul_1_r, string_app_empty_r. reflexivity.
  - pose proof (Z.pow_pos_nonneg 10 (Z.of_nat j) ltac:(lia) ltac:(lia)).
    rewrite Nat2Z.inj_succ, Z.pow_succ_r by lia.
    replace (s * (10 * 10 ^ Z.of_nat j)) with (s * 10 ^ Z.of_nat j * 10) by ring.
    rewrite integer_digits_times_10, IH by nia.
    rewrite string_app_assoc, zeros_snoc. reflexivity.
Qed.

(** A safe integer as a fraction [n * den / den]. *)
Lemma of_Z_fraction n : 0 < n < SAFE -> exists m e,
  of_Z n = S754_finite false m e /\ fst (fraction m e) = n * snd (fraction m e) /\ 0 < snd (fraction m e).
Proof.
  intros Hn. rewrite of_Z_int by lia. unfold int_repr, int_mant, int_exp.
  replace (n <? 0) with false by (symmetry; apply Z.ltb_ge; lia). rewrite Z.abs_eq by lia.
  pose proof (Zdigits2_le_prec n Hn). pose proof (Zdigits2_pos n (proj1 Hn)).
  assert (Hp : 0 < 2 ^ (prec - Zdigits2 n)) by (apply Z.pow_pos_nonneg; lia).
  do 2 eexists. split; [reflexivity|]. unfold fraction. rewrite Z2Pos.id by nia.
  destruct (Z.leb_spec 0 (Zdigits2 n - prec)).
  - replace (prec - Zdigits2 n) with 0 by lia. replace (Zdigits2 n - prec) with 0 by lia. cbn. lia.
  - cbn [fst snd]. replace (- (Zdigits2 n - prec)) with (prec - Zdigits2 n) by lia. lia.
Qed.

Lemma round_decimal_of_Z s e : 0 < s -> 0 <= e <= 400 -> round_decimal false s e = of_Z (s * 10 ^ e).
Proof.
  intros Hs He. unfold round_decimal. replace (s =? 0) with false by (symmetry; apply Z.eqb_neq; lia).
  replace (400 <? e) with false by (symmetry; apply Z.ltb_ge; lia).
  replace (0 <=? e) with true by (symmetry; apply Z.leb_le; lia). reflexivity.
Qed.

Lemma converts_back_int n s e : 0 < n < SAFE -> 0 <= s -> 0 <= e -> s * 10 ^ e < SAFE ->
  converts_back (of_Z n) s e = (s * 10 ^ e =? n).
Proof.
  intros Hn Hs He Hse. unfold converts_back.
  assert (Hr : round_decimal false s e = of_Z (s * 10 ^ e)).
  { destruct (Z.eq_dec s 0) as [->|Hs0]; [reflexivity|].
    apply round_decimal_of_Z; [lia|split; [exact He|]].
    destruct (Z.le_gt_cases e 400) as [|H]; [assumption|exfalso].
    assert (10 ^ 16 <= 10 ^ e) by (apply Z.pow_le_mono_r; lia).
    unfold SAFE, prec in *. nia. }
  pose proof (Z.pow_pos_nonneg 10 e ltac:(lia) He).
  rewrite Hr, SFcompare_of_Z by (rewrite ?Z.abs_eq; nia).
  rewrite Z.eqb_compare. destruct (s * 10 ^ e ?= n); reflexivity.
Qed.

Lemma floor_log10_int n den : 0 < n -> 0 < den ->
  floor_log10 (n * den) den = Z.of_nat (String.length (integer_digits n)) - 1.
Proof.
  intros Hn Hd. unfold floor_log10. replace (den <=? n * den) with true by (symmetry; apply Z.leb_le; nia).
  rewrite Z.div_mul by lia. reflexivity.
Qed.

Lemma scaled_floor_int n den e : 0 < den -> 0 <= e -> scaled_floor (n * den) den e = n / 10 ^ e.
Proof.
  intros Hd He. unfold scaled_floor. replace (0 <=? e) with true by (symmetry; apply Z.leb_le; lia).
  rewrite (Z.mul_comm n den). apply Z.div_mul_cancel_l; [apply Z.pow_nonzero; lia|lia].
Qed.

(** On an integer the search stops at the first [k] for which [10^(D+1-k)]
    divides [n], with [s * 10^e = n]; it never needs a fractional digit. *)
Lemma search_int n den D : 0 < n < 2 ^ 52 -> 0 < den -> 0 <= D -> 10 ^ D <= n ->
  forall f k s e, 1 <= k <= D + 1 -> D + 1 - k < Z.of_nat f ->
  search (of_Z n) (n * den) den D k f = (s, e) -> s * 10 ^ e = n /\ 0 <= e /\ 0 < s.
Proof.
  intros Hn Hd HD Hpow f. induction f as [|f IH]; intros k s e Hk Hf Es; [lia|].
  cbn [search] in Es. unfold try_digits in Es.
  assert (He : 0 <= D + 1 - k) by lia.
  rewrite scaled_floor_int in Es by assumption.
  set (ex := D + 1 - k) in *. set (q := n / 10 ^ ex) in *.
  assert (Hp : 0 < 10 ^ ex) by (apply Z.pow_pos_nonneg; lia).
  assert (Hle : 10 ^ ex <= 10 ^ D) by (apply Z.pow_le_mono_r; lia).
  pose proof (Z.mul_div_le n (10 ^ ex) Hp) as Hq1.
  pose proof (Z.mul_succ_div_gt n (10 ^ ex) Hp) as Hq2. fold q in Hq1, Hq2.
  assert (Hq0 : 0 <= q) by (apply Z.div_pos; lia).
  rewrite (converts_back_int n q ex), (converts_back_int n (q + 1) ex) in Es
    by (unfold SAFE, prec; lia || nia).
  replace ((q + 1) * 10 ^ ex =? n) with false in Es by (symmetry; apply Z.eqb_neq; nia).
  rewrite andb_false_r in Es.
  destruct (Z.eqb_spec (q * 10 ^ ex) n) as [Eq|Ne].
  - injection Es as <- <-. split; [exact Eq|split; [lia|nia]].
  - apply (IH (k + 1)); [|lia|exact Es]. split; [lia|].
    destruct (Z.eq_dec k (D + 1)) as [E|]; [|lia]. exfalso. apply Ne.
    unfold q, ex. rewrite E, Z.sub_diag. cbn. rewrite Z.div_1_r. lia.
Qed.

Lemma zeros_length j : String.length (zeros j) = j.
Proof. induction j; cbn; congruence. Qed.

(** C13: the reference algorithm [Number::toString] (shortest digits that
    convert back, then the format by position) prints every integer
    [0 <= n < 2^52] as its plain decimal digits.  That is the direct
    printing [integer_digits], which [toFixed] and the member list use for
    integers. *)
Theorem number_to_string_int n : 0 <= n < 2 ^ 52 -> number_to_string (of_Z n) = integer_digits n.
Proof.
  intros Hn. destruct (Z.eq_dec n 0) as [->|Hn0]; [reflexivity|].
  destruct (of_Z_fraction n) as (m & e & Hx & Hnum & Hden); [unfold SAFE, prec; lia|].
  rewrite Hx. unfold number_to_string. destruct (fraction m e) as [num den] eqn:F.
  cbn [fst snd] in Hnum, Hden. subst num. rewrite <- Hx.
  rewrite floor_log10_int by lia.
  pose proof (integer_digits_length n ltac:(lia)) as [HL1 HL2].
  set (len := Z.of_nat (String.length (integer_digits n))) in *.
  assert (Hlen : 1 <= len <= 16).
  { split.
    - destruct (Z.le_gt_cases 1 len) as [|H]; [assumption|]. assert (len = 0) by lia.
      rewrite H0 in HL2. cbn in HL2. lia.
    - destruct (Z.le_gt_cases len 16) as [|H]; [assumption|exfalso].
      assert (10 ^ 16 <= 10 ^ (len - 1)) by (apply Z.pow_le_mono_r; lia). lia. }
  destruct (search (of_Z n) (n * den) den (len - 1) 1 16) as [s e'] eqn:Es.
  destruct (search_int n den (len - 1) ltac:(lia) Hden ltac:(lia) HL1 16 1 s e'
              ltac:(lia) ltac:(cbn; lia) Es) as (Hse & He' & Hs).
  assert (Hd : integer_digits n = (integer_digits s ++ zeros (Z.to_nat e'))%string).
  { rewrite <- integer_digits_pow10 by exact Hs. rewrite Z2Nat.id by exact He'. now rewrite Hse. }
  assert (Hl : len = Z.of_nat (String.length (integer_digits s)) + e').
  { unfold len. rewrite Hd, string_length_app, zeros_length. lia. }
  cbn [append]. unfold format_decimal.
  replace ((Z.of_nat (String.length (integer_digits s)) <=? e' + Z.of_nat (String.length (integer_digits s)))
           && (e' + Z.of_nat (String.length (integer_digits s)) <=? 21)) with true
    by (symmetry; apply andb_true_intro; split; apply Z.leb_le; lia).
  rewrite Hd. do 3 f_equal. lia.
Qed.

(** Conformance with the JS engine, [String(x)] for amounts a donor may
    type and for the boundary cases of each format. *)
Example number_to_string_samples :
  map number_to_string
    [parseFloat "12.5"; parseFloat "0.1"; js_add (parseFloat "0.1") (parseFloat "0.2");
     parseFloat "1e21"; parseFloat "123e-20"; parseFloat "0.000001"; parseFloat "1e-7";
     parseFloat "100"; parseFloat "-1.5"; parseFloat "9007199254740993"; parseFloat "5e-324";
     parseFloat "1.7976931348623157e308"; parseFloat "123456789012345680000"; parseFloat "0.5";
     parseFloat "3000"; parseFloat "1e400"; parseFloat "2.5e-5"; parseFloat "1234.5678";
     parseFloat "1e20"; parseFloat "1.2e21"; NaN; parseFloat "-0"] =
  ["12.5"; "0.1"; "0.30000000000000004"; "1e+21"; "1.23e-18"; "0.000001"; "1e-7";
   "100"; "-1.5"; "9007199254740992"; "5e-324"; "1.7976931348623157e+308";
   "123456789012345680000"; "0.5"; "3000"; "Infinity"; "0.000025"; "1234.5678";
   "100000000000000000000"; "1.2e+21"; "NaN"; "0"]%string.
Proof. vm_compute. reflexivity. Qed.

Lemma number_to_string_int_witness : number_to_string (of_Z 3000) = integer_digits 3000.
Proof. apply number_to_string_int. lia. Defined.
