(* ===== verification/NumberInput.v ===== *)
(** * The amount input: the value sanitisation of [type="number"]

    The amount field of [App.js] (lines 108-112) is an
    [<input type="number">].  A conforming browser hands [onChange] a value
    that is a valid floating-point number of the HTML standard, or "" in its
    place.  [valid_float] recognises that grammar: an optional [-], digits,
    an optional [.] with at least one digit, an optional exponent, and at
    least one digit before the exponent.  [sanitize_number] replaces any
    other string by "".

    On such values the guard's [Number] conversion and the stored
    [parseFloat] agree and never give NaN ([valid_conversions]).  So the
    add handler rejects exactly the invalid entries and stores the checked
    value (C38).  The grammar has no bound on the exponent: "1e400" is
    valid, parses to +Infinity, and from then on the settle button is never
    disabled (C39).  [browser_reachable] is [reachable] of [App.v] with every
    amount input sanitised; no state it reaches holds a NaN amount, given
    documents without one (C40). *)

From S2P Require Import Prelude JsNumber Exactness Clock Ledger Grouping Persistence App.
From Stdlib Require Import SpecFloat.

Open Scope string_scope.

(** ** The valid floating-point number grammar of HTML *)

(** The longest prefix of ASCII digits, and the rest. *)
Fixpoint span_digits (s : string) : string * string :=
  match s with
  | String c s' => if is_digit c then let (p, r) := span_digits s' in (String c p, r) else ("", s)
  | EmptyString => ("", "")
  end.

Definition strip_minus (s : string) : string :=
  match s with String c r => if Ascii.eqb c "-" then r else s | EmptyString => s end.

Definition strip_sign (s : string) : string :=
  match s with
  | String c r => if Ascii.eqb c "-" || Ascii.eqb c "+" then r else s
  | EmptyString => s
  end.

(** A point followed by at least one digit, or nothing: the digits after the
    point and the rest. *)
Definition frac_part (s : string) : option (string * string) :=
  match s with
  | String c r =>
      if Ascii.eqb c "." then let (p, r') := span_digits r in if p =? "" then None else Some (p, r')
      else Some ("", s)
  | EmptyString => Some ("", "")
  end.

(** An exponent ([e] or [E], an optional sign, at least one digit), or
    nothing: the rest. *)
Definition exp_part (s : string) : option string :=
  match s with
  | String c r =>
      if Ascii.eqb c "e" || Ascii.eqb c "E" then
        let (p, r') := span_digits (strip_sign r) in if p =? "" then None else Some r'
      else Some s
  | EmptyString => Some ""
  end.

Definition valid_float (s : string) : bool :=
  let (ip, r1) := span_digits (strip_minus s) in
  match frac_part r1 with
  | Some (fp, r2) =>
      negb ((ip =? "") && (fp =? "")) &&
      match exp_part r2 with Some r3 => r3 =? "" | None => false end
  | None => false
  end.

(** The value sanitisation of [<input type="number">]: a value that is not
    a valid floating-point number becomes the empty string. *)
Definition sanitize_number (s : string) : string := if valid_float s then s else "".

(** [Number.isFinite] on a number. *)
Definition isFinite (x : number) : bool :=
  match x with S754_zero _ | S754_finite _ _ _ => true | _ => false end.

Example valid_float_samples :
  map valid_float ["3000"; "12.5"; "-0.5e3"; ".5"; "1E+2"; "1e400"] = [true; true; true; true; true; true] /\
  map valid_float [""; " "; "0x10"; "1."; "+1"; "1e"; "abc"; "1 "; "Infinity"] =
    [false; false; false; false; false; false; false; false; false].
Proof. split; reflexivity. Qed.

Lemma radix_digit_10_other c : is_digit c = false -> radix_digit 10 c = None.
Proof.
  unfold is_digit, radix_digit. intros H.
  assert (Hn : (Z.of_nat (nat_of_ascii c) < 48 \/ 57 < Z.of_nat (nat_of_ascii c))%Z).
  { apply andb_false_iff in H as [H|H]; apply Nat.leb_gt in H; lia. }
  repeat match goal with |- context [if ?b then _ else _] =>
    let E := fresh in destruct b eqn:E; bool_facts end;
    repeat match goal with
    | H : (_ <=? _)%Z = true |- _ => apply Z.leb_le in H
    | H : (_ <=? _)%Z = false |- _ => apply Z.leb_gt in H
    | H : (_ <? _)%Z = true |- _ => apply Z.ltb_lt in H
    | H : (_ <? _)%Z = false |- _ => apply Z.ltb_ge in H
    | H : (_ && _)%bool = false |- _ => apply andb_false_iff in H as [H|H]
    end; try reflexivity; lia.
Qed.

(** ** The scanner on the grammar's pieces *)

Lemma span_digits_app s : forall p r, span_digits s = (p, r) -> s = p ++ r /\ all_digits p = true.
Proof.
  induction s as [|c s IH]; intros p r E; cbn [span_digits] in E.
  - injection E as <- <-. split; reflexivity.
  - destruct (is_digit c) eqn:Hc.
    + destruct (span_digits s) as [p' r'] eqn:E'. injection E as <- <-.
      destruct (IH _ _ eq_refl) as [-> Hp]. split; [reflexivity|]. cbn. rewrite Hc. exact Hp.
    + injection E as <- <-. split; reflexivity.
Qed.

Lemma scan_digits_span s : forall acc n,
  scan_digits 10 s acc n =
  (decimal_value_from acc (fst (span_digits s)), (n + String.length (fst (span_digits s)))%nat,
   snd (span_digits s)).
Proof.
  induction s as [|c s IH]; intros acc n; cbn [scan_digits span_digits].
  - rewrite Nat.add_0_r. reflexivity.
  - destruct (is_digit c) eqn:Hc.
    + rewrite radix_digit_10, IH by exact Hc.
      destruct (span_digits s) as [p r]. cbn. rewrite Nat.add_succ_r. reflexivity.
    + rewrite radix_digit_10_other by exact Hc. cbn. rewrite Nat.add_0_r. reflexivity.
Qed.

(** The sign matches of [scan_decimal] and [scan_exponent]. *)
Lemma sign_split s :
  match s with
  | String "+"%char s' => (false, s')
  | String "-"%char s' => (true, s')
  | _ => (false, s)
  end = (match s with String c _ => Ascii.eqb c "-" | EmptyString => false end, strip_sign s).
Proof. destruct s as [|c s]; [reflexivity|]. destruct c as [[] [] [] [] [] [] [] []]; reflexivity. Qed.

Lemma after_dot_eqb s :
  after_dot s = match s with String c r => if Ascii.eqb c "." then Some r else None | EmptyString => None end.
Proof. destruct s as [|c s]; [reflexivity|]. destruct c as [[] [] [] [] [] [] [] []]; reflexivity. Qed.

Lemma exp_part_scan s r : exp_part s = Some r -> exists e, scan_exponent s = (e, r).
Proof.
  destruct s as [|c s1]; cbn [exp_part]; intros E; [injection E as <-; eexists; reflexivity|].
  unfold scan_exponent. destruct (Ascii.eqb c "e" || Ascii.eqb c "E"); [|injection E as <-; eexists; reflexivity].
  rewrite sign_split, scan_digits_span.
  destruct (span_digits (strip_sign s1)) as [p r'] eqn:Ep. cbn [fst snd].
  destruct (String.eqb_spec p "") as [->|Hp]; [discriminate|]. injection E as <-.
  destruct p as [|c' p]; [contradiction|]. eexists. reflexivity.
Qed.

Open Scope Z_scope.

Lemma binary_normalize_not_nan m e s : is_nan (binary_normalize prec emax m e s) = false.
Proof.
  unfold binary_normalize. destruct m as [|p|p]; [reflexivity| |];
    match goal with |- context [binary_round prec emax ?s ?m ?e] =>
      pose proof (binary_round_sign s m e) as H;
      destruct (binary_round prec emax s m e); easy end.
Qed.

Lemma SFdiv_core_nonneg m1 e1 m2 e2 :
  0 <= m1 -> 0 < m2 -> 0 <= fst (fst (SFdiv_core_binary prec emax m1 e1 m2 e2)).
Proof.
  intros H1 H2. unfold SFdiv_core_binary.
  match goal with |- context [Z.div_eucl ?a m2] =>
    assert (Ha : 0 <= a) by (destruct (_ - _) ; [lia|apply Z.shiftl_nonneg; lia|lia]);
    pose proof (Z.div_pos a m2 Ha H2) as Hq; unfold Z.div in Hq; destruct (Z.div_eucl a m2) end.
  exact Hq.
Qed.

(** A decimal literal never rounds to NaN. *)
Lemma round_decimal_not_nan neg m e : 0 <= m -> is_nan (round_decimal neg m e) = false.
Proof.
  intros Hm. unfold round_decimal.
  destruct (m =? 0); [reflexivity|]. destruct (400 <? e); [reflexivity|].
  destruct (Z.leb_spec 0 e); [apply binary_normalize_not_nan|].
  destruct (_ <=? -1076); [reflexivity|].
  pose proof (SFdiv_core_nonneg m 0 (10 ^ (- e)) 0 Hm) as Hq.
  destruct (SFdiv_core_binary prec emax m 0 (10 ^ (- e)) 0) as [[mz ez] lz]. cbn in Hq.
  pose proof (binary_round_aux_sign neg mz ez lz) as Hs.
  destruct (binary_round_aux prec emax neg mz ez lz); try reflexivity.
  exfalso. apply Hs, Hq, Z.pow_pos_nonneg; lia.
Qed.

(** The body the sign leaves: a valid string does not start with [+]. *)
Lemma valid_strip_sign s : valid_float s = true -> strip_sign s = strip_minus s.
Proof.
  destruct s as [|c s]; [reflexivity|]. unfold strip_sign, strip_minus.
  destruct (Ascii.eqb c "-"); [reflexivity|]. cbn [orb].
  destruct (Ascii.eqb_spec c "+") as [->|]; [|reflexivity]. intros H. cbn in H. discriminate H.
Qed.

Lemma length_eqb_0 n p : p <> "" -> (n + String.length p =? 0)%nat = false.
Proof. destruct p; intros H; [congruence|]. apply Nat.eqb_neq. cbn. lia. Qed.

Lemma valid_body_scan body ip r1 fp r2 :
  span_digits body = (ip, r1) -> frac_part r1 = Some (fp, r2) ->
  negb (String.eqb ip "" && String.eqb fp "") = true -> exp_part r2 = Some "" ->
  exists m e, scan_unsigned body = Some (ULDecimal m e, "") /\ 0 <= m.
Proof.
  intros Hs Hf Hne He. destruct (span_digits_app _ _ _ Hs) as [Hb Hip].
  assert (Hm : forall acc, 0 <= acc -> all_digits fp = true -> 0 <= decimal_value_from acc fp)
    by (intros; apply decimal_value_from_nonneg; assumption).
  pose proof (decimal_value_from_nonneg ip 0 ltac:(lia) Hip) as Hi.
  unfold scan_unsigned. rewrite scan_digits_span, Hs, after_dot_eqb. cbn [fst snd].
  destruct r1 as [|c r1'].
  - injection Hf as <- <-. destruct (String.eqb_spec ip "") as [->|Hip0]; [discriminate|].
    subst body. rewrite string_app_empty_r. destruct ip as [|c ip]; [contradiction|].
    cbn in Hip. bool_facts. replace (String.prefix infinity_word _) with false by (digit_case c; reflexivity).
    do 2 eexists. split; [reflexivity|exact Hi].
  - assert (Hpre : String.prefix infinity_word body = false).
    { subst body. destruct ip as [|c' ip].
      - cbn [frac_part] in Hf. destruct (Ascii.eqb_spec c ".") as [->|]; [reflexivity|].
        injection Hf as <- <-. discriminate.
      - cbn in Hip. bool_facts. digit_case c'; reflexivity. }
    rewrite Hpre. cbn [frac_part] in Hf. destruct (Ascii.eqb c ".").
    + rewrite scan_digits_span. destruct (span_digits r1') as [p r'] eqn:Ep. cbn [fst snd].
      destruct (String.eqb_spec p "") as [|Hp]; [discriminate|]. injection Hf as <- <-.
      destruct (exp_part_scan _ _ He) as [e ->].
      replace (_ + _ =? 0)%nat with false by (destruct p; [contradiction|cbn; symmetry; apply Nat.eqb_neq; lia]).
      do 2 eexists. split; [reflexivity|]. apply Hm; [exact Hi|]. apply (span_digits_app _ _ _ Ep).
    + injection Hf as <- <-. destruct (String.eqb_spec ip "") as [->|Hip0]; [discriminate|].
      rewrite length_eqb_0 by exact Hip0. destruct (exp_part_scan _ _ He) as [e ->].
      do 2 eexists. split; [reflexivity|exact Hi].
Qed.

(** A valid floating-point number is one decimal literal, with nothing left. *)
Lemma valid_scan s : valid_float s = true ->
  exists neg m e, scan_decimal s = Some (neg, ULDecimal m e, "") /\ 0 <= m.
Proof.
  intros H. pose proof (valid_strip_sign s H) as Hsg. unfold valid_float in H.
  destruct (span_digits (strip_minus s)) as [ip r1] eqn:Es.
  destruct (frac_part r1) as [[fp r2]|] eqn:Ef; [|discriminate].
  apply andb_prop in H as [Hne Hx]. destruct (exp_part r2) as [r3|] eqn:Ee; [|discriminate].
  apply String.eqb_eq in Hx. subst r3.
  destruct (valid_body_scan _ _ _ _ _ Es Ef Hne Ee) as (m & e & Hu & Hm).
  unfold scan_decimal. rewrite sign_split, Hsg, Hu. eauto.
Qed.

(** ** Characters of a valid floating-point number *)

Definition float_char (c : ascii) : bool :=
  is_digit c || Ascii.eqb c "-" || Ascii.eqb c "+" || Ascii.eqb c "." || Ascii.eqb c "e" || Ascii.eqb c "E".

(** No character of [s] satisfies [P]. *)
Definition avoids (P : ascii -> bool) (s : string) : bool :=
  forallb (fun c => negb (P c)) (list_ascii_of_string s).

Lemma avoids_app P a b : avoids P (a ++ b) = avoids P a && avoids P b.
Proof. unfold avoids. rewrite string_list_app. apply forallb_app. Qed.

Lemma avoids_cons P c s : avoids P (String c s) = negb (P c) && avoids P s.
Proof. reflexivity. Qed.

Lemma avoids_rev P s : avoids P (string_rev s) = avoids P s.
Proof. unfold avoids, string_rev. rewrite list_ascii_of_string_of_list_ascii. apply forallb_rev. Qed.

Section Avoids.
Variable P : ascii -> bool.
Hypothesis P_float : forall c, float_char c = true -> P c = false.

Lemma avoids_digits p : all_digits p = true -> avoids P p = true.
Proof.
  induction p as [|c p IH]; cbn [all_digits]; intros H; [reflexivity|]. bool_facts.
  rewrite avoids_cons, P_float, IH by (try unfold float_char; rewrite ?H; auto). reflexivity.
Qed.

Lemma avoids_span s p r : span_digits s = (p, r) -> avoids P s = avoids P r.
Proof.
  intros E. destruct (span_digits_app _ _ _ E) as [-> Hp].
  rewrite avoids_app, avoids_digits by exact Hp. reflexivity.
Qed.

Lemma avoids_head c r : float_char c = true -> avoids P (String c r) = avoids P r.
Proof. intros H. rewrite avoids_cons, P_float by exact H. reflexivity. Qed.

Lemma avoids_strip_minus s : avoids P s = avoids P (strip_minus s).
Proof.
  destruct s as [|c s]; [reflexivity|]. unfold strip_minus.
  destruct (Ascii.eqb_spec c "-") as [->|]; [apply avoids_head; reflexivity|reflexivity].
Qed.

Lemma avoids_strip_sign s : avoids P s = avoids P (strip_sign s).
Proof.
  destruct s as [|c s]; [reflexivity|]. unfold strip_sign.
  destruct (Ascii.eqb_spec c "-") as [->|]; [apply avoids_head; reflexivity|].
  destruct (Ascii.eqb_spec c "+") as [->|]; [apply avoids_head; reflexivity|reflexivity].
Qed.

Lemma avoids_frac r1 fp r2 : frac_part r1 = Some (fp, r2) -> avoids P r1 = avoids P r2.
Proof.
  destruct r1 as [|c r1]; cbn [frac_part]; intros E; [now injection E as <- <-|].
  destruct (Ascii.eqb_spec c ".") as [->|]; [|now injection E as <- <-].
  destruct (span_digits r1) as [p r] eqn:Ep. destruct (String.eqb p ""); [discriminate|].
  injection E as <- <-. rewrite avoids_head by reflexivity. exact (avoids_span _ _ _ Ep).
Qed.

Lemma avoids_exp r2 r3 : exp_part r2 = Some r3 -> avoids P r2 = avoids P r3.
Proof.
  destruct r2 as [|c r2]; cbn [exp_part]; intros E; [now injection E as <-|].
  destruct (Ascii.eqb c "e" || Ascii.eqb c "E") eqn:He; [|now injection E as <-].
  destruct (span_digits (strip_sign r2)) as [p r] eqn:Ep. destruct (String.eqb p ""); [discriminate|].
  injection E as <-.
  assert (Hc : float_char c = true)
    by (apply orb_true_iff in He as [He|He]; apply Ascii.eqb_eq in He; subst c; reflexivity).
  rewrite avoids_head, avoids_strip_sign by exact Hc.
  exact (avoids_span _ _ _ Ep).
Qed.

Lemma valid_avoids s : valid_float s = true -> avoids P s = true.
Proof.
  unfold valid_float. intros H. rewrite avoids_strip_minus.
  destruct (span_digits (strip_minus s)) as [ip r1] eqn:Es. rewrite (avoids_span _ _ _ Es).
  destruct (frac_part r1) as [[fp r2]|] eqn:Ef; [|discriminate]. rewrite (avoids_frac _ _ _ Ef).
  apply andb_prop in H as [_ Hx]. destruct (exp_part r2) as [r3|] eqn:Ee; [|discriminate].
  rewrite (avoids_exp _ _ Ee). apply String.eqb_eq in Hx. subst r3. reflexivity.
Qed.

End Avoids.

Definition float_chars : list ascii := decimal_digits ++ ["-"; "+"; "."; "e"; "E"]%char.

Lemma float_char_cases c : float_char c = true -> In c float_chars.
Proof.
  unfold float_char, float_chars. intros H. apply in_or_app.
  destruct (is_digit c) eqn:Hd; [left; apply digit_cases, Hd|right]. cbn [orb] in H.
  repeat apply orb_true_iff in H as [H|H]; apply Ascii.eqb_eq in H; subst c; cbn; tauto.
Qed.

(** The letters that start a non-decimal integer literal after [0]. *)
Definition radix_letter (c : ascii) : bool :=
  Ascii.eqb c "x" || Ascii.eqb c "X" || Ascii.eqb c "o" || Ascii.eqb c "O" || Ascii.eqb c "b" || Ascii.eqb c "B".

Lemma float_not_space c : float_char c = true -> is_js_space c = false.
Proof. intros H%float_char_cases. cbn in H. repeat destruct H as [<-|H]; [..|destruct H]; reflexivity. Qed.

Lemma float_not_radix c : float_char c = true -> radix_letter c = false.
Proof. intros H%float_char_cases. cbn in H. repeat destruct H as [<-|H]; [..|destruct H]; reflexivity. Qed.

Lemma trim_start_avoids s : avoids is_js_space s = true -> trim_start s = s.
Proof.
  destruct s as [|c s]; [reflexivity|]. rewrite avoids_cons. intros H.
  apply andb_prop in H as [H _]. apply negb_true_iff in H. cbn [trim_start]. rewrite H. reflexivity.
Qed.

Lemma trim_avoids s : avoids is_js_space s = true -> trim s = s.
Proof.
  intros H. unfold trim. rewrite (trim_start_avoids s H), trim_start_avoids.
  - apply string_rev_involutive.
  - rewrite avoids_rev. exact H.
Qed.

Lemma non_decimal_avoids s : avoids radix_letter s = true -> non_decimal_value s = None.
Proof.
  destruct s as [|c1 [|c2 rest]]; intros H; [reflexivity|destruct c1 as [[] [] [] [] [] [] [] []]; reflexivity|].
  rewrite !avoids_cons in H. apply andb_prop in H as [_ H]. apply andb_prop in H as [H _].
  apply negb_true_iff in H. unfold radix_letter in H.
  repeat apply orb_false_iff in H as [H ?]. destruct c1 as [[] [] [] [] [] [] [] []]; try reflexivity.
  cbn -[Ascii.eqb]. repeat match goal with E : Ascii.eqb _ _ = false |- _ => rewrite E end. reflexivity.
Qed.

(** On a valid floating-point number the two conversions of [App.js] agree
    and neither gives NaN. *)
Lemma valid_conversions s : valid_float s = true ->
  s <> "" /\ parseFloat s = StringToNumber s /\ isNaN s = false.
Proof.
  intros H. destruct (valid_scan s H) as (neg & m & e & Hs & Hm).
  assert (Hne : s <> "") by (intros ->; discriminate H).
  assert (Hst : StringToNumber s = round_decimal neg m e).
  { unfold StringToNumber. rewrite trim_avoids by (apply valid_avoids; [exact float_not_space|exact H]).
    destruct s as [|c s']; [contradiction|].
    rewrite non_decimal_avoids by (apply valid_avoids; [exact float_not_radix|exact H]).
    rewrite Hs. reflexivity. }
  split; [exact Hne|]. unfold isNaN. rewrite Hst. split; [|apply round_decimal_not_nan, Hm].
  unfold parseFloat. rewrite trim_start_avoids by (apply valid_avoids; [exact float_not_space|exact H]).
  rewrite Hs. reflexivity.
Qed.

Lemma of_Z_finite z : Z.abs z < SAFE -> isFinite (of_Z z) = true.
Proof.
  intros H. destruct (Z.eq_dec z 0) as [->|Hz]; [reflexivity|].
  rewrite of_Z_int by lia. reflexivity.
Qed.

(** An infinite total minus a finite settled amount stays infinite, and the
    settle button is enabled. *)
Lemma remaining_infinite st :
  totalAmount (donations st) = S754_infinity false -> isFinite (settledAmount st) = true ->
  remaining st = S754_infinity false /\ settleDisabled st = false /\
  js_ge (remaining st) SETTLE_AMOUNT = true.
Proof.
  intros Ht Hf. unfold settleDisabled, remaining. rewrite Ht.
  destruct (settledAmount st) as [[]|[]| |[] m e]; try discriminate Hf; repeat split; reflexivity.
Qed.

(** From an infinite total every settle click is accepted. *)
Lemma settle_iter_infinite `{L : LocaleFormat} now st j k :
  totalAmount (donations st) = S754_infinity false ->
  settledAmount st = of_Z (6000 * j) -> 0 <= j -> 6000 * (j + Z.of_nat k) < SAFE ->
  let st' := Nat.iter k (fun s => apply_updates s (handleSettle now s)) st in
  donations st' = donations st /\ settledAmount st' = of_Z (6000 * (j + Z.of_nat k)) /\
  settleDisabled st' = false.
Proof.
  intros Ht Hs Hj. cbv zeta. unfold SAFE, prec in *.
  induction k as [|k IH]; intros Hk.
  - cbn [Nat.iter]. rewrite Z.add_0_r. split; [reflexivity|split; [exact Hs|]].
    refine (proj1 (proj2 (remaining_infinite st Ht _))).
    rewrite Hs. apply of_Z_finite. unfold SAFE, prec. lia.
  - destruct IH as (Hd & Hs' & _); [lia|].
    set (sk := Nat.iter k _ st) in *.
    assert (Hf : isFinite (settledAmount sk) = true)
      by (rewrite Hs'; apply of_Z_finite; unfold SAFE, prec; lia).
    rewrite <- Hd in Ht. destruct (remaining_infinite sk Ht Hf) as (_ & _ & Hge).
    rewrite Nat.iter_succ. fold sk.
    destruct (settle_updates now sk) as [[E _] | [_ ->]]; [congruence|].
    assert (Hsum : settledAmount sk = of_Z (6000 * (j + Z.of_nat k))) by exact Hs'.
    cbn [donations settledAmount]. rewrite Hsum. unfold SETTLE_AMOUNT.
    rewrite js_add_of_Z by (unfold SAFE, prec; lia).
    replace (6000 * (j + Z.of_nat k) + 6000) with (6000 * (j + Z.of_nat (S k))) by lia.
    split; [exact Hd|split; [reflexivity|]].
    refine (proj1 (proj2 (remaining_infinite _ _ _))); [exact Ht|].
    apply of_Z_finite. unfold SAFE, prec. lia.
Qed.

Section Claims.
Context `{L : LocaleFormat}.

(** C38: with the value sanitisation of [<input type="number">], the
    amount the add handler sees is a valid floating-point number or "".
    The handler rejects exactly the invalid entries.  On a valid entry
    it appends a donation whose amount is [Number(s)], the conversion
    [isNaN] checks, and that amount is not NaN. *)
Theorem sanitized_amount_add now st s :
  name st <> "" -> amount st = sanitize_number s ->
  (valid_float s = false -> handleAddDonation now st = []) /\
  (valid_float s = true ->
     apply_updates st (handleAddDonation now st) =
       {| donations := donations st ++ [newDonation now st];
          settledAmount := settledAmount st; lastSettledAt := lastSettledAt st;
          name := ""; amount := ""; expandedMonth := expandedMonth st |} /\
     Donation.amount (newDonation now st) = StringToNumber s /\
     is_nan (Donation.amount (newDonation now st)) = false).
Proof.
  intros Hn Ha. unfold sanitize_number in Ha. split; intros Hv; rewrite Hv in Ha.
  - apply add_updates_invalid. right. left. exact Ha.
  - destruct (valid_conversions s Hv) as (Hne & Hp & Hi).
    assert (Hd : Donation.amount (newDonation now st) = StringToNumber s) by (cbn; rewrite Ha; exact Hp).
    split; [apply add_updates_valid; rewrite ?Ha; assumption|].
    split; [exact Hd|]. rewrite Hd. exact Hi.
Qed.



(** C39: the grammar of the number input bounds no exponent.  An entry
    such as "1e400" is accepted and [parseFloat] makes it +Infinity.  After
    that addition every settle click is accepted: after [k] clicks from
    [6000 * j] the settled amount is [6000 * (j + k)], the donations are
    those of the addition, and the button is still enabled.  The settled
    amount grows without bound. *)
Theorem infinite_total_never_drains now st s j k :
  name st <> "" -> amount st = sanitize_number s -> valid_float s = true ->
  StringToNumber s = S754_infinity false -> isFinite (totalAmount (donations st)) = true ->
  settledAmount st = of_Z (6000 * j) -> 0 <= j -> 6000 * (j + Z.of_nat k) < SAFE ->
  let st1 := apply_updates st (handleAddDonation now st) in
  let st' := Nat.iter k (fun s => apply_updates s (handleSettle now s)) st1 in
  donations st' = (donations st ++ [newDonation now st])%list /\
  settledAmount st' = of_Z (6000 * (j + Z.of_nat k)) /\ settleDisabled st' = false.
Proof.
  intros Hn Ha Hv Hinf Hfin Hs Hj Hk. cbv zeta.
  unfold sanitize_number in Ha. rewrite Hv in Ha.
  destruct (valid_conversions s Hv) as (Hne & Hp & Hi).
  rewrite add_updates_valid by (rewrite ?Ha; assumption).
  destruct (settle_iter_infinite now
              {| donations := donations st ++ [newDonation now st];
                 settledAmount := settledAmount st; lastSettledAt := lastSettledAt st;
                 name := ""; amount := ""; expandedMonth := expandedMonth st |} j k)
    as (Hd & Hs' & Hdis); cbn [donations settledAmount]; try assumption.
  - rewrite totalAmount_snoc. cbn [Donation.amount newDonation]. rewrite Ha, Hp, Hinf.
    destruct (totalAmount (donations st)) as [[]|[]| |[] m e]; try discriminate Hfin; reflexivity.
  - auto.
Qed.

End Claims.

(** ** Every reachable state of a sanitising browser *)

Definition amounts_ok (ds : list donation) : Prop :=
  Forall (fun d => is_nan (Donation.amount d) = false) ds.

Definition doc_amounts_ok (d : document) : Prop := amounts_ok (or_empty (doc_donations d)).

(** The value [onChange] reports for the amount input is a sanitised one. *)
Definition browser_event (e : event) : Prop :=
  match e with AmountInput s => sanitize_number s = s | _ => True end.

(** No stored amount is NaN and the amount slot holds a sanitised value. *)
Definition input_ok (st : state) : Prop :=
  amounts_ok (donations st) /\ sanitize_number (amount st) = amount st.

Lemma sanitize_idempotent s : sanitize_number (sanitize_number s) = sanitize_number s.
Proof. unfold sanitize_number. destruct (valid_float s) eqn:E; [rewrite E|]; reflexivity. Qed.

Lemma sanitized_valid s : sanitize_number s = s -> s <> "" -> valid_float s = true.
Proof. unfold sanitize_number. destruct (valid_float s); congruence. Qed.

Lemma add_input_ok `{L : LocaleFormat} now st : input_ok st -> input_ok (apply_updates st (handleAddDonation now st)).
Proof.
  intros [Ha Hs].
  destruct (String.eqb_spec (name st) "") as [Hn|Hn];
    [rewrite add_updates_invalid by auto; exact (conj Ha Hs)|].
  destruct (String.eqb_spec (amount st) "") as [Hm|Hm];
    [rewrite add_updates_invalid by auto; exact (conj Ha Hs)|].
  destruct (valid_conversions _ (sanitized_valid _ Hs Hm)) as (_ & Hp & Hi).
  rewrite add_updates_valid by assumption. split; [|reflexivity].
  apply Forall_app. split; [exact Ha|]. constructor; [|constructor]. cbn. rewrite Hp. exact Hi.
Qed.

Lemma settle_input_ok `{L : LocaleFormat} now st : input_ok st -> input_ok (apply_updates st (handleSettle now st)).
Proof. intros H. destruct (settle_updates now st) as [[_ ->]|[_ ->]]; exact H. Qed.

Section Browser.
Context {S : Type} `{Store : DocumentStore S} `{Laws : !DocumentStoreLaws S} `{L : LocaleFormat}.

(** [reachable] for a browser that sanitises the amount input. *)
Inductive browser_reachable (P : document -> Prop) (s0 : S) : world -> Prop :=
| browser_mount : browser_reachable P s0 (mount s0)
| browser_step w e ok :
    browser_reachable P s0 w -> external_ok P e -> browser_event e ->
    browser_reachable P s0 (dispatch w e ok).

Definition input_inv (w : world) : Prop :=
  input_ok (st w) /\ forall d, store_get (store w) = Some d -> doc_amounts_ok d.

Lemma commit_input_inv (w : world) us ok :
  input_inv w -> input_ok (apply_updates (st w) us) -> input_inv (commit w us ok).
Proof.
  intros [Hs Hd] Hu. split.
  - destruct (commit_st w us ok) as [-> | ->]; assumption.
  - destruct (commit_store w us ok) as [[-> _] | (_ & _ & _ & -> & _)]; [exact Hd|].
    intros d. rewrite store_get_set. intros [= <-]. exact (proj1 Hu).
Qed.

(** C40: in a browser that sanitises the [type="number"] input, when the
    initial document and every document another session writes hold no
    NaN amount, no reachable state holds a NaN donation amount. *)
Theorem browser_amounts_not_nan P s0 (w : world) :
  (forall d, P d -> doc_amounts_ok d) ->
  (forall d, store_get s0 = Some d -> doc_amounts_ok d) ->
  browser_reachable P s0 w -> amounts_ok (donations (st w)).
Proof.
  intros HP H0 Hr. enough (input_inv w) as [[H _] _] by exact H.
  induction Hr as [|w e ok Hr IH Hext Hb].
  - split; [split; [constructor|reflexivity]|exact H0].
  - pose proof IH as [Hs Hd].
    destruct e as [s|s|now|now|m|res|d]; cbn [dispatch];
      [..| split; cbn [st store];
           [exact Hs | intros d'; rewrite store_get_set; intros [= <-]; apply HP, Hext]];
      destruct (mounted w); cbn [negb]; try exact IH;
      repeat (case_if; try exact IH); apply commit_input_inv; try exact IH.
    + exact Hs.
    + exact (conj (proj1 Hs) Hb).
    + apply add_input_ok, Hs.
    + apply settle_input_ok, Hs.
    + exact Hs.
    + cbn [st store]. destruct res; [|exact Hs].
      destruct (store_get (store w)) as [d|] eqn:Eg; [|exact Hs].
      exact (conj (Hd d eq_refl) (proj2 Hs)).
Qed.

End Browser.

(** ** Concrete inputs, in the en-US locale *)

(** Alice's form after the browser sanitised what she typed. *)
Definition alice_types (typed : string) : state := {|
  donations := []; settledAmount := of_Z 0; lastSettledAt := None;
  name := "Alice"; amount := sanitize_number typed; expandedMonth := None |}.

Lemma sanitized_amount_add_witness :
  let st := alice_types "12.5e3" in
  (valid_float "12.5e3" = false -> handleAddDonation nov9 st = []) /\
  (valid_float "12.5e3" = true ->
     apply_updates st (handleAddDonation nov9 st) =
       {| donations := donations st ++ [newDonation nov9 st];
          settledAmount := settledAmount st; lastSettledAt := lastSettledAt st;
          name := ""; amount := ""; expandedMonth := expandedMonth st |} /\
     Donation.amount (newDonation nov9 st) = StringToNumber "12.5e3" /\
     is_nan (Donation.amount (newDonation nov9 st)) = false).
Proof. apply sanitized_amount_add; [discriminate|reflexivity]. Defined.

Example sanitized_samples :
  Donation.amount (newDonation nov9 (alice_types "12.5e3")) = of_Z 12500 /\
  handleAddDonation nov9 (alice_types " ") = [] /\ handleAddDonation nov9 (alice_types "0x10") = [].
Proof. vm_compute. auto. Qed.

(** "1e400" is a valid floating-point number, passes the guard, and the
    total becomes +Infinity. *)
Definition alice_overflowed : state :=
  apply_updates (alice_types "1e400") (handleAddDonation nov9 (alice_types "1e400")).

Lemma overflowing_amount_accepted :
  valid_float "1e400" = true /\ isNaN "1e400" = false /\
  totalAmount (donations alice_overflowed) = S754_infinity false.
Proof. vm_compute. auto. Qed.

Lemma infinite_total_never_drains_witness :
  let st1 := apply_updates (alice_types "1e400") (handleAddDonation nov9 (alice_types "1e400")) in
  let st' := Nat.iter 5 (fun s => apply_updates s (handleSettle nov9 s)) st1 in
  donations st' = (donations (alice_types "1e400") ++ [newDonation nov9 (alice_types "1e400")])%list /\
  settledAmount st' = of_Z (6000 * (0 + Z.of_nat 5)) /\ settleDisabled st' = false.
Proof.
  apply (infinite_total_never_drains nov9 (alice_types "1e400") "1e400" 0 5);
    [discriminate | reflexivity | reflexivity | vm_compute; reflexivity | reflexivity
    | reflexivity | lia | unfold SAFE, prec; lia].
Defined.

(** Alice types "12.5e3"; Bob types a blank, which the browser reports as
    "", so his addition is rejected instead of storing NaN. *)
Definition browser_run : world :=
  run (mount (None : option document))
    [(FetchSettled true, true); (NameInput "Alice", true); (AmountInput (sanitize_number "12.5e3"), true);
     (AddClick nov9, true); (NameInput "Bob", true); (AmountInput (sanitize_number " "), true);
     (AddClick nov9, true)].

Lemma browser_amounts_not_nan_witness : amounts_ok (donations (st browser_run)).
Proof.
  apply (browser_amounts_not_nan doc_amounts_ok None); [now intros | intros d Hd; discriminate Hd|].
  unfold browser_run, run. cbn [fold_left fst snd].
  repeat (apply browser_step; [| exact I | first [exact I | reflexivity]]). apply browser_mount.
Defined.

Example browser_run_ledger :
  map Donation.name (donations (st browser_run)) = ["Alice"] /\
  map Donation.amount (donations (st browser_run)) = [of_Z 12500].
Proof. vm_compute. auto. Qed.
