(* ===== verification/Render.v ===== *)
(** * The render: the JSX tree of lines 96-182

    [render] computes what the component shows from its state: the two
    controlled inputs, the summary panel, the settle button and the member
    list, with one button per month of [Object.entries(groupedDonations)].
    The button is green with an up arrow when its month is expanded and
    blue with a down arrow otherwise.  The expanded month lists its
    donations newest first.  The reduce may throw, and then the whole
    render does.  [{donation.amount}] prints the number with
    [Number::toString].  For an integral value of magnitude below [2^53]
    that is its decimal digits, which are written out here; every other
    value (fractions, and integral values from [2^53] on, which
    [Number::toString] prints as their shortest round-trip digits padded
    with zeros) goes to a parameter, as in [toFixed].  The theorems hold
    for any such parameter, and [NumberString.number_to_string] is its
    executable instance.  Literal texts, inline styles other than the button
    colour, and the characters outside Latin-1 (the rupee sign, the
    emoji arrows) are not part of the model.  The arrows are the
    constructors of [arrow]. *)

From S2P Require Import Prelude JsNumber Exactness Clock Ledger Grouping Persistence App Refinement Display NumberString.
From Stdlib Require Import SpecFloat Permutation.

Open Scope string_scope.

(** The two emoji of line 161. *)
Inductive arrow := ArrowUp | ArrowDown.

(** One [<li>] of lines 170-173. *)
Record item := {
  item_name : string;
  item_amount : string;
  item_timestamp : string;
}.

(** One [<div key={month}>] of lines 141-177: the button and the list. *)
Record month_section := {
  section_month : string;
  button_color : string;
  button_arrow : arrow;
  section_items : option (list item);
}.

(** Lines 136-179: "No donations yet." or the month sections. *)
Inductive member_list :=
| NoDonations
| MonthSections (sections : list month_section).

Record view := {
  name_value : string;
  amount_value : string;
  remaining_text : string;
  settled_text : option string;
  settle_disabled : bool;
  settle_text : string;
  members : member_list;
}.

(** The integer a finite float stands for, when it is one. *)
Definition integral_value (m : positive) (e : Z) : option Z :=
  if (0 <=? e)%Z then Some (Zpos m * 2 ^ e)%Z
  else if (Zpos m mod 2 ^ (- e) =? 0)%Z then Some (Zpos m / 2 ^ (- e))%Z
  else None.

(** [expandedMonth === month]: [null] equals no string. *)
Definition is_expanded (st : state) (m : string) : bool :=
  match expandedMonth st with Some e => e === m | None => false end.

Definition month_color (st : state) (m : string) : string :=
  if is_expanded st m then "#4CAF50" else "#2196F3".

Definition month_arrow (st : state) (m : string) : arrow :=
  if is_expanded st m then ArrowUp else ArrowDown.

Section Render.
(** [Number::toString] on the values that are not integers of magnitude
    below [2^53]. *)
Variable to_string_other : number -> string.

(** [Number::toString]: NaN, the infinities, the zeros, and integral
    values of magnitude below [2^53], whose decimal digits it prints
    exactly. *)
Definition number_text (x : number) : string :=
  match x with
  | S754_nan => "NaN"
  | S754_infinity false => "Infinity"
  | S754_infinity true => "-Infinity"
  | S754_zero _ => "0"
  | S754_finite s m e =>
      match integral_value m e with
      | Some n => if (n <? SAFE)%Z then (if s then "-" else "") ++ integer_digits n
                  else to_string_other x
      | None => to_string_other x
      end
  end.

Definition donation_item (d : donation) : item := {|
  item_name := Donation.name d;
  item_amount := number_text (Donation.amount d);
  item_timestamp := Donation.timestamp d |}.

Definition month_section_of (st : state) (e : string * list donation) : month_section :=
  let '(m, group) := e in {|
  section_month := m;
  button_color := month_color st m;
  button_arrow := month_arrow st m;
  section_items :=
    if is_expanded st m then Some (map donation_item (visibleDonations st m group)) else None |}.

Definition render (st : state) : result view :=
  match groupedDonations (donations st) with
  | Throw e => Throw e
  | Ok o =>
      Ok {| name_value := name st;
            amount_value := amount st;
            remaining_text := remaining_label to_string_other st;
            settled_text := settled_note st;
            settle_disabled := settleDisabled st;
            settle_text := number_text SETTLE_AMOUNT;
            members :=
              if (List.length (map fst (object_entries o)) =? 0)%nat then NoDonations
              else MonthSections (map (month_section_of st) (object_entries o)) |}
  end.

End Render.

(** ** Amounts as the member list prints them *)

Lemma integral_int n : (0 < n < SAFE)%Z -> integral_value (int_mant n) (int_exp n) = Some n.
Proof.
  intros Hn. pose proof (Zdigits2_le_prec n Hn) as Hd. pose proof (Zdigits2_pos n (proj1 Hn)).
  unfold integral_value, int_mant, int_exp.
  assert (Hk : (0 <= prec - Zdigits2 n)%Z) by lia.
  assert (Hp : (0 < 2 ^ (prec - Zdigits2 n))%Z) by (apply Z.pow_pos_nonneg; lia).
  rewrite Z2Pos.id by nia.
  destruct (Z.leb_spec 0 (Zdigits2 n - prec)) as [H0|H0].
  - replace (prec - Zdigits2 n)%Z with 0%Z by lia. replace (Zdigits2 n - prec)%Z with 0%Z by lia.
    f_equal. lia.
  - replace (- (Zdigits2 n - prec))%Z with (prec - Zdigits2 n)%Z by lia.
    rewrite Z.mod_mul, Z.div_mul by lia. reflexivity.
Qed.

Lemma number_text_of_Z tso n : (0 <= n < SAFE)%Z -> number_text tso (of_Z n) = integer_digits n.
Proof.
  intros Hn. destruct (Z.eq_dec n 0) as [->|Hne]; [reflexivity|].
  rewrite of_Z_int by lia. unfold int_repr, number_text.
  rewrite Z.abs_eq, integral_int by lia.
  replace (n <? 0)%Z with false by (symmetry; apply Z.ltb_ge; lia).
  replace (n <? SAFE)%Z with true by (symmetry; apply Z.ltb_lt; lia).
  reflexivity.
Qed.

(** ** The month list *)

Lemma own_property_none o k : own_property o k = None -> ~ In k (map fst o).
Proof. intros E Hk. induction o as [|[k' v] o IH]; cbn in *; [exact Hk|].
  destruct (String.eqb_spec k' k); [discriminate|]. destruct Hk as [->|Hk]; [contradiction|auto]. Qed.

(** A reducer step that does not throw keeps the keys distinct and has the
    donation's month among them. *)
Lemma group_step_nodup acc d acc' :
  NoDup (map fst acc) -> group_step acc d = Ok acc' ->
  NoDup (map fst acc') /\ In (Donation.month d) (map fst acc') /\ incl (map fst acc) (map fst acc').
Proof.
  intros Hnd. unfold group_step, get_property. cbv beta zeta.
  destruct (own_property acc (Donation.month d)) as [l|] eqn:E.
  - cbv iota. rewrite E. intros [= <-]. rewrite set_own_keys.
    split; [exact Hnd|split; [exact (own_property_key _ _ _ E)|apply incl_refl]].
  - destruct (mem_string (Donation.month d) object_prototype_names) eqn:Hm;
      [cbv iota; rewrite E; discriminate|].
    rewrite own_property_app_absent by exact E. cbn [own_property]. rewrite String.eqb_refl.
    intros [= <-]. rewrite set_own_keys, map_app. cbn [map fst].
    split; [|split; [apply in_or_app; right; left; reflexivity|apply incl_appl, incl_refl]].
    apply (Permutation_NoDup (Permutation_cons_append _ _)).
    constructor; [apply own_property_none, E|exact Hnd].
Qed.

Lemma group_fold_nodup ds : forall acc o,
  NoDup (map fst acc) -> group_fold acc ds = Ok o ->
  NoDup (map fst o) /\ incl (map fst acc) (map fst o) /\
  forall d, In d ds -> In (Donation.month d) (map fst o).
Proof.
  induction ds as [|d ds IH]; intros acc o Hnd H; cbn [group_fold] in H.
  - injection H as <-. split; [exact Hnd|split; [apply incl_refl|intros _ []]].
  - destruct (group_step acc d) as [acc'|] eqn:E; [|discriminate].
    destruct (group_step_nodup _ _ _ Hnd E) as (Hnd' & Hin & Hincl).
    destruct (IH _ _ Hnd' H) as (Ho & Hincl' & Hds).
    split; [exact Ho|split; [eapply incl_tran; eassumption|]].
    intros x [<-|Hx]; [apply Hincl', Hin|apply Hds, Hx].
Qed.

Lemma insert_by_index_perm e l : Permutation (insert_by_index e l) (e :: l).
Proof.
  induction l as [|e' l IH]; cbn; [reflexivity|].
  destruct (index_value (fst e) <? index_value (fst e'))%Z; [reflexivity|].
  rewrite IH. apply perm_swap.
Qed.

Lemma object_entries_perm o : Permutation (object_entries o) o.
Proof.
  unfold object_entries.
  assert (Hf : forall l, Permutation (fold_right insert_by_index [] l) l).
  { induction l as [|e l IH]; cbn; [reflexivity|]. rewrite insert_by_index_perm, IH. reflexivity. }
  rewrite Hf. induction o as [|e o IH]; cbn; [reflexivity|].
  destruct (is_array_index (fst e)); cbn; [constructor; exact IH|].
  rewrite <- Permutation_middle. constructor. exact IH.
Qed.

Lemma groupedDonations_nodup ds o : groupedDonations ds = Ok o ->
  NoDup (map fst o) /\ forall d, In d ds -> In (Donation.month d) (map fst o).
Proof.
  intros H. destruct (group_fold_nodup ds [] o (NoDup_nil _) H) as (Hnd & _ & Hin). auto.
Qed.

Lemma entries_keys_perm o : Permutation (map fst (object_entries o)) (map fst o).
Proof. apply Permutation_map, object_entries_perm. Qed.

Lemma is_expanded_iff st m : is_expanded st m = true <-> expandedMonth st = Some m.
Proof.
  unfold is_expanded. destruct (expandedMonth st) as [e|]; [|split; discriminate].
  rewrite String.eqb_eq. split; congruence.
Qed.

(** An open section is one whose list is rendered. *)
Definition section_open (s : month_section) : bool :=
  match section_items s with Some _ => true | None => false end.

Lemma month_section_of_fields tso st e :
  let s := month_section_of tso st e in
  section_month s = fst e /\ section_open s = is_expanded st (fst e) /\
  button_color s = (if section_open s then "#4CAF50" else "#2196F3") /\
  button_arrow s = (if section_open s then ArrowUp else ArrowDown).
Proof.
  destruct e as [m g]. cbv zeta. unfold month_section_of, section_open, month_color, month_arrow.
  cbn [section_month section_items button_color button_arrow fst].
  destruct (is_expanded st m); repeat split.
Qed.

Lemma filter_open_length tso st l :
  List.length (filter section_open (map (month_section_of tso st) l)) =
  List.length (filter (is_expanded st) (map fst l)).
Proof.
  induction l as [|e l IH]; cbn [map filter]; [reflexivity|].
  destruct (month_section_of_fields tso st e) as (_ & -> & _).
  destruct (is_expanded st (fst e)); cbn; congruence.
Qed.

(** At most one key of a list without duplicates is the expanded month. *)
Lemma filter_expanded_le st l : NoDup l -> (List.length (filter (is_expanded st) l) <= 1)%nat.
Proof.
  intros Hnd. induction Hnd as [|m l Hm Hnd IH]; cbn [filter]; [cbn; lia|].
  destruct (is_expanded st m) eqn:E; [|exact IH]. apply is_expanded_iff in E.
  rewrite (filter_all_false (is_expanded st) l); [cbn [List.length]; lia|].
  intros m' Hm'. apply not_true_is_false. rewrite is_expanded_iff, E. intros [= ->]. contradiction.
Qed.

(** A click on a month button opens that month unless it was open, and
    closes every other one. *)
Lemma toggle_expanded st m k :
  is_expanded (apply_updates st (toggleMonth m)) k = (k =? m) && negb (is_expanded st m).
Proof.
  unfold is_expanded. cbn. destruct (expandedMonth st) as [p|]; cbn.
  - destruct (String.eqb_spec p m) as [->|Hne]; cbn.
    + rewrite andb_false_r. reflexivity.
    + rewrite andb_true_r. apply string_eqb_sym.
  - rewrite andb_true_r. apply string_eqb_sym.
Qed.

Section Claims.
Context `{L : LocaleFormat}.

(** C2: an amount typed as the decimal digits of a safe integer [n] is
    stored as the float of [n], and the member list (line 170) prints it as
    the same digits: typing, storing and printing round-trip. *)
Theorem typed_amount_shown tso now st n :
  (0 <= n < SAFE)%Z -> amount st = integer_digits n ->
  Donation.amount (newDonation now st) = of_Z n /\
  item_amount (donation_item tso (newDonation now st)) = amount st.
Proof.
  intros Hn Ha. destruct (integer_digits_value n ltac:(lia)) as [Hs Hv].
  assert (Hd : Donation.amount (newDonation now st) = of_Z n)
    by (cbn; rewrite Ha, parseFloat_digits, Hv by exact Hs; reflexivity).
  split; [exact Hd|]. cbn [donation_item item_amount]. rewrite Hd, Ha. apply number_text_of_Z, Hn.
Qed.

End Claims.

(** C19: in every render that does not throw, the member list says "No
    donations yet." exactly for an empty ledger; otherwise its month
    buttons are distinct, at most one month is open, and a section is open,
    green and marked with the up arrow exactly when it is the expanded
    month. *)
Theorem render_one_open tso st v :
  render tso st = Ok v ->
  match members v with
  | NoDonations => donations st = []
  | MonthSections secs =>
      secs <> [] /\ NoDup (map section_month secs) /\ (List.length (filter section_open secs) <= 1)%nat /\
      Forall (fun s => button_color s = (if section_open s then "#4CAF50" else "#2196F3") /\
                       button_arrow s = (if section_open s then ArrowUp else ArrowDown) /\
                       (section_open s = true <-> expandedMonth st = Some (section_month s))) secs
  end.
Proof.
  unfold render. destruct (groupedDonations (donations st)) as [o|] eqn:G; [|discriminate].
  intros [= <-]. cbn [members]. destruct (groupedDonations_nodup _ _ G) as [Hnd Hin].
  pose proof (entries_keys_perm o) as Hp.
  destruct (Nat.eqb_spec (List.length (map fst (object_entries o))) 0) as [H0|H0].
  - destruct (donations st) as [|d ds]; [reflexivity|exfalso].
    rewrite (Permutation_length Hp) in H0. destruct (map fst o) eqn:E; [|discriminate].
    apply (Hin d (or_introl eq_refl)).
  - assert (Hm : map section_month (map (month_section_of tso st) (object_entries o)) = map fst (object_entries o)).
    { rewrite map_map. apply map_ext. intros e. apply (month_section_of_fields tso st e). }
    split; [destruct (object_entries o); [contradiction H0; reflexivity|discriminate]|].
    split; [rewrite Hm; exact (Permutation_NoDup (Permutation_sym Hp) Hnd)|].
    split; [rewrite filter_open_length; exact (filter_expanded_le st _ (Permutation_NoDup (Permutation_sym Hp) Hnd))|].
    apply Forall_map, Forall_forall. intros e _.
    destruct (month_section_of_fields tso st e) as (Hs & Ho & Hc & Ha).
    split; [exact Hc|split; [exact Ha|]]. rewrite Ho, Hs. apply is_expanded_iff.
Qed.

Lemma mem_keys_nonempty m (l : list string) : mem_string m l = true -> (List.length l =? 0)%nat = false.
Proof. destruct l; [discriminate|reflexivity]. Qed.

(** C20: when no month label names a property of [Object.prototype] or is
    an array index, the render is the reference rendering: the form shows
    the state's inputs, the summary shows [remaining.toFixed(2)], the
    settlement note and the settle button, and the member list is "No
    donations yet." for an empty ledger, otherwise one section per distinct
    month in order of first occurrence, built from that month's donations. *)
Theorem render_spec tso st :
  proto_free (donations st) = true ->
  forallb (fun d => negb (is_array_index (Donation.month d))) (donations st) = true ->
  render tso st =
    Ok {| name_value := name st; amount_value := amount st;
          remaining_text := remaining_label tso st; settled_text := settled_note st;
          settle_disabled := settleDisabled st; settle_text := "6000";
          members := match donations st with
                     | [] => NoDonations
                     | _ :: _ => MonthSections (map (month_section_of tso st) (group_spec (donations st)))
                     end |}.
Proof.
  intros Hp Hi. unfold render. rewrite group_fold_spec by exact Hp.
  rewrite object_entries_no_index by exact Hi.
  replace (number_text tso SETTLE_AMOUNT) with "6000" by (vm_compute; reflexivity).
  destruct (donations st) as [|d ds] eqn:E; [reflexivity|].
  replace (List.length (map fst (group_spec (d :: ds))) =? 0)%nat with false; [reflexivity|].
  symmetry. apply (mem_keys_nonempty (Donation.month d)), mem_string_In.
  unfold group_spec. rewrite map_map. cbn [fst]. rewrite map_id.
  apply distinct_months_In. exists d. split; [left|]; reflexivity.
Qed.

(** C35: a click on the button of a shown month (lines 142-145) keeps the
    component mounted and changes only the member list: the same months
    in the same order, the clicked month open exactly when it was closed,
    and every other month closed. *)
Theorem month_click_accordion tso (w : world) m ok v :
  mounted w = true -> render tso (st w) = Ok v -> month_shown (st w) m = true ->
  let w' := dispatch w (MonthClick m) ok in
  mounted w' = true /\
  exists secs secs',
    members v = MonthSections secs /\
    render tso (st w') =
      Ok {| name_value := name_value v; amount_value := amount_value v;
            remaining_text := remaining_text v; settled_text := settled_text v;
            settle_disabled := settle_disabled v; settle_text := settle_text v;
            members := MonthSections secs' |} /\
    map section_month secs' = map section_month secs /\
    Forall (fun s => section_open s = (section_month s =? m) && negb (is_expanded (st w) m)) secs'.
Proof.
  intros Hm Hr Hs. cbv zeta. cbn [dispatch]. rewrite Hm, Hs. cbn [negb].
  rewrite commit_st_exact. unfold render in Hr |- *.
  change (donations (apply_updates (st w) (toggleMonth m))) with (donations (st w)).
  unfold month_shown in Hs.
  destruct (groupedDonations (donations (st w))) as [o|] eqn:G; [|discriminate].
  injection Hr as <-. cbn [members name_value amount_value remaining_text settled_text settle_disabled settle_text].
  split.
  { apply commit_mounted_ok; [exact Hm|]. unfold render_ok.
    change (donations (apply_updates (st w) (toggleMonth m))) with (donations (st w)). rewrite G. reflexivity. }
  rewrite (mem_keys_nonempty _ _ Hs).
  do 2 eexists. split; [reflexivity|]. split; [reflexivity|].
  split.
  - rewrite !map_map. apply map_ext. intros e.
    rewrite (proj1 (month_section_of_fields tso _ e)), (proj1 (month_section_of_fields tso (st w) e)).
    reflexivity.
  - apply Forall_map, Forall_forall. intros e _.
    destruct (month_section_of_fields tso (apply_updates (st w) (toggleMonth m)) e) as (Hs' & Ho & _).
    rewrite Ho, Hs'. apply toggle_expanded.
Qed.

(** ** Every mounted component shows a view *)

Lemma render_ok_render tso st : render_ok st = true -> exists v, render tso st = Ok v.
Proof.
  unfold render_ok, render. destruct (groupedDonations (donations st)); [|discriminate].
  intros _. eexists. reflexivity.
Qed.

Lemma run_reachable {S : Type} `{Store : DocumentStore S} `{L : LocaleFormat} P (s0 : S) evs :
  forall (w : world),
  Forall (fun eo => external_ok P (fst eo)) evs -> reachable P s0 w -> reachable P s0 (run w evs).
Proof.
  induction evs as [|[e o] evs IH]; intros w He Hr; [exact Hr|].
  inversion He as [|? ? H1 H2]; subst. apply IH; [exact H2|]. apply reach_step; assumption.
Qed.

Section NeverUnmounts.
Context {S : Type} `{Store : DocumentStore S} `{Laws : !DocumentStoreLaws S}
        `{L : LocaleFormat} `{Ord : !MonthLabelsOrdinary L}.

(** C14: when the locale's month labels never name a property of
    [Object.prototype] and neither the document the store holds at mount
    nor any document another session writes has a donation with such a
    month, the component is never unmounted: in every reachable world it
    is mounted and its render (the reduce of lines 91-95 and the JSX tree
    of lines 96-182) does not throw. *)
Theorem never_unmounts tso P (s0 : S) (w : world) :
  (forall d, store_get s0 = Some d -> doc_proto_free d) ->
  (forall d, P d -> doc_proto_free d) ->
  reachable P s0 w -> mounted w = true /\ exists v, render tso (st w) = Ok v.
Proof.
  intros H0 HP Hr. destruct (reachable_mounted_inv P s0 w H0 HP Hr) as (Hm & Hp & _).
  split; [exact Hm|]. apply render_ok_render, render_ok_proto_free, Hp.
Qed.

End NeverUnmounts.

(** ** Concrete renders, in the en-US locale with the one-slot store *)

Definition no_text : number -> string := fun _ => "".

Definition nov20 : date :=
  {| year := 2026; month_index := 10; day := 20; hours := 18; minutes := 5; seconds := 0 |}.
Definition dec1 : date :=
  {| year := 2026; month_index := 11; day := 1; hours := 9; minutes := 0; seconds := 0 |}.

(** Alice and Bob give in November, Carol on 1 December. *)
Definition months_world : world :=
  run (mount (None : option document))
    (concat (map (with_outcome true)
       [AddContribution "Alice" "3000" nov9; AddContribution "Bob" "3500" nov20;
        AddContribution "Carol" "100" dec1])).

Definition blank_view : view := {|
  name_value := ""; amount_value := ""; remaining_text := ""; settled_text := None;
  settle_disabled := true; settle_text := ""; members := NoDonations |}.

Definition months_view : view :=
  match render no_text (st months_world) with Ok v => v | Throw _ => blank_view end.

Lemma typed_amount_shown_witness :
  Donation.amount (newDonation nov9 alice_typed) = of_Z 3000 /\
  item_amount (donation_item no_text (newDonation nov9 alice_typed)) = amount alice_typed.
Proof. apply (typed_amount_shown no_text nov9 alice_typed 3000); [unfold SAFE, prec; lia | vm_compute; reflexivity]. Defined.

Lemma render_one_open_witness :
  match members months_view with
  | NoDonations => donations (st months_world) = []
  | MonthSections secs =>
      secs <> [] /\ NoDup (map section_month secs) /\ (List.length (filter section_open secs) <= 1)%nat /\
      Forall (fun s => button_color s = (if section_open s then "#4CAF50" else "#2196F3") /\
                       button_arrow s = (if section_open s then ArrowUp else ArrowDown) /\
                       (section_open s = true <-> expandedMonth (st months_world) = Some (section_month s))) secs
  end.
Proof. apply (render_one_open no_text (st months_world) months_view). vm_compute. reflexivity. Defined.

Lemma render_spec_witness :
  render no_text (st months_world) =
    Ok {| name_value := name (st months_world); amount_value := amount (st months_world);
          remaining_text := remaining_label no_text (st months_world);
          settled_text := settled_note (st months_world);
          settle_disabled := settleDisabled (st months_world); settle_text := "6000";
          members := match donations (st months_world) with
                     | [] => NoDonations
                     | _ :: _ => MonthSections (map (month_section_of no_text (st months_world))
                                                    (group_spec (donations (st months_world))))
                     end |}.
Proof. apply render_spec; vm_compute; reflexivity. Defined.

Lemma month_click_accordion_witness :
  let w' := dispatch months_world (MonthClick "November 2026") true in
  mounted w' = true /\
  exists secs secs',
    members months_view = MonthSections secs /\
    render no_text (st w') =
      Ok {| name_value := name_value months_view; amount_value := amount_value months_view;
            remaining_text := remaining_text months_view; settled_text := settled_text months_view;
            settle_disabled := settle_disabled months_view; settle_text := settle_text months_view;
            members := MonthSections secs' |} /\
    map section_month secs' = map section_month secs /\
    Forall (fun s => section_open s = (section_month s =? "November 2026") &&
                                      negb (is_expanded (st months_world) "November 2026")) secs'.
Proof. apply month_click_accordion; vm_compute; reflexivity. Defined.

(** The screen after the click: November is open and green, newest first,
    with the amounts as typed; December is closed and blue. *)
Example months_after_click :
  match render no_text (st (dispatch months_world (MonthClick "November 2026") true)) with
  | Ok v =>
      remaining_text v = "6600.00" /\ settle_disabled v = false /\
      match members v with
      | MonthSections [nov; dec] =>
          section_month nov = "November 2026" /\ button_color nov = "#4CAF50" /\ button_arrow nov = ArrowUp /\
          option_map (map (fun i => (item_name i, item_amount i))) (section_items nov) =
            Some [("Bob", "3500"); ("Alice", "3000")] /\
          section_month dec = "December 2026" /\ button_color dec = "#2196F3" /\ section_items dec = None
      | _ => False
      end
  | Throw _ => False
  end.
Proof. vm_compute. repeat split. Qed.

Lemma never_unmounts_witness :
  mounted months_world = true /\ exists v, render no_text (st months_world) = Ok v.
Proof.
  apply (never_unmounts no_text doc_proto_free None months_world).
  - intros d H. discriminate H.
  - intros d H. exact H.
  - apply run_reachable; [|apply reach_mount]. vm_compute. repeat constructor.
Defined.

(** With [Number::toString] for the other values, a donation of 12.5 is
    listed as "12.5" and the remaining amount as "12.50". *)
Example decimal_amount_listed :
  let st0 := {| donations := []; settledAmount := of_Z 0; lastSettledAt := None;
                name := "Dana"; amount := "12.5"; expandedMonth := Some "November 2026" |} in
  let st1 := apply_updates st0 (handleAddDonation nov9 st0) in
  match render number_to_string st1 with
  | Ok v =>
      remaining_text v = "12.50"%string /\
      match members v with
      | MonthSections [sec] =>
          option_map (map item_amount) (section_items sec) = Some ["12.5"%string]
      | _ => False
      end
  | Throw _ => False
  end.
Proof. vm_compute. split; reflexivity. Qed.
